(** * Nova voice assistant: wake detection, command routing, response
      formatting and the listening loop.

    A shallow embedding of the Python sources

      - [nova/voice_recognition.py]  ([VoiceRecognizer])
      - [nova/command_processor.py]  ([CommandProcessor])
      - [nova/response_generator.py] ([ResponseGenerator])
      - [nova/assistant.py]          ([NovaAssistant])
      - [commands/system_commands.py], [commands/utility_commands.py]
        and [commands/network_commands.py] ([SystemCommands],
        [UtilityCommands], [NetworkCommands]: the choice of the method
        that carries a command out)

    Python [str] values are modelled by [string]; a character is read as
    the code point of the same number, so the model covers the texts
    whose code points are below 256, and every statement below is
    about such texts.  On them [str.lower], [in], [str.strip] and
    matching under [re.IGNORECASE] are as defined here.  Beyond them
    they part: [re.IGNORECASE] reads U+017F as [s] and U+0131 as [i],
    which [str.lower] leaves alone. *)

From Stdlib Require Import String Ascii List Bool Arith Lia.
From Stdlib Require Import ZArith DecimalString.
Import ListNotations.
Open Scope string_scope.
Open Scope nat_scope.

(* ================================================================== *)
(** * Python string operations *)
(* ================================================================== *)

Module PyStr.

(** [c.isspace()] for one character: TAB..CR, FS..US, SPACE, NEL, NBSP. *)
Definition isspace (c : ascii) : bool :=
  let n := nat_of_ascii c in
  ((9 <=? n) && (n <=? 13)) || ((28 <=? n) && (n <=? 32))
  || (n =? 133) || (n =? 160).

(** Characters that [str.lower()] changes: A-Z, and the upper-case
    letters of the upper half of the table (all but the multiplication
    sign at 215). *)
Definition isupper (c : ascii) : bool :=
  let n := nat_of_ascii c in
  ((65 <=? n) && (n <=? 90))
  || ((192 <=? n) && (n <=? 222) && negb (n =? 215)).

Definition lower_char (c : ascii) : ascii :=
  if isupper c then ascii_of_nat (nat_of_ascii c + 32) else c.

(** [s.lower()] *)
Fixpoint lower (s : string) : string :=
  match s with
  | EmptyString => EmptyString
  | String c s' => String (lower_char c) (lower s')
  end.

(** Truth value of a string: [not s] is [is_empty s]. *)
Definition is_empty (s : string) : bool :=
  match s with
  | EmptyString => true
  | String _ _ => false
  end.

(** [s.startswith(p)] *)
Fixpoint startswith (s p : string) {struct p} : bool :=
  match p with
  | EmptyString => true
  | String a p' =>
      match s with
      | EmptyString => false
      | String b s' => Ascii.eqb a b && startswith s' p'
      end
  end.

(** [sub in s] *)
Fixpoint contains (sub s : string) : bool :=
  startswith s sub ||
  match s with
  | EmptyString => false
  | String _ s' => contains sub s'
  end.

(** [s[n:]] *)
Fixpoint drop (n : nat) (s : string) : string :=
  match n with
  | 0 => s
  | S n' =>
      match s with
      | EmptyString => EmptyString
      | String _ s' => drop n' s'
      end
  end.

(** Longest-prefix removal of the characters satisfying [p]. *)
Fixpoint drop_while (p : ascii -> bool) (s : string) : string :=
  match s with
  | EmptyString => EmptyString
  | String c s' => if p c then drop_while p s' else s
  end.

(** [s.lstrip()], [s.rstrip()], [s.strip()] *)
Definition lstrip (s : string) : string := drop_while isspace s.

Fixpoint rstrip (s : string) : string :=
  match s with
  | EmptyString => EmptyString
  | String c s' =>
      let r := rstrip s' in
      if is_empty r && isspace c then EmptyString else String c r
  end.

Definition strip (s : string) : string := rstrip (lstrip s).


(** [any(k in s for k in keys)] *)
Definition any_in (keys : list string) (s : string) : bool :=
  existsb (fun k => contains k s) keys.

Definition newline : string := String (ascii_of_nat 10) EmptyString.

End PyStr.
Import PyStr.

(* ================================================================== *)
(** * Regular expressions (the fragment of [re] the pattern table uses) *)
(* ================================================================== *)

Module Re.

(** Pattern syntax.  Groups carry their number (the order of their
    opening parenthesis) and, for [(?P<name>...)], their name. *)
Inductive regex : Type :=
| Eps
| Chr (c : ascii)                      (* a literal character         *)
| Spc                                  (* [\s]                        *)
| Dot                                  (* [.]: anything but newline   *)
| Cat (r1 r2 : regex)
| Alt (r1 r2 : regex)                  (* [r1|r2], left one first     *)
| Star (r : regex)                     (* greedy [r*]                 *)
| Group (n : nat) (name : option string) (r : regex).

Definition Plus (r : regex) : regex := Cat r (Star r).    (* [r+] *)
Definition Opt (r : regex) : regex := Alt r Eps.          (* [r?] *)

Fixpoint Lit (s : string) : regex :=
  match s with
  | EmptyString => Eps
  | String c s' => Cat (Chr c) (Lit s')
  end.

(** One captured group: number, name, start and end offsets. *)
Record capture : Type := mkCapture {
  g_num : nat; g_name : option string; g_start : nat; g_end : nat }.

Definition set_group (n : nat) (name : option string) (b e : nat)
    (cs : list capture) : list capture :=
  mkCapture n name b e :: filter (fun g => negb (g_num g =? n)) cs.

(** Backtracking matcher in continuation-passing style: [s] is the text
    still to read, [pos] its offset, [k] what has to match afterwards.
    Literals are compared under [re.IGNORECASE]: the patterns hold
    ASCII letters only, and among the code points below 256 such a
    letter is matched by itself and by its capital, that is by the
    characters with the same [lower_char]. *)
Fixpoint mt (r : regex) (s : string) (pos : nat) (cs : list capture)
    (k : string -> nat -> list capture -> option (nat * list capture))
    {struct r} : option (nat * list capture) :=
  match r with
  | Eps => k s pos cs
  | Chr c =>
      match s with
      | String x s' =>
          if Ascii.eqb (lower_char x) (lower_char c) then k s' (S pos) cs
          else None
      | EmptyString => None
      end
  | Spc =>
      match s with
      | String x s' => if isspace x then k s' (S pos) cs else None
      | EmptyString => None
      end
  | Dot =>
      match s with
      | String x s' =>
          if Ascii.eqb x (ascii_of_nat 10) then None else k s' (S pos) cs
      | EmptyString => None
      end
  | Cat r1 r2 => mt r1 s pos cs (fun s' p' c' => mt r2 s' p' c' k)
  | Alt r1 r2 =>
      match mt r1 s pos cs k with
      | Some m => Some m
      | None => mt r2 s pos cs k
      end
  | Star r' =>
      (fix loop (fuel : nat) (s : string) (pos : nat) (cs : list capture)
         : option (nat * list capture) :=
         match fuel with
         | 0 => k s pos cs
         | S fuel' =>
             match mt r' s pos cs
                     (fun s' p' c' =>
                        if p' =? pos then None else loop fuel' s' p' c')
             with
             | Some m => Some m
             | None => k s pos cs
             end
         end) (String.length s) s pos cs
  | Group n name r' =>
      mt r' s pos cs (fun s' p' c' => k s' p' (set_group n name pos p' c'))
  end.

(** A match object: the searched string, the span of the whole match
    and the captured groups. *)
Record rmatch : Type := mkMatch {
  m_string : string; m_start : nat; m_end : nat;
  m_groups : list capture }.

Fixpoint search_from (r : regex) (whole s : string) (pos : nat)
    : option rmatch :=
  match mt r s pos [] (fun _ e cs => Some (e, cs)) with
  | Some (e, cs) => Some (mkMatch whole pos e cs)
  | None =>
      match s with
      | EmptyString => None
      | String _ s' => search_from r whole s' (S pos)
      end
  end.

(** [re.search(pattern, s, re.IGNORECASE)] *)
Definition search (r : regex) (s : string) : option rmatch :=
  search_from r s s 0.

Definition slice (b e : nat) (s : string) : string :=
  String.substring b (e - b) s.

(** [m.group(0)] *)
Definition group0 (m : rmatch) : string :=
  slice (m_start m) (m_end m) (m_string m).

(** [m.groupdict()]: the named groups with the text they captured. *)
Definition groupdict (m : rmatch) : list (string * string) :=
  flat_map (fun g =>
              match g_name g with
              | Some nm => [(nm, slice (g_start g) (g_end g) (m_string m))]
              | None => []
              end) (m_groups m).

End Re.
Import Re.

(* ================================================================== *)
(** * ResponseGenerator *)
(* ================================================================== *)

Module ResponseGenerator.

Definition default_intro : string := "Here's what I found:".


End ResponseGenerator.

(* ================================================================== *)
(** * The pattern table and the builtin intents of CommandProcessor *)
(* ================================================================== *)

Inductive category : Type := app | system | network | utility.

Inductive builtin_handler : Type :=
| handle_hello | handle_time | handle_date | handle_help
| handle_who_are_you | handle_what_can_you_do | handle_thank_you
| handle_exit | handle_stop_listening.

(** [self.builtin_commands]: a dict, iterated in insertion order. *)
Definition builtin_commands : list (string * builtin_handler) :=
  [ ("hello", handle_hello);
    ("hi", handle_hello);
    ("hey", handle_hello);
    ("time", handle_time);
    ("date", handle_date);
    ("help", handle_help);
    ("who are you", handle_who_are_you);
    ("what can you do", handle_what_can_you_do);
    ("thank you", handle_thank_you);
    ("thanks", handle_thank_you);
    ("exit", handle_exit);
    ("quit", handle_exit);
    ("stop listening", handle_stop_listening) ].

Definition alt (n : nat) (words : list string) : regex :=
  Group n None
    (match words with
     | [] => Eps
     | w :: ws => fold_left (fun r x => Alt r (Lit x)) ws (Lit w)
     end).

Definition machine (n : nat) : regex := alt n ["computer"; "pc"; "system"].

(** [self.command_patterns]: a dict, iterated in insertion order. *)
Definition command_patterns : list (category * list regex) :=
  [ (app,
     [ Cat (Lit "open") (Cat (Plus Spc) (Group 1 (Some "app_name") (Star Dot)));
       Cat (Lit "launch") (Cat (Plus Spc) (Group 1 (Some "app_name") (Star Dot)));
       Cat (Lit "start") (Cat (Plus Spc) (Group 1 (Some "app_name") (Star Dot)));
       Cat (Lit "run") (Cat (Plus Spc) (Group 1 (Some "app_name") (Star Dot))) ]);
    (system,
     [ Cat (alt 1 ["shutdown"; "turn off"]) (Cat (Plus Spc) (machine 2));
       Cat (Lit "restart") (Cat (Plus Spc) (machine 1));
       Cat (Lit "lock") (Cat (Plus Spc) (machine 1));
       Cat (Lit "sleep") (Cat (Plus Spc) (machine 1));
       Cat (Lit "hibernate") (Cat (Plus Spc) (machine 1));
       Cat (Lit "log") (Cat (Opt Spc) (Lit "out")) ]);
    (network,
     [ Cat (Lit "turn")
         (Cat (Plus Spc)
            (Cat (alt 1 ["on"; "off"])
               (Cat (Plus Spc) (alt 2 ["wifi"; "wireless"; "bluetooth"]))));
       Cat (alt 1 ["show"; "what is"; "what's"])
         (Cat (Plus Spc)
            (Cat (Opt (alt 2 ["my"]))
               (Cat (Star Spc) (alt 3 ["ip address"]))));
       Cat (alt 1 ["connect"; "disconnect"])
         (Cat (Plus Spc)
            (Cat (alt 2 ["to"; "from"])
               (Cat (Plus Spc) (Group 3 (Some "network") (Star Dot))))) ]);
    (utility,
     [ Cat (Lit "open")
         (Cat (Plus Spc)
            (alt 1 ["control panel"; "task manager"; "file explorer"]));
       Cat (alt 1 ["show"; "list"])
         (Cat (Plus Spc)
            (alt 2 ["running processes"; "cpu usage"; "memory usage"]));
       Cat (alt 1 ["set"; "adjust"])
         (Cat (Plus Spc)
            (Cat (Lit "volume")
               (Cat (Plus Spc) (alt 2 ["to"; "up"; "down"; "mute"])))) ]) ].

(** The first pattern of [patterns] found in [command_lower]. *)
Fixpoint first_pattern (patterns : list regex) (command_lower : string)
    : option rmatch :=
  match patterns with
  | [] => None
  | pattern :: rest =>
      match search pattern command_lower with
      | Some m => Some m
      | None => first_pattern rest command_lower
      end
  end.

(** The two nested [for] loops of [_categorize_command]. *)
Fixpoint scan (table : list (category * list regex)) (command_lower : string)
    : option (category * rmatch) :=
  match table with
  | [] => None
  | (c, patterns) :: rest =>
      match first_pattern patterns command_lower with
      | Some m => Some (c, m)
      | None => scan rest command_lower
      end
  end.

Definition _categorize_command (command_text : string)
    : option (category * rmatch) :=
  let command_lower := lower command_text in
  scan command_patterns command_lower.

(** [assistant.wake_word] and the recognizer's phrases. *)
Definition wake_word : string := "nova".

Definition alternative_wake_words : list string :=
  ["hey nova"; "hi nova"; "hello nova"; "hey nowa"; "hi nowa"].

Definition comma_or_space (c : ascii) : bool :=
  Ascii.eqb c "," || isspace c.

(** [_remove_wake_word].  Under the [startswith] guard the pattern
    [^nova[,\s]*] matches at offset 0 and nowhere else, so [re.sub]
    deletes the wake word and the longest run of commas and white space
    after it; [.strip()] follows. *)
Definition _remove_wake_word (command_text : string) : string :=
  let wake_word := lower wake_word in
  if startswith (lower command_text) wake_word then
    strip (drop_while comma_or_space
             (drop (String.length wake_word) command_text))
  else command_text.

(** The loop [for key, handler in self.builtin_commands.items()] with
    its test [key in command_text.lower()]. *)
Fixpoint find_builtin (table : list (string * builtin_handler))
    (command_lower : string) : option (string * builtin_handler) :=
  match table with
  | [] => None
  | (key, handler) :: rest =>
      if contains key command_lower then Some (key, handler)
      else find_builtin rest command_lower
  end.

(** The body shared by the two prefix tests of
    [detect_wake_word_and_command]: the command left after [phrase],
    when [text_lower] starts with it and something follows. *)
Definition command_after (phrase text_lower : string) : option string :=
  if startswith text_lower phrase then
    let command := strip (drop (String.length phrase) text_lower) in
    if is_empty command then None else Some command
  else None.

(** The loop [for phrase in self.alternative_wake_words]. *)
Fixpoint command_after_phrases (phrases : list string) (text_lower : string)
    : option string :=
  match phrases with
  | [] => None
  | phrase :: rest =>
      match command_after phrase text_lower with
      | Some command => Some command
      | None => command_after_phrases rest text_lower
      end
  end.

(** The part of [detect_wake_word_and_command] that follows the
    capture: the command carried by the recognized [text], if any. *)
Definition command_in_utterance (text : string) : option string :=
  let text_lower := lower text in
  match command_after wake_word text_lower with
  | Some command => Some command
  | None => command_after_phrases alternative_wake_words text_lower
  end.

(* ================================================================== *)
(** * NovaAssistant: state, collaborators and effects *)
(* ================================================================== *)

(** What one use of the microphone and of the recognition service
    yields ([listen_for_audio] followed by [recognize_speech]). *)
Inductive heard : Type :=
| MicUnavailable             (* [sr.Microphone()] raises               *)
| WaitTimeout                (* [sr.WaitTimeoutError] in [listen]      *)
| ListenError                (* another exception in [listen]          *)
| Unintelligible             (* [sr.UnknownValueError]                 *)
| ServiceError               (* [sr.RequestError] or another exception *)
| Recognized (text : string) (* [recognize_google] returns [text]      *).

Inductive exn : Type := MicrophoneError | RuntimeError | HandlerError.

Inductive result (A : Type) : Type :=
| Ret (a : A)
| Raise (e : exn).
Arguments Ret {A} a.
Arguments Raise {A} e.

(** The thread a call runs on: [stop()] joins the listening thread, and
    a thread that joins itself gets a [RuntimeError]. *)
Inductive thread : Type := ListeningThread | OtherThread.

(** Calls that leave the assistant, in the order they are made. *)
Inductive event : Type :=
| EvPollStop                       (* [stop_listening.is_set()]        *)
| EvAdjustNoise                    (* [adjust_for_ambient_noise(.., 1)] *)
| EvListen (timeout : option nat)  (* [recognizer.listen(source,
                                       timeout, phrase_time_limit=10)] *)
| EvWakeWordDetected               (* [on_wake_word_detected()]        *)
| EvListeningStarted
| EvListeningStopped
| EvProcessingStarted
| EvProcessingStopped
| EvSpeakingStarted (text : string) (* [on_speaking_started(text)] and
                                       the start of the speech thread  *)
| EvHandler (c : category) (command_text : string) (m : option rmatch)
| EvSleep (seconds : nat).

(** The collaborators the assistant does not control. *)
Record world : Type := mkWorld {
  hears : nat -> heard;        (* outcome of the k-th microphone use     *)
  stop_during : nat -> bool;   (* another thread calls [stop()] during
                                  the k-th microphone use                *)
  handler : category -> string -> option rmatch -> result string;
                               (* [command_handlers[c].process]          *)
  pick : nat -> nat;           (* the k-th draw of [random.choice]       *)
  clock_time : string;         (* [now.strftime('%I:%M %p')]             *)
  clock_date : string          (* [now.strftime('%A, %B %d, %Y')]        *)
}.

(** The fields of [NovaAssistant] and [VoiceRecognizer] the loop uses,
    with two counters into the [world] and the log of events. *)
Record assistant : Type := mkAssistant {
  is_listening : bool;
  is_processing : bool;
  is_speaking : bool;
  wake_word_detected : bool;
  stop_listening : bool;            (* the [threading.Event]            *)
  thread_alive : bool;              (* [listening_thread.is_alive()]    *)
  command_queue : list string;
  consecutive_errors : nat;
  captures : nat;
  draws : nat;
  events : list event
}.

Definition new_assistant : assistant :=
  mkAssistant false false false false false true [] 0 0 0 [].

Definition max_consecutive_errors : nat := 3.

Definition greetings : list string :=
  [ "Hello! I'm Nova, your virtual assistant.";
    "Hi there! Nova at your service.";
    "Greetings! Nova is ready to assist you.";
    "Hello! Nova is listening.";
    "Hi! I'm Nova, how can I help you today?" ].

Definition wake_word_responses : list string :=
  [ "Yes?"; "I'm listening"; "How can I help?";
    "What can I do for you?"; "I'm here" ].

Definition thank_you_responses : list string :=
  [ "You're welcome!"; "Happy to help!"; "No problem at all!";
    "Anytime!"; "Glad I could assist!" ].

Module Eff.

(** State and exceptions: a raised exception keeps the state reached. *)
Definition M (A : Type) : Type := assistant -> result A * assistant.

Definition ret {A} (a : A) : M A := fun st => (Ret a, st).
Definition raise {A} (e : exn) : M A := fun st => (Raise e, st).

Definition bind {A B} (m : M A) (f : A -> M B) : M B :=
  fun st =>
    match m st with
    | (Ret a, st') => f a st'
    | (Raise e, st') => (Raise e, st')
    end.

(** [try: m  except Exception: h] *)
Definition try_except {A} (m : M A) (h : exn -> M A) : M A :=
  fun st =>
    match m st with
    | (Ret a, st') => (Ret a, st')
    | (Raise e, st') => h e st'
    end.

(** [try: m  finally: f] *)
Definition try_finally {A} (m : M A) (f : M unit) : M A :=
  fun st =>
    match m st with
    | (Ret a, st') =>
        match f st' with
        | (Ret _, st'') => (Ret a, st'')
        | (Raise e, st'') => (Raise e, st'')
        end
    | (Raise e, st') =>
        match f st' with
        | (Ret _, st'') => (Raise e, st'')
        | (Raise e', st'') => (Raise e', st'')
        end
    end.

Definition get {A} (f : assistant -> A) : M A := fun st => (Ret (f st), st).
Definition modify (f : assistant -> assistant) : M unit :=
  fun st => (Ret tt, f st).

End Eff.
Import Eff.

Declare Scope eff_scope.
Delimit Scope eff_scope with eff.
Notation "x <- m ;; k" := (bind m (fun x => k))
  (at level 61, m at next level, right associativity) : eff_scope.
Notation "m ;; k" := (bind m (fun _ => k))
  (at level 61, right associativity) : eff_scope.
Open Scope eff_scope.

(** Field updates. *)
Definition set_is_listening (b : bool) (a : assistant) : assistant :=
  mkAssistant b (is_processing a) (is_speaking a) (wake_word_detected a)
    (stop_listening a) (thread_alive a) (command_queue a)
    (consecutive_errors a) (captures a) (draws a) (events a).
Definition set_is_processing (b : bool) (a : assistant) : assistant :=
  mkAssistant (is_listening a) b (is_speaking a) (wake_word_detected a)
    (stop_listening a) (thread_alive a) (command_queue a)
    (consecutive_errors a) (captures a) (draws a) (events a).
Definition set_is_speaking (b : bool) (a : assistant) : assistant :=
  mkAssistant (is_listening a) (is_processing a) b (wake_word_detected a)
    (stop_listening a) (thread_alive a) (command_queue a)
    (consecutive_errors a) (captures a) (draws a) (events a).
Definition set_wake_word_detected (b : bool) (a : assistant) : assistant :=
  mkAssistant (is_listening a) (is_processing a) (is_speaking a) b
    (stop_listening a) (thread_alive a) (command_queue a)
    (consecutive_errors a) (captures a) (draws a) (events a).
Definition set_stop_listening (b : bool) (a : assistant) : assistant :=
  mkAssistant (is_listening a) (is_processing a) (is_speaking a)
    (wake_word_detected a) b (thread_alive a) (command_queue a)
    (consecutive_errors a) (captures a) (draws a) (events a).
Definition set_command_queue (q : list string) (a : assistant) : assistant :=
  mkAssistant (is_listening a) (is_processing a) (is_speaking a)
    (wake_word_detected a) (stop_listening a) (thread_alive a) q
    (consecutive_errors a) (captures a) (draws a) (events a).
Definition set_consecutive_errors (n : nat) (a : assistant) : assistant :=
  mkAssistant (is_listening a) (is_processing a) (is_speaking a)
    (wake_word_detected a) (stop_listening a) (thread_alive a)
    (command_queue a) n (captures a) (draws a) (events a).
Definition set_captures (n : nat) (a : assistant) : assistant :=
  mkAssistant (is_listening a) (is_processing a) (is_speaking a)
    (wake_word_detected a) (stop_listening a) (thread_alive a)
    (command_queue a) (consecutive_errors a) n (draws a) (events a).
Definition set_draws (n : nat) (a : assistant) : assistant :=
  mkAssistant (is_listening a) (is_processing a) (is_speaking a)
    (wake_word_detected a) (stop_listening a) (thread_alive a)
    (command_queue a) (consecutive_errors a) (captures a) n (events a).
Definition set_events (l : list event) (a : assistant) : assistant :=
  mkAssistant (is_listening a) (is_processing a) (is_speaking a)
    (wake_word_detected a) (stop_listening a) (thread_alive a)
    (command_queue a) (consecutive_errors a) (captures a) (draws a) l.

Definition emit (e : event) : M unit :=
  modify (fun a => set_events (events a ++ [e]) a).

(** [self.stop_listening.is_set()] *)
Definition is_set : M bool :=
  emit EvPollStop ;; get stop_listening.

(** Truth value of an optional string: [None] and [""] are false. *)
Definition truthy (o : option string) : bool :=
  match o with
  | Some s => negb (is_empty s)
  | None => false
  end.

Definition text_of (o : option string) : string :=
  match o with
  | Some s => s
  | None => EmptyString
  end.

Inductive loop_end : Type :=
| Exited          (* the [while] test saw the stop flag                *)
| StillRunning    (* the iterations granted are used up                *).

Section Assistant.

Variable w : world.

(** ** VoiceRecognizer *)

(** [listen_for_audio(timeout)]; the audio returned is named by the
    number of the capture.  A [stop()] that another thread calls while
    this use of the microphone lasts shows in the flag when it ends. *)
Definition listen_for_audio (timeout : option nat) : M (option nat) :=
  k <- get captures ;;
  modify (set_captures (S k)) ;;
  modify (fun a =>
            set_stop_listening (stop_listening a || stop_during w k) a) ;;
  match hears w k with
  | MicUnavailable => raise MicrophoneError
  | outcome =>
      errs <- get consecutive_errors ;;
      (if max_consecutive_errors <? errs
       then emit EvAdjustNoise ;; modify (set_consecutive_errors 0)
       else ret tt) ;;
      emit (EvListen timeout) ;;
      match outcome with
      | WaitTimeout => ret None
      | ListenError =>
          modify (fun a =>
                    set_consecutive_errors (S (consecutive_errors a)) a) ;;
          ret None
      | _ => ret (Some k)
      end
  end.

(** [recognize_speech(audio)] *)
Definition recognize_speech (audio : option nat) : M (option string) :=
  match audio with
  | None => ret None
  | Some k =>
      match hears w k with
      | Recognized text =>
          modify (set_consecutive_errors 0) ;;
          ret (Some (lower text))
      | Unintelligible => ret None
      | _ =>
          modify (fun a =>
                    set_consecutive_errors (S (consecutive_errors a)) a) ;;
          ret None
      end
  end.

(** ** NovaAssistant: speaking and notifications *)

(** [random.choice(l)] *)
Definition choice (l : list string) : M string :=
  k <- get draws ;;
  modify (set_draws (S k)) ;;
  ret (nth (pick w k mod length l) l EmptyString).

(** [speak(text)]; the speech thread it starts is not followed. *)
Definition speak (text : string) : M unit :=
  if is_empty text then ret tt
  else modify (set_is_speaking true) ;; emit (EvSpeakingStarted text).

Definition get_random_greeting : M string := choice greetings.
Definition get_random_wake_word_response : M string :=
  choice wake_word_responses.

Definition on_wake_word_detected : M unit :=
  emit EvWakeWordDetected ;;
  modify (set_wake_word_detected true) ;;
  wake_response <- get_random_wake_word_response ;;
  speak wake_response.

(** [stop()], run on thread [me]. *)
Definition stop (me : thread) : M unit :=
  alive <- get thread_alive ;;
  if alive then
    modify (set_stop_listening true) ;;
    match me with
    | ListeningThread => raise RuntimeError
    | OtherThread => ret tt
    end
  else ret tt.

(** ** VoiceRecognizer: wake word and command *)

Definition detect_wake_word (timeout : option nat) : M bool :=
  audio <- listen_for_audio timeout ;;
  match audio with
  | None => ret false
  | Some _ =>
      text <- recognize_speech audio ;;
      if negb (truthy text) then ret false
      else
        let text_lower := lower (text_of text) in
        if contains wake_word text_lower then ret true
        else ret (any_in alternative_wake_words text_lower)
  end.

Definition listen_for_command (timeout : option nat) : M (option string) :=
  on_wake_word_detected ;;
  audio <- listen_for_audio timeout ;;
  match audio with
  | None => ret None
  | Some _ => recognize_speech audio
  end.

Definition detect_wake_word_and_command (timeout : option nat)
    : M (option string) :=
  audio <- listen_for_audio timeout ;;
  match audio with
  | None => ret None
  | Some _ =>
      text <- recognize_speech audio ;;
      if negb (truthy text) then ret None
      else
        match command_in_utterance (text_of text) with
        | Some command => ret (Some command)
        | None => on_wake_word_detected ;; ret None
        end
  end.

(** ** CommandProcessor *)

Definition help_text : string :=
  "I can help you with various tasks. Try commands like:" ++ newline ++
  "- Open Chrome" ++ newline ++
  "- What time is it?" ++ newline ++
  "- Shutdown my computer" ++ newline ++
  "- Turn off WiFi" ++ newline ++
  "- Show my IP address" ++ newline ++
  "- Open Task Manager".

(** The builtin handlers, run on thread [me]. *)
Definition run_builtin (me : thread) (h : builtin_handler)
    (command_text : string) : M string :=
  match h with
  | handle_hello => get_random_greeting
  | handle_time => ret ("The current time is " ++ clock_time w ++ ".")
  | handle_date => ret ("Today is " ++ clock_date w ++ ".")
  | handle_help => ret help_text
  | handle_who_are_you =>
      ret ("I'm Nova, your personal AI assistant. I'm designed to help you "
           ++ "control your computer, open applications, and provide information through voice commands.")
  | handle_what_can_you_do =>
      ret ("I can help you with various tasks on your computer. I can open applications, "
           ++ "control system functions like shutdown or restart, manage network settings, "
           ++ "and open system utilities. Just tell me what you need!")
  | handle_thank_you => choice thank_you_responses
  | handle_exit => stop me ;; ret "Goodbye! Nova is shutting down."
  | handle_stop_listening =>
      stop me ;;
      ret "I'll stop listening now. Call my name if you need me again."
  end.

(** [self.command_handlers[c].process(command_text, m)]: the call is
    logged and its outcome, a response or an exception, is taken from
    the world.  What a handler does on its way is not in the log; the
    system handlers that ask for a confirmation call [assistant.speak]
    themselves before they return. *)
Definition call_handler (c : category) (command_text : string)
    (m : option rmatch) : M string :=
  emit (EvHandler c command_text m) ;;
  match handler w c command_text m with
  | Ret response => ret response
  | Raise e => raise e
  end.

Definition clarification : string :=
  "I didn't catch that. Can you please repeat?".

Definition not_sure (command_text : string) : string :=
  "I'm not sure how to handle '" ++ command_text
  ++ "'. Try asking for help to see what I can do.".

(** [process(command_text)], run on thread [me]. *)
Definition process (me : thread) (command_text : string) : M string :=
  if is_empty command_text then ret clarification
  else
    let command_text := _remove_wake_word command_text in
    match find_builtin builtin_commands (lower command_text) with
    | Some (_, h) => run_builtin me h command_text
    | None =>
        match _categorize_command command_text with
        | Some (c, m) => call_handler c command_text (Some m)
        | None =>
            if any_in ["open"; "launch"; "start"; "run"]
                 (lower command_text)
            then call_handler app command_text None
            else if any_in ["shutdown"; "restart"; "lock"; "sleep";
                            "hibernate"; "log out"] (lower command_text)
            then call_handler system command_text None
            else if any_in ["wifi"; "wireless"; "bluetooth"; "ip address";
                            "network"] (lower command_text)
            then call_handler network command_text None
            else if any_in ["control panel"; "task manager";
                            "file explorer"; "processes"; "volume"]
                      (lower command_text)
            then call_handler utility command_text None
            else ret (not_sure command_text)
        end
    end.

(** ** NovaAssistant: processing and the listening loop *)

Definition apology : string :=
  "I'm sorry, I encountered an error while processing your request.".

Definition process_command (me : thread) (command_text : string) : M unit :=
  modify (set_is_processing true) ;;
  emit EvProcessingStarted ;;
  try_finally
    (try_except
       (modify (fun a =>
                  set_command_queue (command_queue a ++ [command_text]) a) ;;
        response <- process me command_text ;;
        if is_empty response then ret tt else speak response)
       (fun _ => speak apology))
    (modify (set_is_processing false) ;; emit EvProcessingStopped).

(** [x and not self.stop_listening.is_set()]: the flag is read only
    when [x] holds. *)
Definition and_not_stopped (x : bool) : M bool :=
  if x then (s <- is_set ;; ret (negb s)) else ret false.

(** The body of the [try] of one loop iteration. *)
Definition iteration : M unit :=
  command <- detect_wake_word_and_command None ;;
  go <- and_not_stopped (truthy command) ;;
  if go then process_command ListeningThread (text_of command)
  else
    wake_word_detected <- detect_wake_word None ;;
    go <- and_not_stopped wake_word_detected ;;
    if go then
      modify (set_is_listening true) ;;
      modify (set_wake_word_detected true) ;;
      emit EvListeningStarted ;;
      on_wake_word_detected ;;
      command <- listen_for_command (Some 5) ;;
      (if truthy command
       then process_command ListeningThread (text_of command)
       else ret tt) ;;
      modify (set_is_listening false) ;;
      modify (set_wake_word_detected false) ;;
      emit EvListeningStopped
    else ret tt.

(** One turn of the [while]: the body under its catch-all handler. *)
Definition guarded_iteration : M unit :=
  try_except iteration (fun _ => emit (EvSleep 1)).

(** [listen_continuously()], cut after [fuel] iterations. *)
Fixpoint listen_continuously (fuel : nat) : M loop_end :=
  match fuel with
  | 0 => ret StillRunning
  | S fuel' =>
      stopped <- is_set ;;
      if stopped then ret Exited
      else guarded_iteration ;; listen_continuously fuel'
  end.

End Assistant.

(* ================================================================== *)
(** * Reference definitions used to state the properties *)
(* ================================================================== *)

(** The longest of the [phrases] that [text] starts with (the first of
    them among equally long ones). *)
Definition longest_matching_prefix (phrases : list string) (text : string)
    : option string :=
  fold_left
    (fun best p =>
       if startswith text p then
         match best with
         | Some b => if String.length b <? String.length p then Some p else best
         | None => Some p
         end
       else best)
    phrases None.

(** Wake-and-command extraction as the longest-prefix policy words it:
    strip the longest candidate the utterance starts with, trim, and
    report a command only when something is left. *)
Definition strip_longest_wake_phrase (text : string) : option string :=
  let text_lower := lower text in
  match longest_matching_prefix (wake_word :: alternative_wake_words)
          text_lower with
  | Some p =>
      let command := strip (drop (String.length p) text_lower) in
      if is_empty command then None else Some command
  | None => None
  end.

(** Where [process] sends a command: the same tests as [process], with
    the call it ends in recorded instead of made. *)
Inductive routing : Type :=
| ToClarification
| ToBuiltin (key : string) (h : builtin_handler) (command_text : string)
| ToHandler (c : category) (command_text : string) (m : option rmatch)
| ToNotSure (command_text : string).

Definition route (command_text : string) : routing :=
  if is_empty command_text then ToClarification
  else
    let command_text := _remove_wake_word command_text in
    match find_builtin builtin_commands (lower command_text) with
    | Some (key, h) => ToBuiltin key h command_text
    | None =>
        match _categorize_command command_text with
        | Some (c, m) => ToHandler c command_text (Some m)
        | None =>
            if any_in ["open"; "launch"; "start"; "run"]
                 (lower command_text)
            then ToHandler app command_text None
            else if any_in ["shutdown"; "restart"; "lock"; "sleep";
                            "hibernate"; "log out"] (lower command_text)
            then ToHandler system command_text None
            else if any_in ["wifi"; "wireless"; "bluetooth"; "ip address";
                            "network"] (lower command_text)
            then ToHandler network command_text None
            else if any_in ["control panel"; "task manager";
                            "file explorer"; "processes"; "volume"]
                      (lower command_text)
            then ToHandler utility command_text None
            else ToNotSure command_text
        end
    end.

(** The events a run added to the log. *)
Definition new_events (before after : assistant) : list event :=
  skipn (length (events before)) (events after).

(** The timeouts of the captures in a log, in order. *)
Fixpoint listen_timeouts (evs : list event) : list (option nat) :=
  match evs with
  | [] => []
  | EvListen t :: rest => t :: listen_timeouts rest
  | _ :: rest => listen_timeouts rest
  end.

(** The number of wake acknowledgments in a log. *)
Fixpoint wake_acks (evs : list event) : nat :=
  match evs with
  | [] => 0
  | EvWakeWordDetected :: rest => S (wake_acks rest)
  | _ :: rest => wake_acks rest
  end.

(** The part of a log that precedes the follow-up command capture (the
    one capture made with a timeout), when there is one. *)
Fixpoint before_command_capture (evs : list event) : option (list event) :=
  match evs with
  | [] => None
  | EvListen (Some _) :: _ => Some []
  | e :: rest => option_map (cons e) (before_command_capture rest)
  end.

(** The handler calls in a log. *)
Fixpoint handler_calls (evs : list event) : list category :=
  match evs with
  | [] => []
  | EvHandler c _ _ :: rest => c :: handler_calls rest
  | _ :: rest => handler_calls rest
  end.

(** A world that hears the given utterances, one per capture, and then
    silence; its handlers answer [response]. *)
Definition scripted (script : list heard) (stops : list bool)
    (response : result string) : world :=
  mkWorld (fun k => nth k script WaitTimeout)
          (fun k => nth k stops false)
          (fun _ _ _ => response)
          (fun _ => 0) "10:00 AM" "Monday, January 01, 2024".

(** [st'] is [st] after some more events [d], with [n] more uses of
    the microphone and a stop flag that was not cleared. *)
Definition evolves (st st' : assistant) (d : list event) (n : nat) : Prop :=
  events st' = (events st ++ d)%list /\
  captures st' = captures st + n /\
  (stop_listening st = true -> stop_listening st' = true).

(** What [listen_for_audio] returns, by what the microphone yields. *)
Definition audio_of (h : heard) (k : nat) : result (option nat) :=
  match h with
  | MicUnavailable => Raise MicrophoneError
  | WaitTimeout | ListenError => Ret None
  | _ => Ret (Some k)
  end.

Definition timeouts_of (h : heard) (timeout : option nat)
    : list (option nat) :=
  match h with
  | MicUnavailable => []
  | _ => [timeout]
  end.

(** What [recognize_speech] returns for the audio of a capture. *)
Definition recognized (w : world) (audio : option nat) : option string :=
  match audio with
  | None => None
  | Some k =>
      match hears w k with
      | Recognized text => Some (lower text)
      | _ => None
      end
  end.

(** The three capturing calls: one more use of the microphone, one
    capture with the timeout given unless the microphone failed. *)
Definition captured {A} (w : world) (timeout : option nat) (st : assistant)
    (r : result A) (st' : assistant) : Prop :=
  stop_listening st' = stop_listening st || stop_during w (captures st) /\
  exists d, evolves st st' d 1 /\
    ((exists a, r = Ret a) /\ listen_timeouts d = [timeout] \/
     r = Raise MicrophoneError /\ listen_timeouts d = []).

(** One turn of the loop: at least one use of the microphone, captures
    with the timeouts [None], [None], [Some 5] in that order, and, once
    [stop()] arrives during one of them, a set flag and at most one use
    of the microphone after that one. *)
Definition turn (w : world) (st st' : assistant) : Prop :=
  exists d n,
    evolves st st' d n /\ 1 <= n /\
    (exists rest,
        (listen_timeouts d ++ rest)%list = [None; None; Some 5]) /\
    forall k, captures st <= k < captures st + n ->
              stop_during w k = true ->
              stop_listening st' = true /\ captures st + n <= k + 2.

(** The timeouts the loop gives its captures: none, or five seconds. *)
Definition allowed_timeout (t : option nat) : Prop :=
  t = None \/ t = Some 5.


(** The match of the first application pattern in
    ["open task manager"]. *)
Definition task_manager_match : rmatch :=
  mkMatch "open task manager" 0 17 [mkCapture 1 (Some "app_name") 5 17].

(* ================================================================== *)
(** * ResponseGenerator: durations and phrasing templates *)
(* ================================================================== *)

(** [str(n)] for an integer. *)
Definition str_int (n : Z) : string := NilZero.string_of_int (Z.to_int n).

(** ['s' if n != 1 else ''] *)
Definition plural (n : Z) : string := if (n =? 1)%Z then "" else "s".

(** [format_time_duration(seconds)], for an integer number of seconds;
    [//] and [%] are the floor division and its remainder. *)
Definition format_time_duration (seconds : Z) : string :=
  if (seconds <? 60)%Z then
    str_int seconds ++ " second" ++ plural seconds
  else
    let minutes := (seconds / 60)%Z in
    if (minutes <? 60)%Z then
      str_int minutes ++ " minute" ++ plural minutes
    else
      let hours := (minutes / 60)%Z in
      let minutes := (minutes mod 60)%Z in
      if (minutes =? 0)%Z then
        str_int hours ++ " hour" ++ plural hours
      else
        str_int hours ++ " hour" ++ plural hours ++ " and "
        ++ str_int minutes ++ " minute" ++ plural minutes.

Definition success_templates : list string :=
  [ "Done! {action}.";
    "I've {action} for you.";
    "Task complete. {action}.";
    "That's done. {action}.";
    "All set. {action}." ].

Definition error_templates : list string :=
  [ "I'm sorry, I couldn't {action}. {reason}";
    "I encountered an issue while trying to {action}. {reason}";
    "I wasn't able to {action}. {reason}";
    "There was a problem: {reason}";
    "I couldn't complete that task. {reason}" ].

Definition clarification_templates : list string :=
  [ "I'm not sure I understood. Did you want to {action}?";
    "Could you clarify if you want me to {action}?";
    "I didn't quite catch that. Do you want me to {action}?";
    "I need more information. Are you asking me to {action}?";
    "To confirm, would you like me to {action}?" ].

Definition affirmations : list string :=
  [ "I'll do that for you.";
    "Working on it now.";
    "Right away.";
    "Consider it done.";
    "Getting that for you now." ].

(** Keyword arguments of [str.format]. *)
Fixpoint kwarg (name : string) (kwargs : list (string * string))
    : option string :=
  match kwargs with
  | [] => None
  | (k, v) :: rest => if String.eqb k name then Some v else kwarg name rest
  end.

(** [template.format] with keyword arguments, for templates whose replacement fields
    are plain names: [{name}] is replaced by the argument of that name,
    [{{] and [}}] stand for a brace.  [field] is the name being read
    inside braces.  [None] is an exception ([KeyError] for a missing
    name, [ValueError] for a brace left alone) or a field that is not a
    plain name. *)
Fixpoint format_from (template : string) (field : option string)
    (kwargs : list (string * string)) : option string :=
  match template with
  | EmptyString =>
      match field with
      | None => Some EmptyString
      | Some _ => None
      end
  | String c rest =>
      match field with
      | None =>
          if Ascii.eqb c "{" then
            match rest with
            | String "{" rest' =>
                option_map (String "{") (format_from rest' None kwargs)
            | _ => format_from rest (Some EmptyString) kwargs
            end
          else if Ascii.eqb c "}" then
            match rest with
            | String "}" rest' =>
                option_map (String "}") (format_from rest' None kwargs)
            | _ => None
            end
          else option_map (String c) (format_from rest None kwargs)
      | Some name =>
          if Ascii.eqb c "}" then
            match kwarg name kwargs, format_from rest None kwargs with
            | Some v, Some tail =>
                if is_empty name then None else Some (v ++ tail)
            | _, _ => None
            end
          else if Ascii.eqb c "{" || Ascii.eqb c ":" || Ascii.eqb c "!"
                  || Ascii.eqb c "." || Ascii.eqb c "["
          then None
          else format_from rest (Some (name ++ String c EmptyString)) kwargs
      end
  end.

Definition format (template : string) (kwargs : list (string * string))
    : option string :=
  format_from template None kwargs.

(** The four phrasing helpers; the [option] is that of [format]. *)
Definition generate_success_response (w : world)
    (action_description : string) : M (option string) :=
  template <- choice w success_templates ;;
  ret (format template [("action", action_description)]).

Definition generate_error_response (w : world)
    (action_description reason : string) : M (option string) :=
  template <- choice w error_templates ;;
  ret (format template
         [("action", action_description); ("reason", reason)]).

Definition generate_clarification_response (w : world)
    (action_description : string) : M (option string) :=
  template <- choice w clarification_templates ;;
  ret (format template [("action", action_description)]).

Definition generate_affirmation (w : world) : M string :=
  choice w affirmations.

(* ================================================================== *)
(** * Further reference definitions *)
(* ================================================================== *)

(** The text is empty or starts with a character that is not white
    space. *)
Definition no_leading_space (s : string) : Prop :=
  match s with
  | EmptyString => True
  | String c _ => isspace c = false
  end.

(** Every character of the text is white space. *)
Fixpoint all_space (s : string) : bool :=
  match s with
  | EmptyString => true
  | String c s' => isspace c && all_space s'
  end.

(** The text is empty or ends with a character that is not white
    space. *)
Fixpoint no_trailing_space (s : string) : Prop :=
  match s with
  | EmptyString => True
  | String c EmptyString => isspace c = false
  | String _ s' => no_trailing_space s'
  end.


(** The error count that [listen_for_audio] works from: it is reset
    together with the adjustment for ambient noise. *)
Definition errors_base (errs : nat) : nat :=
  if max_consecutive_errors <? errs then 0 else errs.

(** The error count after one capture and its recognition. *)
Definition errors_after (h : heard) (errs : nat) : nat :=
  match h with
  | MicUnavailable => errs
  | Recognized _ => 0
  | WaitTimeout | Unintelligible => errors_base errs
  | ListenError | ServiceError => S (errors_base errs)
  end.

(** The events of one capture. *)
Definition capture_events (h : heard) (errs : nat) (timeout : option nat)
    : list event :=
  match h with
  | MicUnavailable => []
  | _ =>
      ((if max_consecutive_errors <? errs then [EvAdjustNoise] else [])
       ++ [EvListen timeout])%list
  end.

(** The wake word, or an alternate phrase that does not contain it, is
    somewhere in the text. *)
Definition wake_word_in (text_lower : string) : bool :=
  contains "nova" text_lower || contains "hey nowa" text_lower
  || contains "hi nowa" text_lower.

(** What the exit and the stop-listening handlers answer. *)
Definition farewell (h : builtin_handler) : string :=
  match h with
  | handle_stop_listening =>
      "I'll stop listening now. Call my name if you need me again."
  | _ => "Goodbye! Nova is shutting down."
  end.

(** A capture in which nothing is recognized and nothing fails. *)
Definition quiet_capture (h : heard) : Prop :=
  h = WaitTimeout \/ h = Unintelligible.

(** [w] read from the start of [s] under [re.IGNORECASE]. *)
Fixpoint ci_startswith (s w : string) {struct w} : bool :=
  match w with
  | EmptyString => true
  | String c w' =>
      match s with
      | EmptyString => false
      | String x s' =>
          Ascii.eqb (lower_char x) (lower_char c) && ci_startswith s' w'
      end
  end.

(** The continuation of [search]: the match ends here. *)
Definition accept (s : string) (e : nat) (cs : list capture)
    : option (nat * list capture) := Some (e, cs).

(** The words one of which every pattern of the table starts with. *)
Definition pattern_heads : list string :=
  [ "open"; "launch"; "start"; "run";
    "shutdown"; "turn off"; "restart"; "lock"; "sleep"; "hibernate"; "log";
    "turn"; "show"; "what is"; "what's"; "connect"; "disconnect";
    "list"; "set"; "adjust" ].

(** The keywords of the four fallback tests of [process]. *)
Definition fallback_keywords : list string :=
  [ "open"; "launch"; "start"; "run";
    "shutdown"; "restart"; "lock"; "sleep"; "hibernate"; "log out";
    "wifi"; "wireless"; "bluetooth"; "ip address"; "network";
    "control panel"; "task manager"; "file explorer"; "processes";
    "volume" ].

(** The patterns of a category. *)
Definition patterns_of (c : category) : list regex :=
  match find (fun entry =>
                match fst entry, c with
                | app, app | system, system | network, network
                | utility, utility => true
                | _, _ => false
                end) command_patterns with
  | Some entry => snd entry
  | None => []
  end.



(* ================================================================== *)
(** * The command classes: which method carries a command out *)
(* ================================================================== *)

(** [re.match(pattern, s, re.IGNORECASE)] finds a match: the pattern
    matches at the start of [s]. *)
Definition re_match (pattern : regex) (s : string) : bool :=
  match mt pattern s 0 [] accept with
  | Some _ => true
  | None => false
  end.

(** The first loop of every [process(command_text, match)], run when a
    match object is passed: the handler of the first pattern of the
    table that matches at the start of [match.group(0)]. *)
Fixpoint by_match {H : Type} (table : list (regex * H)) (group_0 : string)
    : option H :=
  match table with
  | [] => None
  | (pattern, handler) :: rest =>
      if re_match pattern group_0 then Some handler
      else by_match rest group_0
  end.

(** The second loop: the handler of the first pattern of the table
    found anywhere in the lower-cased command, with the match. *)
Fixpoint by_search {H : Type} (table : list (regex * H))
    (command_lower : string) : option (H * rmatch) :=
  match table with
  | [] => None
  | (pattern, handler) :: rest =>
      match search pattern command_lower with
      | Some m => Some (handler, m)
      | None => by_search rest command_lower
      end
  end.

(** ** SystemCommands *)

Module SystemCommands.

(** The methods that carry out the system commands. *)
Inductive method : Type :=
| _shutdown | _restart | _logout | _lock | _sleep | _hibernate.

(** [self.command_patterns]: a dict, iterated in insertion order. *)
Definition command_patterns : list (regex * method) :=
  [ (Cat (alt 1 ["shutdown"; "turn off"]) (Cat (Plus Spc) (machine 2)),
     _shutdown);
    (Cat (Lit "restart") (Cat (Plus Spc) (machine 1)), _restart);
    (Cat (Lit "log") (Cat (Opt Spc) (Lit "out")), _logout);
    (Cat (Lit "lock") (Cat (Plus Spc) (machine 1)), _lock);
    (Cat (Lit "sleep") (Cat (Plus Spc) (machine 1)), _sleep);
    (Cat (Lit "hibernate") (Cat (Plus Spc) (machine 1)), _hibernate) ].

(** The chain of keyword tests. *)
Definition by_keyword (command_lower : string) : option method :=
  if contains "shutdown" command_lower || contains "turn off" command_lower
  then Some _shutdown
  else if contains "restart" command_lower then Some _restart
  else if contains "logout" command_lower || contains "log out" command_lower
  then Some _logout
  else if contains "lock" command_lower then Some _lock
  else if contains "sleep" command_lower then Some _sleep
  else if contains "hibernate" command_lower then Some _hibernate
  else None.

(** [process(command_text, match)]: the method that is called on
    [command_text] and whose result is returned, or [None] when the
    reply is that no system command was recognized. *)
Definition process (command_text : string) (m : option rmatch)
    : option method :=
  let command_lower := lower command_text in
  match match m with
        | Some m => by_match command_patterns (group0 m)
        | None => None
        end
  with
  | Some handler => Some handler
  | None =>
      match by_search command_patterns command_lower with
      | Some (handler, _) => Some handler
      | None => by_keyword command_lower
      end
  end.

End SystemCommands.

(** ** UtilityCommands *)

Module UtilityCommands.

Inductive method : Type :=
| _open_control_panel | _open_task_manager | _open_file_explorer
| _list_processes | _show_cpu_usage | _show_memory_usage | _adjust_volume.

(** What [process] ends in: a method called on the command text, a
    direct call [_open_utility(command, description)], or the reply that
    no utility command was recognized. *)
Inductive outcome : Type :=
| Method (h : method)
| _open_utility (command description : string)
| NotSure.

(** [self.command_patterns]: a dict, iterated in insertion order. *)
Definition command_patterns : list (regex * method) :=
  [ (Cat (Lit "open")
       (Cat (Plus Spc) (Cat (Lit "control") (Cat (Star Spc) (Lit "panel")))),
     _open_control_panel);
    (Cat (Lit "open")
       (Cat (Plus Spc) (Cat (Lit "task") (Cat (Star Spc) (Lit "manager")))),
     _open_task_manager);
    (Cat (Lit "open")
       (Cat (Plus Spc) (Cat (Lit "file") (Cat (Star Spc) (Lit "explorer")))),
     _open_file_explorer);
    (Cat (alt 1 ["show"; "list"])
       (Cat (Plus Spc)
          (Cat (Lit "running") (Cat (Star Spc) (Lit "processes")))),
     _list_processes);
    (Cat (alt 1 ["show"; "display"])
       (Cat (Plus Spc) (Cat (Lit "cpu") (Cat (Star Spc) (Lit "usage")))),
     _show_cpu_usage);
    (Cat (alt 1 ["show"; "display"])
       (Cat (Plus Spc) (Cat (Lit "memory") (Cat (Star Spc) (Lit "usage")))),
     _show_memory_usage);
    (Cat (alt 1 ["set"; "adjust"])
       (Cat (Plus Spc)
          (Cat (Lit "volume")
             (Cat (Plus Spc) (alt 2 ["to"; "up"; "down"; "mute"])))),
     _adjust_volume) ].

(** [self.utility_mappings]: name, command and description of each
    entry, in insertion order. *)
Definition utility_mappings : list (string * (string * string)) :=
  [ ("control panel", ("control", "Control Panel"));
    ("task manager", ("taskmgr", "Task Manager"));
    ("file explorer", ("explorer", "File Explorer"));
    ("settings", ("ms-settings:", "Windows Settings"));
    ("device manager", ("devmgmt.msc", "Device Manager"));
    ("disk management", ("diskmgmt.msc", "Disk Management"));
    ("command prompt", ("cmd", "Command Prompt"));
    ("powershell", ("powershell", "PowerShell")) ].

(** The loop over [utility_mappings]. *)
Fixpoint by_mapping (mappings : list (string * (string * string)))
    (command_lower : string) : option outcome :=
  match mappings with
  | [] => None
  | (utility_name, (command, description)) :: rest =>
      if contains utility_name command_lower
         && contains "open" command_lower
      then Some (_open_utility command description)
      else by_mapping rest command_lower
  end.

(** The chain of keyword tests, ending in the reply. *)
Definition by_keyword (command_lower : string) : outcome :=
  if contains "control panel" command_lower then Method _open_control_panel
  else if contains "task manager" command_lower
  then Method _open_task_manager
  else if contains "file explorer" command_lower
  then Method _open_file_explorer
  else if contains "processes" command_lower then Method _list_processes
  else if contains "cpu" command_lower
          && (contains "usage" command_lower || contains "load" command_lower)
  then Method _show_cpu_usage
  else if contains "memory" command_lower
          && (contains "usage" command_lower || contains "load" command_lower)
  then Method _show_memory_usage
  else if contains "volume" command_lower then Method _adjust_volume
  else NotSure.

Definition process (command_text : string) (m : option rmatch) : outcome :=
  let command_lower := lower command_text in
  match match m with
        | Some m => by_match command_patterns (group0 m)
        | None => None
        end
  with
  | Some handler => Method handler
  | None =>
      match by_search command_patterns command_lower with
      | Some (handler, _) => Method handler
      | None =>
          match by_mapping utility_mappings command_lower with
          | Some call => call
          | None => by_keyword command_lower
          end
      end
  end.

End UtilityCommands.

(** ** NetworkCommands *)

Module NetworkCommands.

Inductive method : Type :=
| _toggle_wifi | _toggle_bluetooth | _show_ip_address
| _manage_network_connection.

(** What [process] ends in: a method called with the command text, a
    match object or [None], and [turn_on] when it is given; or a reply
    of [process] itself. *)
Inductive outcome : Type :=
| Call (h : method) (m : option rmatch) (turn_on : option bool)
| Reply (text : string).

(** [self.command_patterns]: a dict, iterated in insertion order. *)
Definition command_patterns : list (regex * method) :=
  [ (Cat (Lit "turn")
       (Cat (Plus Spc)
          (Cat (alt 1 ["on"; "off"])
             (Cat (Plus Spc) (alt 2 ["wifi"; "wireless"])))),
     _toggle_wifi);
    (Cat (Lit "turn")
       (Cat (Plus Spc)
          (Cat (alt 1 ["on"; "off"]) (Cat (Plus Spc) (Lit "bluetooth")))),
     _toggle_bluetooth);
    (Cat (alt 1 ["show"; "what is"; "what's"])
       (Cat (Plus Spc)
          (Cat (Opt (alt 2 ["my"]))
             (Cat (Star Spc) (alt 3 ["ip address"])))),
     _show_ip_address);
    (Cat (alt 1 ["connect"; "disconnect"])
       (Cat (Plus Spc)
          (Cat (alt 2 ["to"; "from"])
             (Cat (Plus Spc) (Group 3 (Some "network") (Star Dot))))),
     _manage_network_connection) ].

Definition ask_wifi : string := "Would you like me to turn WiFi on or off?".

Definition ask_bluetooth : string :=
  "Would you like me to turn Bluetooth on or off?".

Definition ask_network_name : string :=
  "Please specify the network name you want to connect to or disconnect from.".

Definition not_recognized : string :=
  "I'm not sure which network command you want to execute. "
  ++ "Try saying 'turn on WiFi', 'turn off Bluetooth', or 'show my IP address'.".

(** The tests for [on] and [off] under a device keyword. *)
Definition on_or_off (h : method) (ask : string) (command_lower : string)
    : outcome :=
  if contains "on" command_lower then Call h None (Some true)
  else if contains "off" command_lower then Call h None (Some false)
  else Reply ask.

(** The chain of keyword tests, ending in the reply. *)
Definition by_keyword (command_lower : string) : outcome :=
  if contains "wifi" command_lower || contains "wireless" command_lower
  then on_or_off _toggle_wifi ask_wifi command_lower
  else if contains "bluetooth" command_lower
  then on_or_off _toggle_bluetooth ask_bluetooth command_lower
  else if contains "ip" command_lower || contains "ip address" command_lower
  then Call _show_ip_address None None
  else if contains "connect" command_lower
          || contains "disconnect" command_lower
  then Reply ask_network_name
  else Reply not_recognized.

Definition process (command_text : string) (m : option rmatch) : outcome :=
  let command_lower := lower command_text in
  match match m with
        | Some m =>
            match by_match command_patterns (group0 m) with
            | Some handler => Some (Call handler (Some m) None)
            | None => None
            end
        | None => None
        end
  with
  | Some call => call
  | None =>
      match by_search command_patterns command_lower with
      | Some (handler, m') => Call handler (Some m') None
      | None => by_keyword command_lower
      end
  end.

End NetworkCommands.

(** The loop of [mt] for [Star r], on its own: [step] stands for
    [mt r] and [k] for what has to match after the repetition. *)
Section StarLoop.

Variable step : string -> nat -> list capture ->
                (string -> nat -> list capture -> option (nat * list capture))
                -> option (nat * list capture).
Variable k : string -> nat -> list capture -> option (nat * list capture).

Fixpoint star_loop (fuel : nat) (s : string) (pos : nat) (cs : list capture)
    : option (nat * list capture) :=
  match fuel with
  | 0 => k s pos cs
  | S fuel' =>
      match step s pos cs
              (fun s' p' c' =>
                 if p' =? pos then None else star_loop fuel' s' p' c')
      with
      | Some m => Some m
      | None => k s pos cs
      end
  end.

End StarLoop.
(* ================================================================== *)
(** * Facts about the string operations *)
(* ================================================================== *)

Section StringFacts.

Lemma lower_char_idem (c : ascii) : lower_char (lower_char c) = lower_char c.
Proof. destruct c as [[] [] [] [] [] [] [] []]; reflexivity. Qed.

Lemma lower_idem (s : string) : lower (lower s) = lower s.
Proof.
  induction s as [|c s IH]; simpl; [reflexivity|].
  now rewrite lower_char_idem, IH.
Qed.

Lemma lower_app (a b : string) : lower (a ++ b) = lower a ++ lower b.
Proof. induction a as [|c a IH]; simpl; [reflexivity | now rewrite IH]. Qed.

Lemma length_lower (s : string) : String.length (lower s) = String.length s.
Proof. induction s as [|c s IH]; simpl; [reflexivity | now rewrite IH]. Qed.

Lemma is_empty_true (s : string) : is_empty s = true <-> s = EmptyString.
Proof. destruct s; simpl; split; intros H; congruence. Qed.

Lemma is_empty_false (s : string) : is_empty s = false <-> s <> EmptyString.
Proof. destruct s; simpl; split; intros H; congruence. Qed.

Lemma startswith_app (p s : string) : startswith (p ++ s) p = true.
Proof.
  induction p as [|c p IH]; simpl; [reflexivity|].
  now rewrite Ascii.eqb_refl, IH.
Qed.

Lemma drop_app (p s : string) : drop (String.length p) (p ++ s) = s.
Proof. induction p as [|c p IH]; simpl; [reflexivity | exact IH]. Qed.

(** Two prefixes of one text are comparable. *)
Lemma startswith_both (t p q : string) :
  startswith t p = true -> startswith t q = true ->
  startswith p q = true \/ startswith q p = true.
Proof.
  revert p q. induction t as [|c t IH]; intros p q Hp Hq.
  - destruct p; [|discriminate]. destruct q; [|discriminate]. now left.
  - destruct p as [|a p]; [now right|].
    destruct q as [|b q]; [now left|].
    simpl in Hp, Hq.
    apply andb_true_iff in Hp as [Ha Hp], Hq as [Hb Hq].
    apply Ascii.eqb_eq in Ha, Hb. subst a b.
    simpl. rewrite Ascii.eqb_refl. simpl.
    exact (IH p q Hp Hq).
Qed.

Lemma startswith_excl (t p q : string) :
  startswith t p = true ->
  startswith p q = false -> startswith q p = false ->
  startswith t q = false.
Proof.
  intros Hp Hpq Hqp.
  destruct (startswith t q) eqn:Hq; [|reflexivity].
  destruct (startswith_both t p q Hp Hq); congruence.
Qed.

Lemma length_drop (n : nat) (s : string) :
  String.length (drop n s) = String.length s - n.
Proof.
  revert s. induction n as [|n IH]; intros s; simpl; [lia|].
  destruct s; simpl; [reflexivity | apply IH].
Qed.

Lemma length_drop_while (p : ascii -> bool) (s : string) :
  String.length (drop_while p s) <= String.length s.
Proof.
  induction s as [|c s IH]; simpl; [lia|].
  destruct (p c); simpl; lia.
Qed.

Lemma length_rstrip (s : string) : String.length (rstrip s) <= String.length s.
Proof.
  induction s as [|c s IH]; simpl; [lia|].
  destruct (is_empty (rstrip s) && isspace c); simpl; lia.
Qed.

Lemma length_strip (s : string) : String.length (strip s) <= String.length s.
Proof.
  unfold strip, lstrip.
  pose proof (length_rstrip (drop_while isspace s)).
  pose proof (length_drop_while isspace s). lia.
Qed.

Lemma startswith_length (s p : string) :
  startswith s p = true -> String.length p <= String.length s.
Proof.
  revert s. induction p as [|a p IH]; intros s H; simpl; [lia|].
  destruct s as [|b s]; [discriminate|]. simpl in H.
  apply andb_true_iff in H as [_ H]. apply IH in H. simpl. lia.
Qed.

End StringFacts.

(* ================================================================== *)
(** * Wake detection *)
(* ================================================================== *)

Section WakeDetector.

Lemma command_after_hit (p s : string) :
  command_after p (p ++ s) =
  if is_empty (strip s) then None else Some (strip s).
Proof.
  unfold command_after. now rewrite startswith_app, drop_app.
Qed.

Lemma command_after_miss (p t : string) :
  startswith t p = false -> command_after p t = None.
Proof. unfold command_after. now intros ->. Qed.

Lemma strip_leading_space (s : string) : strip (" " ++ s) = strip s.
Proof. reflexivity. Qed.

(** What the extraction yields on an alternate phrase followed by a
    space and any text. *)
Lemma command_in_utterance_alt (W C : string) :
  In W alternative_wake_words ->
  command_in_utterance (W ++ " " ++ C) =
  if is_empty (strip (lower C)) then None else Some (strip (lower C)).
Proof.
  intros HW. unfold command_in_utterance.
  rewrite lower_app, lower_app.
  change (lower " ") with " ".
  simpl in HW.
  destruct HW as [<-|[<-|[<-|[<-|[<-|[]]]]]];
    match goal with
    | |- context [lower ?W ++ _] =>
        let W' := eval vm_compute in (lower W) in
        change (lower W) with W'
    end;
    rewrite command_after_miss by reflexivity;
    unfold alternative_wake_words, command_after_phrases;
    repeat (rewrite command_after_miss by reflexivity);
    rewrite command_after_hit, strip_leading_space;
    destruct (is_empty (strip (lower C))); reflexivity.
Qed.

(** No candidate phrase is a prefix of another one: a text starts with
    at most one of them. *)
Ltac only_prefix H :=
  repeat match goal with
         | |- context [startswith ?t ?q] =>
             rewrite (startswith_excl t _ q H) by reflexivity
         end.

Ltac case_ite :=
  match goal with
  | |- context [if ?b then None else _] => destruct b
  end.

Lemma command_in_utterance_longest (text : string) :
  command_in_utterance text = strip_longest_wake_phrase text.
Proof.
  unfold command_in_utterance, strip_longest_wake_phrase,
    longest_matching_prefix, alternative_wake_words, wake_word,
    command_after_phrases, command_after, fold_left.
  generalize (lower text) as t. intros t.
  destruct (startswith t "nova") eqn:H0.
  { only_prefix H0. simpl. now case_ite. }
  destruct (startswith t "hey nova") eqn:H1.
  { only_prefix H1. simpl. now case_ite. }
  destruct (startswith t "hi nova") eqn:H2.
  { only_prefix H2. simpl. now case_ite. }
  destruct (startswith t "hello nova") eqn:H3.
  { only_prefix H3. simpl. now case_ite. }
  destruct (startswith t "hey nowa") eqn:H4.
  { only_prefix H4. simpl. now case_ite. }
  destruct (startswith t "hi nowa") eqn:H5.
  { simpl. now case_ite. }
  reflexivity.
Qed.

End WakeDetector.

(* ================================================================== *)
(** * How the operations move the assistant's state *)
(* ================================================================== *)

Section Runs.

Variable w : world.

Lemma evolves_refl st : evolves st st [] 0.
Proof. unfold evolves. rewrite app_nil_r. auto with arith. Qed.

Lemma evolves_trans st1 st2 st3 d1 d2 n1 n2 :
  evolves st1 st2 d1 n1 -> evolves st2 st3 d2 n2 ->
  evolves st1 st3 (d1 ++ d2)%list (n1 + n2).
Proof.
  intros (E1 & C1 & S1) (E2 & C2 & S2). unfold evolves.
  rewrite E2, E1, C2, C1, app_assoc. repeat split; auto with arith.
Qed.

Lemma new_events_evolves st st' d n :
  evolves st st' d n -> new_events st st' = d.
Proof.
  intros (E & _). unfold new_events. rewrite E.
  rewrite skipn_app, skipn_all, Nat.sub_diag. reflexivity.
Qed.

Lemma listen_timeouts_app d1 d2 :
  listen_timeouts (d1 ++ d2) = (listen_timeouts d1 ++ listen_timeouts d2)%list.
Proof.
  induction d1 as [|e d1 IH]; simpl; [reflexivity|].
  destruct e; simpl; rewrite ?IH; reflexivity.
Qed.

Lemma handler_calls_app d1 d2 :
  handler_calls (d1 ++ d2) = (handler_calls d1 ++ handler_calls d2)%list.
Proof.
  induction d1 as [|e d1 IH]; simpl; [reflexivity|].
  destruct e; simpl; rewrite ?IH; reflexivity.
Qed.

(** Running through the definitions on a state given by its fields. *)
Ltac run :=
  cbv [bind ret raise get modify emit try_except try_finally is_set
       set_is_listening set_is_processing set_is_speaking
       set_wake_word_detected set_stop_listening set_command_queue
       set_consecutive_errors set_captures set_draws set_events];
  cbn [fst snd is_listening is_processing is_speaking wake_word_detected
       stop_listening thread_alive command_queue consecutive_errors
       captures draws events].

Ltac settle :=
  unfold evolves;
  cbn [events captures stop_listening];
  split;
  [ rewrite <- ?app_assoc; cbn [List.app];
    first [ reflexivity | now rewrite app_nil_r ]
  | split; [ rewrite ?Nat.add_0_r; auto with arith | auto ] ].

Lemma is_set_run st r st' :
  is_set st = (r, st') ->
  r = Ret (stop_listening st) /\ stop_listening st' = stop_listening st /\
  evolves st st' [EvPollStop] 0.
Proof.
  unfold is_set. run. intros [= <- <-].
  (split; [reflexivity|]); (split; [reflexivity|]); settle.
Qed.

Lemma speak_run text st r st' :
  speak text st = (r, st') ->
  r = Ret tt /\ stop_listening st' = stop_listening st /\
  evolves st st'
    (if is_empty text then [] else [EvSpeakingStarted text]) 0.
Proof.
  unfold speak. destruct (is_empty text); run; intros [= <- <-];
    (split; [reflexivity|]); (split; [reflexivity|]); settle.
Qed.

Lemma choice_run l st r st' :
  choice w l st = (r, st') ->
  r = Ret (nth (pick w (draws st) mod length l) l EmptyString) /\
  stop_listening st' = stop_listening st /\
  evolves st st' [] 0.
Proof.
  unfold choice. run. intros [= <- <-].
  (split; [reflexivity|]); (split; [reflexivity|]); settle.
Qed.

Lemma on_wake_word_detected_run st r st' :
  on_wake_word_detected w st = (r, st') ->
  r = Ret tt /\ stop_listening st' = stop_listening st /\
  exists d, evolves st st' d 0 /\ listen_timeouts d = [] /\
            wake_acks d = 1.
Proof.
  unfold on_wake_word_detected, get_random_wake_word_response, choice,
    speak.
  run.
  destruct (is_empty _); run; intros [= <- <-];
    (split; [reflexivity|]); (split; [reflexivity|]);
    eexists; (split; [settle|]); split; reflexivity.
Qed.

Lemma listen_for_audio_run timeout st r st' :
  listen_for_audio w timeout st = (r, st') ->
  stop_listening st' = stop_listening st || stop_during w (captures st) /\
  r = audio_of (hears w (captures st)) (captures st) /\
  exists d, evolves st st' d 1 /\
    listen_timeouts d = timeouts_of (hears w (captures st)) timeout.
Proof.
  unfold listen_for_audio. run.
  destruct (hears w (captures st)); run;
    try destruct (max_consecutive_errors <? consecutive_errors st); run;
    intros [= <- <-]; cbn [stop_listening];
    (split; [reflexivity|]); (split; [reflexivity|]); eexists;
    (split;
     [ settle; rewrite ?Nat.add_1_r; auto;
       intros ->; reflexivity
     | reflexivity ]).
Qed.

Lemma recognize_speech_run audio st r st' :
  recognize_speech w audio st = (r, st') ->
  r = Ret (recognized w audio) /\
  stop_listening st' = stop_listening st /\ evolves st st' [] 0.
Proof.
  unfold recognize_speech, recognized.
  destruct audio as [k|]; [destruct (hears w k)|]; run;
    intros [= <- <-];
    (split; [reflexivity|]); (split; [reflexivity|]); settle.
Qed.

Lemma stop_run me st r st' :
  stop me st = (r, st') -> evolves st st' [] 0.
Proof.
  unfold stop. run.
  destruct (thread_alive st); [destruct me|]; run; intros [= <- <-]; settle.
Qed.

Lemma run_builtin_run me h text st r st' :
  run_builtin w me h text st = (r, st') -> evolves st st' [] 0.
Proof.
  destruct h; cbn [run_builtin]; unfold get_random_greeting;
    try (intros H; apply choice_run in H; tauto);
    try (run; intros [= <- <-]; settle).
  - unfold bind. destruct (stop me st) as [[[]|e] st1] eqn:E;
      apply stop_run in E; run; now intros [= <- <-].
  - unfold bind. destruct (stop me st) as [[[]|e] st1] eqn:E;
      apply stop_run in E; run; now intros [= <- <-].
Qed.

Lemma call_handler_run c text m st r st' :
  call_handler w c text m st = (r, st') ->
  r = handler w c text m /\ stop_listening st' = stop_listening st /\
  evolves st st' [EvHandler c text m] 0.
Proof.
  unfold call_handler. run.
  destruct (handler w c text m); run; intros [= <- <-];
    (split; [reflexivity|]); (split; [reflexivity|]); settle.
Qed.

(** [process] makes the call that [route] records. *)
Lemma process_route me text :
  process w me text =
  match route text with
  | ToClarification => ret clarification
  | ToBuiltin _ h command_text => run_builtin w me h command_text
  | ToHandler c command_text m => call_handler w c command_text m
  | ToNotSure command_text => ret (not_sure command_text)
  end.
Proof.
  unfold process, route.
  destruct (is_empty text); [reflexivity|].
  destruct (find_builtin _ _) as [[key h]|]; [reflexivity|].
  destruct (_categorize_command _) as [[c m]|]; [reflexivity|].
  repeat (destruct (any_in _ _); [reflexivity|]).
  reflexivity.
Qed.

Lemma process_run me text st r st' :
  process w me text st = (r, st') ->
  exists d, evolves st st' d 0 /\ listen_timeouts d = [].
Proof.
  rewrite process_route.
  destruct (route text) as [|key h c|c t m|t].
  - run. intros [= <- <-]. exists []. split; [settle | reflexivity].
  - intros H. apply run_builtin_run in H. exists []. now split.
  - intros H. apply call_handler_run in H as (_ & _ & H).
    eexists. split; [exact H | reflexivity].
  - run. intros [= <- <-]. exists []. split; [settle | reflexivity].
Qed.

(** [process_command] returns normally whatever [process] does; when
    [process] raises, the apology is what gets spoken. *)
Lemma process_command_run me text st r st' :
  process_command w me text st = (r, st') ->
  r = Ret tt /\
  exists d, evolves st st' d 0 /\ listen_timeouts d = [].
Proof.
  unfold process_command. run.
  match goal with
  | |- context [process w me text ?s] =>
      destruct (process w me text s) as [[response|e] st1] eqn:E;
      apply process_run in E as (d & E & Hd)
  end.
  - destruct (speak_run response st1 _ _
                (surjective_pairing (speak response st1)))
      as (Hr & _ & Hs).
    unfold speak in *. destruct (is_empty response); run;
      intros [= <- <-]; (split; [reflexivity|]).
    + exists ([EvProcessingStarted] ++ d ++ [EvProcessingStopped])%list.
      split.
      * destruct E as (E1 & E2 & E3). cbn in E1, E2, E3.
        unfold evolves. cbn. rewrite E1, E2, <- !app_assoc.
        repeat split; auto.
      * cbn. rewrite listen_timeouts_app, Hd. reflexivity.
    + exists ([EvProcessingStarted] ++ d ++
              [EvSpeakingStarted response; EvProcessingStopped])%list.
      split.
      * destruct E as (E1 & E2 & E3). cbn in E1, E2, E3.
        unfold evolves. cbn. rewrite E1, E2, <- !app_assoc.
        repeat split; auto.
      * cbn. rewrite listen_timeouts_app, Hd. reflexivity.
  - unfold speak, apology. run. intros [= <- <-]. (split; [reflexivity|]).
    exists ([EvProcessingStarted] ++ d ++
            [EvSpeakingStarted apology; EvProcessingStopped])%list.
    split.
    + destruct E as (E1 & E2 & E3). cbn in E1, E2, E3.
      unfold evolves. cbn. rewrite E1, E2, <- !app_assoc.
      repeat split; auto.
    + cbn. rewrite listen_timeouts_app, Hd. reflexivity.
Qed.

Lemma and_not_stopped_run x st r st' :
  and_not_stopped x st = (r, st') ->
  r = Ret (x && negb (stop_listening st)) /\
  stop_listening st' = stop_listening st /\
  exists d, evolves st st' d 0 /\ listen_timeouts d = [].
Proof.
  unfold and_not_stopped, is_set. destruct x; run; intros [= <- <-];
    (split; [reflexivity|]); (split; [reflexivity|]);
    eexists; (split; [settle | reflexivity]).
Qed.

Ltac chain :=
  repeat match goal with
         | H : evolves _ _ _ _ |- _ =>
             let E := fresh "E" in
             let C := fresh "C" in
             let S := fresh "S" in
             destruct H as (E & C & S)
         end.

Ltac fields :=
  cbv [set_is_listening set_is_processing set_is_speaking
       set_wake_word_detected set_stop_listening set_command_queue
       set_consecutive_errors set_captures set_draws set_events] in *;
  cbn [is_listening is_processing is_speaking wake_word_detected
       stop_listening thread_alive command_queue consecutive_errors
       captures draws events] in *.

Ltac link :=
  chain; unfold evolves; fields; split;
  [ repeat match goal with
           | E : events _ = _ |- _ => rewrite E; clear E
           end;
    rewrite <- ?app_assoc; cbn [List.app]; rewrite ?app_nil_r;
    reflexivity
  | split; [ lia | first [ tauto | auto ] ] ].

Lemma detect_wake_word_and_command_run timeout st r st' :
  detect_wake_word_and_command w timeout st = (r, st') ->
  captured w timeout st r st' /\
  match hears w (captures st) with
  | MicUnavailable => r = Raise MicrophoneError
  | Recognized text => r = Ret (command_in_utterance (lower text))
  | _ => r = Ret None
  end.
Proof.
  unfold detect_wake_word_and_command, captured, bind at 1.
  destruct (listen_for_audio w timeout st) as [r1 st1] eqn:E1.
  apply listen_for_audio_run in E1 as (S1 & -> & d1 & E1 & H1).
  destruct (hears w (captures st)) eqn:Hh; cbn [audio_of timeouts_of] in *.
  - intros [= <- <-]. repeat split; auto. exists d1. split; auto.
  - run. intros [= <- <-]. repeat split; auto. exists d1. split; eauto.
  - run. intros [= <- <-]. repeat split; auto. exists d1. split; eauto.
  - unfold bind at 1.
    destruct (recognize_speech w _ st1) as [r2 st2] eqn:E2.
    apply recognize_speech_run in E2 as (-> & S2 & E2).
    cbn [recognized]. rewrite Hh. run. intros [= <- <-].
    repeat split; [congruence|]. exists d1. split; [link | eauto].
  - unfold bind at 1.
    destruct (recognize_speech w _ st1) as [r2 st2] eqn:E2.
    apply recognize_speech_run in E2 as (-> & S2 & E2).
    cbn [recognized]. rewrite Hh. run. intros [= <- <-].
    repeat split; [congruence|]. exists d1. split; [link | eauto].
  - unfold bind at 1.
    destruct (recognize_speech w _ st1) as [r2 st2] eqn:E2.
    apply recognize_speech_run in E2 as (-> & S2 & E2).
    cbn [recognized]. rewrite Hh. cbn [truthy text_of].
    destruct (is_empty (lower text)) eqn:Hempty; cbn [negb].
    + apply is_empty_true in Hempty. rewrite Hempty.
      run. intros [= <- <-].
      repeat split; [congruence|]. exists d1. split; [link | eauto].
    + destruct (command_in_utterance (lower text)) as [command|].
      * run. intros [= <- <-].
        repeat split; [congruence|]. exists d1. split; [link | eauto].
      * unfold bind at 1.
        destruct (on_wake_word_detected w st2) as [r3 st3] eqn:E3.
        apply on_wake_word_detected_run in E3
          as (-> & S3 & d3 & E3 & H3 & _).
        run. intros [= <- <-].
        repeat split; [congruence|]. exists (d1 ++ d3)%list.
        split; [link|]. left. split; [eauto|].
        rewrite listen_timeouts_app, H1, H3. reflexivity.
Qed.

Lemma detect_wake_word_run timeout st r st' :
  detect_wake_word w timeout st = (r, st') -> captured w timeout st r st'.
Proof.
  unfold detect_wake_word, captured, bind at 1.
  destruct (listen_for_audio w timeout st) as [r1 st1] eqn:E1.
  apply listen_for_audio_run in E1 as (S1 & -> & d1 & E1 & H1).
  destruct (hears w (captures st)) eqn:Hh; cbn [audio_of timeouts_of] in *;
    try (run; intros [= <- <-]; split; [assumption|];
         exists d1; split; eauto);
    unfold bind at 1;
    destruct (recognize_speech w _ st1) as [r2 st2] eqn:E2;
    apply recognize_speech_run in E2 as (-> & S2 & E2);
    (destruct (negb (truthy _)); [|destruct (contains _ _)]);
    run; intros [= <- <-]; (split; [congruence|]);
    exists d1; (split; [link | eauto]).
Qed.

Lemma listen_for_command_run timeout st r st' :
  listen_for_command w timeout st = (r, st') ->
  stop_listening st' = stop_listening st || stop_during w (captures st) /\
  exists d, evolves st st' d 1 /\
    ((exists a, r = Ret a) /\ listen_timeouts d = [timeout] \/
     r = Raise MicrophoneError /\ listen_timeouts d = []).
Proof.
  unfold listen_for_command, bind at 1.
  destruct (on_wake_word_detected w st) as [r0 st0] eqn:E0.
  apply on_wake_word_detected_run in E0 as (-> & S0 & d0 & E0 & H0 & _).
  unfold bind at 1.
  destruct (listen_for_audio w timeout st0) as [r1 st1] eqn:E1.
  apply listen_for_audio_run in E1 as (S1 & -> & d1 & E1 & H1).
  assert (C0 : captures st0 = captures st) by (destruct E0 as (_ & C & _); lia).
  rewrite C0, S0 in *.
  destruct (hears w (captures st)) eqn:Hh; cbn [audio_of timeouts_of] in *;
    try (run; intros [= <- <-]; split; [assumption|];
         exists (d0 ++ d1)%list; split; [link|];
         rewrite listen_timeouts_app, H0, H1; eauto);
    intros E2; apply recognize_speech_run in E2 as (-> & S2 & E2);
    (split; [congruence|]);
    exists (d0 ++ d1)%list; (split; [link|]);
    rewrite listen_timeouts_app, H0, H1; eauto.
Qed.

Lemma bind_modify {B} f (k : unit -> M B) st :
  bind (modify f) k st = k tt (f st).
Proof. reflexivity. Qed.

Lemma bind_emit {B} e (k : unit -> M B) st :
  bind (emit e) k st = k tt (set_events (events st ++ [e]) st).
Proof. reflexivity. Qed.

Lemma iteration_run st r st' :
  iteration w st = (r, st') -> turn w st st'.
Proof.
  unfold iteration, bind at 1.
  destruct (detect_wake_word_and_command w None st) as [r1 st1] eqn:E1.
  apply detect_wake_word_and_command_run in E1
    as ((S1 & d1 & E1 & H1) & _).
  destruct H1 as [[[command ->] H1] | [-> H1]].
  2:{ intros [= <- <-]. exists d1, 1. split; [assumption|].
      split; [lia|]. split; [rewrite H1; eexists; reflexivity|].
      intros k Hk Hsd. assert (k = captures st) as -> by lia.
      rewrite Hsd, orb_true_r in S1. split; [assumption | lia]. }
  unfold bind at 1.
  destruct (and_not_stopped (truthy command) st1) as [r2 st2] eqn:E2.
  apply and_not_stopped_run in E2 as (-> & S2 & d2 & E2 & H2).
  destruct (truthy command && negb (stop_listening st1)) eqn:G1.
  { intros E3. apply process_command_run in E3 as (-> & d3 & E3 & H3).
    apply andb_true_iff in G1 as [_ G1]. apply negb_true_iff in G1.
    exists (d1 ++ d2 ++ d3)%list, 1. split; [link|].
    split; [lia|]. split.
    - rewrite !listen_timeouts_app, H1, H2, H3. eexists; reflexivity.
    - intros k Hk Hsd. assert (k = captures st) as -> by lia.
      rewrite Hsd, orb_true_r in S1. congruence. }
  unfold bind at 1.
  destruct (detect_wake_word w None st2) as [r3 st3] eqn:E3.
  apply detect_wake_word_run in E3 as (S3 & d3 & E3 & H3).
  assert (C2 : captures st2 = captures st + 1)
    by (destruct E1 as (_ & ? & _), E2 as (_ & ? & _); lia).
  rewrite C2, S2, S1 in S3.
  assert (late : forall k, captures st <= k < captures st + 2 ->
                           stop_during w k = true ->
                           stop_listening st3 = true).
  { intros k Hk Hsd.
    assert (k = captures st \/ k = captures st + 1) as [->| ->] by lia;
      rewrite S3, Hsd; auto using orb_true_r.
    now rewrite orb_true_r. }
  destruct H3 as [[[wake ->] H3] | [-> H3]].
  2:{ intros [= <- <-]. exists (d1 ++ d2 ++ d3)%list, 2.
      split; [link|]. split; [lia|]. split.
      - rewrite !listen_timeouts_app, H1, H2, H3. eexists; reflexivity.
      - intros k Hk Hsd. split; [eauto | lia]. }
  unfold bind at 1.
  destruct (and_not_stopped wake st3) as [r4 st4] eqn:E4.
  apply and_not_stopped_run in E4 as (-> & S4 & d4 & E4 & H4).
  destruct (wake && negb (stop_listening st3)) eqn:G2.
  2:{ run. intros [= <- <-]. exists (d1 ++ d2 ++ d3 ++ d4)%list, 2.
      split; [link|]. split; [lia|]. split.
      - rewrite !listen_timeouts_app, H1, H2, H3, H4.
        eexists; reflexivity.
      - intros k Hk Hsd. rewrite S4. split; [eauto | lia]. }
  apply andb_true_iff in G2 as [_ G2]. apply negb_true_iff in G2.
  assert (C4 : captures st4 = captures st + 2)
    by (destruct E3 as (_ & ? & _), E4 as (_ & ? & _); lia).
  rewrite !bind_modify, bind_emit.
  match goal with
  | |- context [bind _ _ ?s] => set (st4' := s)
  end.
  assert (E4' : evolves st4 st4' [EvListeningStarted] 0) by settle.
  assert (S4' : stop_listening st4' = stop_listening st4) by reflexivity.
  unfold bind at 1.
  destruct (on_wake_word_detected w st4') as [r5 st5] eqn:E5.
  apply on_wake_word_detected_run in E5 as (-> & S5 & d5 & E5 & H5 & _).
  unfold bind at 1.
  destruct (listen_for_command w (Some 5) st5) as [r6 st6] eqn:E6.
  apply listen_for_command_run in E6 as (S6 & d6 & E6 & H6).
  assert (C5 : captures st5 = captures st + 2)
    by (destruct E4' as (_ & ? & _), E5 as (_ & ? & _); lia).
  rewrite C5, S5, S4', S4, G2 in S6. cbn [orb] in S6.
  assert (final : forall k st'',
             (stop_listening st6 = true -> stop_listening st'' = true) ->
             captures st <= k < captures st + 3 ->
             stop_during w k = true ->
             stop_listening st'' = true /\ captures st + 3 <= k + 2).
  { intros k st'' Hmono Hk Hsd.
    assert (k < captures st + 2 \/ k = captures st + 2) as [Hlt| ->] by lia.
    - rewrite (late k) in G2 by (auto; lia). discriminate.
    - split; [|lia]. apply Hmono. now rewrite S6. }
  destruct H6 as [[[command' ->] H6] | [-> H6]].
  2:{ intros [= <- <-].
      exists (d1 ++ d2 ++ d3 ++ d4 ++ [EvListeningStarted] ++ d5 ++ d6)%list, 3.
      split; [link|]. split; [lia|]. split.
      - rewrite !listen_timeouts_app, H1, H2, H3, H4, H5, H6.
        eexists; reflexivity.
      - intros k Hk Hsd. now apply final. }
  unfold bind at 1.
  destruct (truthy command').
  - destruct (process_command w ListeningThread (text_of command') st6)
      as [r7 st7] eqn:E7.
    apply process_command_run in E7 as (-> & d7 & E7 & H7).
    rewrite !bind_modify. unfold emit, modify. intros [= <- <-].
    exists (d1 ++ d2 ++ d3 ++ d4 ++ [EvListeningStarted] ++ d5 ++ d6
            ++ d7 ++ [EvListeningStopped])%list, 3.
    split; [link|]. split; [lia|]. split.
    + rewrite !listen_timeouts_app, H1, H2, H3, H4, H5, H6, H7.
      eexists; reflexivity.
    + intros k Hk Hsd. apply final; auto.
      destruct E7 as (_ & _ & E7). exact E7.
  - cbn [ret]. rewrite !bind_modify. unfold emit, modify.
    intros [= <- <-].
    exists (d1 ++ d2 ++ d3 ++ d4 ++ [EvListeningStarted] ++ d5 ++ d6
            ++ [EvListeningStopped])%list, 3.
    split; [link|]. split; [lia|]. split.
    + rewrite !listen_timeouts_app, H1, H2, H3, H4, H5, H6.
      eexists; reflexivity.
    + intros k Hk Hsd. apply final; auto.
Qed.

Lemma guarded_iteration_run st r st' :
  guarded_iteration w st = (r, st') -> r = Ret tt /\ turn w st st'.
Proof.
  unfold guarded_iteration, try_except.
  destruct (iteration w st) as [[[]|e] st1] eqn:E; apply iteration_run in E.
  - intros [= <- <-]. now split.
  - run. intros [= <- <-]. split; [reflexivity|].
    destruct E as (d & n & E & Hn & [rest Hd] & Hk).
    exists (d ++ [EvSleep 1])%list, n. split; [link|].
    split; [assumption|]. split.
    + exists rest. rewrite listen_timeouts_app. cbn.
      now rewrite app_nil_r.
    + exact Hk.
Qed.

Lemma is_set_value st :
  is_set st =
  (Ret (stop_listening st), set_events (events st ++ [EvPollStop]) st).
Proof. reflexivity. Qed.

Lemma listen_continuously_stopped fuel st :
  stop_listening st = true ->
  listen_continuously w (S fuel) st =
  (Ret Exited, set_events (events st ++ [EvPollStop]) st).
Proof.
  intros H. cbn [listen_continuously]. unfold bind at 1.
  now rewrite is_set_value, H.
Qed.

Lemma listen_continuously_turn fuel st :
  stop_listening st = false ->
  exists st1,
    guarded_iteration w (set_events (events st ++ [EvPollStop]) st)
    = (Ret tt, st1) /\
    listen_continuously w (S fuel) st = listen_continuously w fuel st1.
Proof.
  intros H.
  destruct (guarded_iteration w (set_events (events st ++ [EvPollStop]) st))
    as [r st1] eqn:E.
  pose proof (guarded_iteration_run _ _ _ E) as [-> _].
  exists st1. split; [reflexivity|].
  cbn [listen_continuously]. unfold bind at 1.
  rewrite is_set_value, H. unfold bind at 1. now rewrite E.
Qed.

Lemma turn_timeouts d rest :
  (listen_timeouts d ++ rest)%list = [None; None; Some 5] ->
  Forall allowed_timeout (listen_timeouts d).
Proof.
  intros H.
  assert (F : Forall allowed_timeout [None; None; Some 5])
    by (repeat constructor; unfold allowed_timeout; auto).
  rewrite <- H in F. now apply Forall_app in F.
Qed.

(** Once [stop()] arrives during the use [k] of the microphone, the
    loop exits, after at most one further use. *)
Lemma stop_reaches_loop k fuel : forall st,
  captures st <= k -> stop_during w k = true ->
  k + 2 <= captures st + fuel ->
  exists st' d n,
    listen_continuously w fuel st = (Ret Exited, st') /\
    evolves st st' d n /\ captures st + n <= k + 2 /\
    stop_listening st' = true /\
    Forall allowed_timeout (listen_timeouts d).
Proof.
  induction fuel as [|fuel IH]; intros st Hc Hsd Hf; [lia|].
  destruct (stop_listening st) eqn:Hs.
  - rewrite (listen_continuously_stopped _ _ Hs).
    eexists; exists [EvPollStop], 0.
    split; [reflexivity|]. split; [settle|].
    split; [lia|]. split; [assumption | constructor].
  - destruct (listen_continuously_turn fuel st Hs) as (st1 & E & ->).
    apply guarded_iteration_run in E
      as (_ & d & n & E & Hn & [rest Hd] & Hk).
    cbn [captures set_events] in Hk.
    assert (C1 : captures st1 = captures st + n)
      by (destruct E as (_ & C & _); exact C).
    destruct (Nat.lt_ge_cases k (captures st + n)) as [Hlt|Hge].
    + destruct (Hk k (conj Hc Hlt) Hsd) as [Hs1 Hn2].
      destruct fuel as [|fuel]; [lia|].
      rewrite (listen_continuously_stopped _ _ Hs1).
      eexists; exists ([EvPollStop] ++ d ++ [EvPollStop])%list, n.
      split; [reflexivity|]. split; [link|].
      split; [assumption|]. split; [assumption|].
      cbn. rewrite listen_timeouts_app. cbn. rewrite app_nil_r.
      eapply turn_timeouts; eassumption.
    + destruct (IH st1) as (st' & d' & n' & -> & E' & Hc' & Hs' & Hd');
        [lia | assumption | lia |].
      exists st', ([EvPollStop] ++ d ++ d')%list, (n + n').
      split; [reflexivity|]. split; [link|].
      split; [lia|]. split; [assumption|].
      cbn. rewrite listen_timeouts_app. apply Forall_app. split.
      * eapply turn_timeouts; eassumption.
      * assumption.
Qed.


End Runs.

(* ================================================================== *)
(** * Routing *)
(* ================================================================== *)

Section Routing.

Lemma find_builtin_first table s pre key h post :
  table = (pre ++ (key, h) :: post)%list ->
  contains key s = true ->
  (forall k' h', In (k', h') pre -> contains k' s = false) ->
  find_builtin table s = Some (key, h).
Proof.
  intros -> Hkey. induction pre as [|[k0 h0] pre IH]; intros Hpre; cbn.
  - now rewrite Hkey.
  - rewrite (Hpre k0 h0) by now left.
    apply IH. intros k' h' Hin. apply (Hpre k' h'). now right.
Qed.

Lemma find_builtin_none table s :
  (forall key h, In (key, h) table -> contains key s = false) ->
  find_builtin table s = None.
Proof.
  induction table as [|[k0 h0] table IH]; intros H; cbn; [reflexivity|].
  rewrite (H k0 h0) by now left.
  apply IH. intros key h Hin. apply (H key h). now right.
Qed.

(** A table with a matching key has a first matching key. *)
Lemma first_match_exists (table : list (string * builtin_handler)) s :
  (exists key h, In (key, h) table /\ contains key s = true) ->
  exists pre key h post,
    table = (pre ++ (key, h) :: post)%list /\
    contains key s = true /\
    (forall k' h', In (k', h') pre -> contains k' s = false).
Proof.
  induction table as [|[k0 h0] table IH]; intros (key & h & Hin & Hc).
  - destruct Hin.
  - destruct (contains k0 s) eqn:H0.
    + exists (@nil (string * builtin_handler)), k0, h0, table.
      repeat split; auto. intros ? ? [].
    + destruct IH as (pre & key' & h' & post & -> & Hc' & Hpre).
      { exists key, h. split; [|assumption].
        destruct Hin as [[= <- <-]|Hin]; [congruence | assumption]. }
      exists ((k0, h0) :: pre), key', h', post. repeat split; auto.
      intros k' hh [[= <- <-]|Hin']; eauto.
Qed.

Lemma scan_first table s pre c ps post m :
  table = (pre ++ (c, ps) :: post)%list ->
  first_pattern ps s = Some m ->
  (forall c' ps', In (c', ps') pre -> first_pattern ps' s = None) ->
  scan table s = Some (c, m).
Proof.
  intros -> Hm. induction pre as [|[c0 ps0] pre IH]; intros Hpre; cbn.
  - now rewrite Hm.
  - rewrite (Hpre c0 ps0) by now left.
    apply IH. intros c' ps' Hin. apply (Hpre c' ps'). now right.
Qed.

Lemma route_builtin text key h :
  find_builtin builtin_commands (lower (_remove_wake_word text))
  = Some (key, h) ->
  route text = ToBuiltin key h (_remove_wake_word text).
Proof.
  unfold route. destruct text as [|c text]; [discriminate|].
  cbn [is_empty]. now intros ->.
Qed.

Lemma route_pattern text c m :
  is_empty text = false ->
  find_builtin builtin_commands (lower (_remove_wake_word text)) = None ->
  scan command_patterns (lower (_remove_wake_word text)) = Some (c, m) ->
  route text = ToHandler c (_remove_wake_word text) (Some m).
Proof.
  unfold route, _categorize_command. now intros -> -> ->.
Qed.

Variable w : world.

Lemma run_builtin_events me h text st :
  events (snd (run_builtin w me h text st)) = events st.
Proof.
  destruct (run_builtin w me h text st) as [r st'] eqn:E.
  apply run_builtin_run in E as (E & _). cbn. now rewrite E, app_nil_r.
Qed.

Lemma greeting_chosen me text st :
  exists g, In g greetings /\
            fst (run_builtin w me handle_hello text st) = Ret g.
Proof.
  cbn [run_builtin]. unfold get_random_greeting.
  cbv [choice bind get modify ret]. cbn [fst].
  eexists. split; [|reflexivity].
  apply nth_In. apply Nat.mod_upper_bound. discriminate.
Qed.

(** The first of the three greeting keys that occurs decides. *)
Lemma find_builtin_greeting s :
  contains "hello" s || contains "hi" s || contains "hey" s = true ->
  exists key, find_builtin builtin_commands s = Some (key, handle_hello).
Proof.
  intros H. unfold builtin_commands. cbn [find_builtin].
  destruct (contains "hello" s); [eauto|].
  destruct (contains "hi" s); [eauto|].
  destruct (contains "hey" s); [eauto|]. discriminate.
Qed.

Lemma remove_wake_word_miss text :
  startswith (lower text) "nova" = false -> _remove_wake_word text = text.
Proof.
  unfold _remove_wake_word. change (lower wake_word) with "nova".
  cbv zeta. now intros ->.
Qed.

Lemma remove_wake_word_hit text :
  startswith (lower text) "nova" = true ->
  _remove_wake_word text
  = strip (drop_while comma_or_space (drop 4 text)).
Proof.
  unfold _remove_wake_word. change (lower wake_word) with "nova".
  cbv zeta. now intros ->.
Qed.

Lemma contains_app_l key a b :
  contains key a = true -> contains key (a ++ b) = true.
Proof.
  assert (P : forall p x y, startswith x p = true ->
                            startswith (x ++ y) p = true).
  { induction p as [|c p IH]; intros x y H; [reflexivity|].
    destruct x as [|d x]; [discriminate|]. cbn in *.
    apply andb_true_iff in H as [-> H]. cbn. now apply IH. }
  induction a as [|c a IH]; intros H.
  - cbn in H. rewrite orb_false_r in H.
    destruct key; [|discriminate]. destruct b; reflexivity.
  - cbn [contains] in H. apply orb_true_iff in H as [H|H].
    + change (String c a ++ b) with (String c (a ++ b)).
      cbn [contains]. change (String c (a ++ b)) with (String c a ++ b).
      now rewrite (P _ _ _ H).
    + change (String c a ++ b) with (String c (a ++ b)).
      cbn [contains]. rewrite (IH H). apply orb_true_r.
Qed.

End Routing.

(* ================================================================== *)
(** * Properties of the wake detector and of the response formatter *)
(* ================================================================== *)

Section DetectorAndFormatter.

Lemma append_assoc (a b c : string) : (a ++ b) ++ c = a ++ b ++ c.
Proof. induction a as [|x a IH]; cbn; [reflexivity | now rewrite IH]. Qed.

Lemma strip_longest_lower text :
  strip_longest_wake_phrase (lower text) = strip_longest_wake_phrase text.
Proof. unfold strip_longest_wake_phrase. now rewrite lower_idem. Qed.

Lemma detect_wake_word_and_command_value w timeout st text :
  hears w (captures st) = Recognized text ->
  fst (detect_wake_word_and_command w timeout st)
  = Ret (strip_longest_wake_phrase text).
Proof.
  intros H.
  destruct (detect_wake_word_and_command w timeout st) as [r st'] eqn:E.
  apply detect_wake_word_and_command_run in E as (_ & E).
  rewrite H in E. cbn [fst]. rewrite E.
  now rewrite command_in_utterance_longest, strip_longest_lower.
Qed.


End DetectorAndFormatter.

(* ================================================================== *)
(** * Properties of the command router *)
(* ================================================================== *)

Section Router.

Lemma new_events_same st st' :
  events st' = events st -> new_events st st' = [].
Proof. intros H. unfold new_events. rewrite H. apply skipn_all. Qed.

Lemma process_builtin w me text st key h :
  route text = ToBuiltin key h (_remove_wake_word text) ->
  process w me text st = run_builtin w me h (_remove_wake_word text) st /\
  handler_calls (new_events st (snd (process w me text st))) = [].
Proof.
  intros H. rewrite process_route, H. split; [reflexivity|].
  now rewrite new_events_same by apply run_builtin_events.
Qed.

(** C3.  When the lower-cased command text (as it is after the
    stripping step) contains an entry of the builtin table, [process]
    runs the handler of the first entry, in the order of the table,
    that the text contains, and calls no category handler. *)
Theorem builtin_first_match_wins
    (w : world) (me : thread) (st : assistant) (text : string) :
  (exists key h, In (key, h) builtin_commands /\
                 contains key (lower (_remove_wake_word text)) = true) ->
  exists pre key h post,
    builtin_commands = (pre ++ (key, h) :: post)%list /\
    contains key (lower (_remove_wake_word text)) = true /\
    (forall k' h', In (k', h') pre ->
                   contains k' (lower (_remove_wake_word text)) = false) /\
    route text = ToBuiltin key h (_remove_wake_word text) /\
    process w me text st = run_builtin w me h (_remove_wake_word text) st /\
    handler_calls (new_events st (snd (process w me text st))) = [].
Proof.
  intros H.
  destruct (first_match_exists _ _ H) as (pre & key & h & post & T & Hc & Hp).
  exists pre, key, h, post.
  assert (R : route text = ToBuiltin key h (_remove_wake_word text))
    by (apply route_builtin; eapply find_builtin_first; eassumption).
  repeat (split; [assumption|]).
  now apply (process_builtin w me text st key h).
Qed.

Lemma builtin_first_match_wins_witness :
  (exists key h, In (key, h) builtin_commands /\
     contains key (lower (_remove_wake_word "nova, what time is it")) = true)
  /\
  exists pre key h post,
    builtin_commands = (pre ++ (key, h) :: post)%list /\
    contains key (lower (_remove_wake_word "nova, what time is it")) = true /\
    (forall k' h', In (k', h') pre ->
       contains k' (lower (_remove_wake_word "nova, what time is it"))
       = false) /\
    route "nova, what time is it"
    = ToBuiltin key h (_remove_wake_word "nova, what time is it") /\
    process (scripted [] [] (Ret "ok")) OtherThread
      "nova, what time is it" new_assistant
    = run_builtin (scripted [] [] (Ret "ok")) OtherThread h
        (_remove_wake_word "nova, what time is it") new_assistant /\
    handler_calls
      (new_events new_assistant
         (snd (process (scripted [] [] (Ret "ok")) OtherThread
                 "nova, what time is it" new_assistant))) = [].
Proof.
  assert (H : exists key h, In (key, h) builtin_commands /\
     contains key (lower (_remove_wake_word "nova, what time is it")) = true).
  { exists "time", handle_time. split; [simpl; tauto | reflexivity]. }
  split; [exact H|].
  exact (builtin_first_match_wins (scripted [] [] (Ret "ok")) OtherThread
           new_assistant "nova, what time is it" H).
Defined.

(** C2.  When the text contains no builtin key, [process] calls the
    handler of the first category, in the order application, system,
    network, utility, one of whose patterns is found in the text, and
    passes it the match with its captured groups; a text in which both
    an application pattern and a utility pattern are found goes to the
    application handler. *)
Theorem pattern_table_scanned_in_order
    (w : world) (me : thread) (st : assistant) (text : string) :
  is_empty text = false ->
  (forall key h, In (key, h) builtin_commands ->
                 contains key (lower (_remove_wake_word text)) = false) ->
  map fst command_patterns = [app; system; network; utility] /\
  (forall pre c ps post m,
      command_patterns = (pre ++ (c, ps) :: post)%list ->
      first_pattern ps (lower (_remove_wake_word text)) = Some m ->
      (forall c' ps', In (c', ps') pre ->
         first_pattern ps' (lower (_remove_wake_word text)) = None) ->
      route text = ToHandler c (_remove_wake_word text) (Some m) /\
      process w me text st
      = call_handler w c (_remove_wake_word text) (Some m) st /\
      fst (process w me text st)
      = handler w c (_remove_wake_word text) (Some m)) /\
  (forall apps utils m_app m_util,
      In (app, apps) command_patterns ->
      In (utility, utils) command_patterns ->
      first_pattern apps (lower (_remove_wake_word text)) = Some m_app ->
      first_pattern utils (lower (_remove_wake_word text)) = Some m_util ->
      route text = ToHandler app (_remove_wake_word text) (Some m_app) /\
      handler_calls (new_events st (snd (process w me text st))) = [app]).
Proof.
  intros Hne Hnone.
  pose proof (find_builtin_none _ _ Hnone) as Hb.
  split; [reflexivity|]. split.
  - intros pre c ps post m T Hm Hpre.
    assert (R : route text = ToHandler c (_remove_wake_word text) (Some m))
      by (apply route_pattern; auto; eapply scan_first; eassumption).
    split; [assumption|]. rewrite process_route, R.
    split; [reflexivity|].
    destruct (call_handler w c (_remove_wake_word text) (Some m) st)
      as [r st'] eqn:E.
    now apply call_handler_run in E as (-> & _).
  - intros apps utils m_app m_util Ha _ Hm _.
    assert (R : route text
                = ToHandler app (_remove_wake_word text) (Some m_app)).
    { apply route_pattern; auto.
      apply (scan_first command_patterns _ [] app apps
               (tl command_patterns) m_app); [|assumption|intros ? ? []].
      unfold command_patterns in Ha. cbn [In] in Ha.
      destruct Ha as [Ha|[[=]|[[=]|[[=]|[]]]]].
      injection Ha as Ha. now rewrite <- Ha. }
    split; [assumption|]. rewrite process_route, R.
    destruct (call_handler w app (_remove_wake_word text) (Some m_app) st)
      as [r st'] eqn:E.
    apply call_handler_run in E as (_ & _ & E).
    cbn [snd]. now rewrite (new_events_evolves _ _ _ _ E).
Qed.

Lemma no_builtin_key_in_open_task_manager key h :
  In (key, h) builtin_commands ->
  contains key (lower (_remove_wake_word "open task manager")) = false.
Proof.
  cbn [builtin_commands In]. intros H.
  repeat (destruct H as [[= <- <-]|H]; [reflexivity|]). destruct H.
Qed.

Lemma pattern_table_scanned_in_order_witness :
  route "open task manager"
  = ToHandler app "open task manager" (Some task_manager_match) /\
  groupdict task_manager_match = [("app_name", "task manager")] /\
  handler_calls
    (new_events new_assistant
       (snd (process (scripted [] [] (Ret "Opening task manager."))
               OtherThread "open task manager" new_assistant))) = [app].
Proof.
  destruct (pattern_table_scanned_in_order
              (scripted [] [] (Ret "Opening task manager.")) OtherThread
              new_assistant "open task manager" eq_refl
              no_builtin_key_in_open_task_manager)
    as (_ & _ & H).
  destruct (H (snd (nth 0 command_patterns (app, [])))
              (snd (nth 3 command_patterns (app, [])))
              task_manager_match
              (mkMatch "open task manager" 0 17 [mkCapture 1 None 5 17]))
    as (R & C);
    [ simpl; tauto | simpl; tauto | reflexivity | reflexivity | ].
  split; [exact R|]. split; [reflexivity | exact C].
Defined.

(** C4.  The text ["nova"] is empty after the stripping step, and
    [process] does not answer it with the clarification: it goes
    through the builtin table, the patterns and the keywords and ends in
    the last fallback, whose message quotes the empty text. *)
Theorem wake_word_alone_not_clarified
    (w : world) (me : thread) (st : assistant) :
  _remove_wake_word "nova" = EmptyString /\
  route "nova" = ToNotSure EmptyString /\
  process w me "nova" st
  = (Ret "I'm not sure how to handle ''. Try asking for help to see what I can do.",
     st) /\
  process w me EmptyString st = (Ret clarification, st) /\
  not_sure EmptyString <> clarification.
Proof.
  split; [reflexivity|]. split; [reflexivity|].
  split; [now rewrite process_route|].
  split; [reflexivity | discriminate].
Qed.

Lemma length_remove_wake_word text :
  startswith (lower text) "nova" = true ->
  String.length (_remove_wake_word text) < String.length text.
Proof.
  intros H. rewrite (remove_wake_word_hit _ H).
  apply startswith_length in H. rewrite length_lower in H. cbn in H.
  pose proof (length_strip (drop_while comma_or_space (drop 4 text))).
  pose proof (length_drop_while comma_or_space (drop 4 text)).
  pose proof (length_drop 4 text). lia.
Qed.

(** C7 (as amended).  The stripping step returns a text that does not
    start with the wake word unchanged, whatever punctuation it ends
    with; from a text that starts with the wake word, in any letter
    case, it removes that word and the commas and white space after it
    and trims the white space at both ends of what is left.  Stripping
    twice gives the same as stripping once exactly when the text
    stripped once does not start with the wake word again. *)
Theorem remove_wake_word_strips_once (text : string) :
  (startswith (lower text) "nova" = false ->
   _remove_wake_word text = text) /\
  (startswith (lower text) "nova" = true ->
   _remove_wake_word text
   = strip (drop_while comma_or_space (drop 4 text))) /\
  (_remove_wake_word (_remove_wake_word text) = _remove_wake_word text
   <-> startswith (lower (_remove_wake_word text)) "nova" = false).
Proof.
  split; [apply remove_wake_word_miss|].
  split; [apply remove_wake_word_hit|]. split.
  - intros H.
    destruct (startswith (lower (_remove_wake_word text)) "nova") eqn:E;
      [|reflexivity].
    apply length_remove_wake_word in E. rewrite H in E. lia.
  - apply remove_wake_word_miss.
Qed.

Lemma remove_wake_word_strips_once_witness :
  _remove_wake_word "Nova, open chrome." = "open chrome." /\
  _remove_wake_word (_remove_wake_word "Nova, open chrome.")
  = _remove_wake_word "Nova, open chrome.".
Proof.
  destruct (remove_wake_word_strips_once "Nova, open chrome.")
    as (_ & H & I).
  split.
  - rewrite H; reflexivity.
  - apply I. reflexivity.
Defined.

(** C7, counterexample.  Stripping is not idempotent: a text that
    repeats the wake word loses one more at the second pass; and
    trailing punctuation and commas are kept. *)
Lemma remove_wake_word_not_idempotent :
  _remove_wake_word "nova nova open chrome" = "nova open chrome" /\
  _remove_wake_word (_remove_wake_word "nova nova open chrome")
  <> _remove_wake_word "nova nova open chrome" /\
  _remove_wake_word "nova open chrome,." = "open chrome,.".
Proof. split; [reflexivity|]. split; [discriminate | reflexivity]. Qed.

End Router.

Section BuiltinBeforeRouting.

Lemma not_a_greeting (s : string) :
  ~ In ("The current time is " ++ s) greetings.
Proof.
  cbn. intros H.
  repeat (destruct H as [H|H]; [discriminate H|]). exact H.
Qed.

Lemma greeting_response w me st text :
  contains "hello" (lower (_remove_wake_word text))
  || contains "hi" (lower (_remove_wake_word text))
  || contains "hey" (lower (_remove_wake_word text)) = true ->
  exists key g,
    route text = ToBuiltin key handle_hello (_remove_wake_word text) /\
    In g greetings /\ fst (process w me text st) = Ret g /\
    handler_calls (new_events st (snd (process w me text st))) = [].
Proof.
  intros H. destruct (find_builtin_greeting _ H) as [key Hk].
  pose proof (route_builtin _ _ _ Hk) as R.
  destruct (process_builtin w me text st key handle_hello R) as (P & C).
  destruct (greeting_chosen w me (_remove_wake_word text) st)
    as (g & Hg & Hr).
  exists key, g. split; [exact R|]. split; [exact Hg|].
  split; [now rewrite P | exact C].
Qed.

Lemma alternate_phrase_kept W C :
  In W alternative_wake_words ->
  _remove_wake_word (W ++ C) = W ++ C /\
  contains "hello" (lower (W ++ C)) || contains "hi" (lower (W ++ C))
  || contains "hey" (lower (W ++ C)) = true.
Proof.
  intros HW. cbn [alternative_wake_words In] in HW.
  destruct HW as [<-|[<-|[<-|[<-|[<-|[]]]]]];
    (split; [apply remove_wake_word_miss; reflexivity|]);
    rewrite lower_app;
    match goal with
    | |- context [lower ?W ++ _] =>
        let W' := eval vm_compute in (lower W) in
        change (lower W) with W'
    end.
  - rewrite (contains_app_l "hey" "hey nova") by reflexivity.
    now rewrite orb_true_r.
  - rewrite (contains_app_l "hi" "hi nova") by reflexivity.
    now rewrite orb_true_r.
  - now rewrite (contains_app_l "hello" "hello nova") by reflexivity.
  - rewrite (contains_app_l "hey" "hey nowa") by reflexivity.
    now rewrite orb_true_r.
  - rewrite (contains_app_l "hi" "hi nowa") by reflexivity.
    now rewrite orb_true_r.
Qed.

(** C10 (as amended).  Builtin keys are looked for as substrings of the
    lower-cased text, before any category routing, and the stripping
    step removes the wake word ["nova"] only, so a text that starts
    with an alternate phrase keeps it.  Hence a text that contains a
    builtin key, be it inside another word, gets the response of the
    first such key of the table and no category handler is called; that
    response is a greeting when the text contains ["hello"], ["hi"] or
    ["hey"], as every text that starts with an alternate phrase does. *)
Theorem builtin_substring_shadows_routing
    (w : world) (me : thread) (st : assistant) (text : string) :
  ((exists key h, In (key, h) builtin_commands /\
                  contains key (lower (_remove_wake_word text)) = true) ->
   exists key h,
     In (key, h) builtin_commands /\
     route text = ToBuiltin key h (_remove_wake_word text) /\
     handler_calls (new_events st (snd (process w me text st))) = []) /\
  (contains "hello" (lower (_remove_wake_word text))
   || contains "hi" (lower (_remove_wake_word text))
   || contains "hey" (lower (_remove_wake_word text)) = true ->
   exists key g,
     route text = ToBuiltin key handle_hello (_remove_wake_word text) /\
     In g greetings /\ fst (process w me text st) = Ret g /\
     handler_calls (new_events st (snd (process w me text st))) = []) /\
  (_remove_wake_word text <> text ->
   startswith (lower text) "nova" = true) /\
  (forall W C,
      In W alternative_wake_words -> text = W ++ C ->
      _remove_wake_word text = text /\
      exists key g,
        route text = ToBuiltin key handle_hello text /\
        In g greetings /\ fst (process w me text st) = Ret g /\
        handler_calls (new_events st (snd (process w me text st))) = []).
Proof.
  split; [|split; [|split]].
  - intros H.
    destruct (first_match_exists _ _ H)
      as (pre & key & h & post & T & Hc & Hp).
    exists key, h.
    assert (R : route text = ToBuiltin key h (_remove_wake_word text))
      by (apply route_builtin; eapply find_builtin_first; eassumption).
    split; [rewrite T; apply in_elt|]. split; [assumption|].
    now apply (process_builtin w me text st key h).
  - apply greeting_response.
  - intros H. destruct (startswith (lower text) "nova") eqn:E;
      [reflexivity|]. now apply remove_wake_word_miss in E.
  - intros W C HW ->.
    destruct (alternate_phrase_kept W C HW) as (K & G).
    split; [assumption|].
    rewrite <- K in G. destruct (greeting_response w me st _ G)
      as (key & g & R & F). rewrite K in R. eauto.
Qed.

Lemma builtin_substring_shadows_routing_witness :
  (exists key g,
      route "shutdown this computer"
      = ToBuiltin key handle_hello "shutdown this computer" /\
      In g greetings /\
      fst (process (scripted [] [] (Ret "ok")) OtherThread
             "shutdown this computer" new_assistant) = Ret g /\
      handler_calls
        (new_events new_assistant
           (snd (process (scripted [] [] (Ret "ok")) OtherThread
                   "shutdown this computer" new_assistant))) = []) /\
  (_remove_wake_word "hey nova open chrome" = "hey nova open chrome" /\
   exists key g,
      route "hey nova open chrome"
      = ToBuiltin key handle_hello "hey nova open chrome" /\
      In g greetings /\
      fst (process (scripted [] [] (Ret "ok")) OtherThread
             "hey nova open chrome" new_assistant) = Ret g /\
      handler_calls
        (new_events new_assistant
           (snd (process (scripted [] [] (Ret "ok")) OtherThread
                   "hey nova open chrome" new_assistant))) = []).
Proof.
  split.
  - apply (proj1 (proj2 (builtin_substring_shadows_routing
                           (scripted [] [] (Ret "ok")) OtherThread
                           new_assistant "shutdown this computer"))).
    reflexivity.
  - apply (proj2 (proj2 (proj2 (builtin_substring_shadows_routing
                           (scripted [] [] (Ret "ok")) OtherThread
                           new_assistant "hey nova open chrome")))
             "hey nova" " open chrome");
      [simpl; tauto | reflexivity].
Defined.

(** C10, counterexample.  ["lock computer sometime"] contains the
    builtin key ["time"] inside another word and would match a system
    pattern, yet what [process] returns is the time, which is not a
    greeting. *)
Lemma builtin_key_in_word_not_always_greeting :
  In ("time", handle_time) builtin_commands /\
  contains "time" (lower (_remove_wake_word "lock computer sometime"))
  = true /\
  option_map fst (_categorize_command "lock computer sometime")
  = Some system /\
  fst (process (scripted [] [] (Ret "ok")) OtherThread
         "lock computer sometime" new_assistant)
  = Ret "The current time is 10:00 AM." /\
  ~ In "The current time is 10:00 AM." greetings.
Proof.
  split; [simpl; tauto|]. split; [reflexivity|]. split; [reflexivity|].
  split; [reflexivity|]. apply (not_a_greeting "10:00 AM.").
Qed.

End BuiltinBeforeRouting.

(* ================================================================== *)
(** * Properties of the listening loop *)
(* ================================================================== *)

Section ListeningLoop.

(** C5 (as amended).  The loop reads the stop flag at the top of each
    turn, before the first capture of the turn, and exits there when
    the flag is set, without a capture.  The captures of one turn are
    made, in order, with no timeout, no timeout and a timeout of five
    seconds.  When [stop()] arrives during a use [k] of the microphone,
    the loop exits with the flag set after at most one further use, and
    every capture it made had no timeout or the five-second one. *)
Theorem stop_seen_at_top_of_loop
    (w : world) (fuel : nat) (st : assistant) (k : nat) :
  captures st <= k -> stop_during w k = true ->
  k + 2 <= captures st + fuel ->
  (exists st',
      listen_continuously w fuel st = (Ret Exited, st') /\
      stop_listening st' = true /\ captures st' <= k + 2 /\
      Forall allowed_timeout (listen_timeouts (new_events st st'))) /\
  (forall st0 fuel0,
      stop_listening st0 = true ->
      listen_continuously w (S fuel0) st0
      = (Ret Exited, set_events (events st0 ++ [EvPollStop]) st0)) /\
  (forall st0 r st1,
      guarded_iteration w st0 = (r, st1) ->
      exists rest,
        (listen_timeouts (new_events st0 st1) ++ rest)%list
        = [None; None; Some 5]).
Proof.
  intros Hc Hsd Hf. split; [|split].
  - destruct (stop_reaches_loop w k fuel st Hc Hsd Hf)
      as (st' & d & n & E & Ev & Hn & Hs & Hd).
    exists st'. split; [assumption|]. split; [assumption|].
    rewrite (new_events_evolves _ _ _ _ Ev).
    destruct Ev as (_ & C & _). split; [lia | assumption].
  - intros st0 fuel0. apply listen_continuously_stopped.
  - intros st0 r st1 E.
    apply guarded_iteration_run in E as (_ & d & n & Ev & _ & H & _).
    now rewrite (new_events_evolves _ _ _ _ Ev).
Qed.

Lemma stop_seen_at_top_of_loop_witness :
  exists st',
    listen_continuously
      (scripted [Recognized "nova open chrome"] [true] (Ret "ok"))
      2 new_assistant = (Ret Exited, st') /\
    stop_listening st' = true /\ captures st' <= 0 + 2 /\
    Forall allowed_timeout (listen_timeouts (new_events new_assistant st')).
Proof.
  apply (stop_seen_at_top_of_loop
           (scripted [Recognized "nova open chrome"] [true] (Ret "ok"))
           2 new_assistant 0); [simpl; lia | reflexivity | simpl; lia].
Defined.

(** C5, counterexample.  [stop()] arrives during the first capture, the
    flag is then read as set, and the loop still makes a second capture;
    neither capture has a timeout. *)
Lemma capture_without_timeout_after_stop :
  stop_during (scripted [Recognized "nova open chrome"] [true] (Ret "ok")) 0
  = true /\
  new_events new_assistant
    (snd (listen_continuously
            (scripted [Recognized "nova open chrome"] [true] (Ret "ok"))
            2 new_assistant))
  = [EvPollStop; EvListen None; EvPollStop; EvListen None; EvPollStop] /\
  ~ Forall (fun t => t <> None)
      (listen_timeouts
         (new_events new_assistant
            (snd (listen_continuously
                    (scripted [Recognized "nova open chrome"] [true]
                       (Ret "ok"))
                    2 new_assistant)))).
Proof.
  split; [reflexivity|]. split; [reflexivity|].
  intros H. inversion H as [|t l Ht _]. now apply Ht.
Qed.

(** C6.  In a turn in which the wake word alone is heard, the wake
    acknowledgment is made three times before the capture of the
    command, and twice when the first capture of the turn hears
    nothing. *)
Theorem wake_acknowledged_more_than_once :
  option_map wake_acks
    (before_command_capture
       (new_events new_assistant
          (snd (iteration
                  (scripted [Recognized "nova"; Recognized "nova";
                             Recognized "open chrome"] []
                     (Ret "Opening chrome."))
                  new_assistant)))) = Some 3 /\
  option_map wake_acks
    (before_command_capture
       (new_events new_assistant
          (snd (iteration
                  (scripted [WaitTimeout; Recognized "nova";
                             Recognized "open chrome"] []
                     (Ret "Opening chrome."))
                  new_assistant)))) = Some 2.
Proof. split; reflexivity. Qed.



End ListeningLoop.

(* ================================================================== *)
(** * More on the response generator *)
(* ================================================================== *)

Section Durations.

Local Open Scope Z_scope.

Lemma duration_minutes (h m r : Z) :
  0 <= m < 60 -> 0 <= r < 60 ->
  (3600 * h + 60 * m + r) / 60 = 60 * h + m.
Proof.
  intros Hm Hr. symmetry. apply (Z.div_unique _ 60 _ r); lia.
Qed.

Lemma duration_hours (h m : Z) :
  0 <= m < 60 -> (60 * h + m) / 60 = h /\ (60 * h + m) mod 60 = m.
Proof.
  intros Hm. split.
  - symmetry. apply (Z.div_unique _ 60 _ m); lia.
  - symmetry. apply (Z.mod_unique _ 60 h m); lia.
Qed.

(** X1.  [format_time_duration] by hours, minutes and seconds: only the
    largest unit is named below an hour, hours come with the minutes
    left over when there are some, the seconds are then left out, and
    each unit is in the singular exactly for the amount 1.  A negative
    amount is given in seconds. *)
Theorem format_time_duration_units (h m r : Z) :
  0 <= h -> 0 <= m < 60 -> 0 <= r < 60 ->
  format_time_duration (3600 * h + 60 * m + r) =
  (if (h =? 0)%Z then
     if (m =? 0)%Z then str_int r ++ " second" ++ plural r
     else str_int m ++ " minute" ++ plural m
   else
     if (m =? 0)%Z then str_int h ++ " hour" ++ plural h
     else str_int h ++ " hour" ++ plural h ++ " and "
          ++ str_int m ++ " minute" ++ plural m)%string
  /\ (forall n, n < 0 ->
        format_time_duration n = (str_int n ++ " seconds")%string).
Proof.
  intros Hh Hm Hr. split.
  - unfold format_time_duration.
    rewrite (duration_minutes h m r Hm Hr).
    destruct (duration_hours h m Hm) as [Dh Dm]. rewrite Dh, Dm.
    destruct (Z.eqb_spec h 0) as [->|Hh0].
    + destruct (Z.eqb_spec m 0) as [->|Hm0].
      * replace (3600 * 0 + 60 * 0 + r) with r by lia.
        destruct (Z.ltb_spec r 60); [reflexivity | lia].
      * destruct (Z.ltb_spec (3600 * 0 + 60 * m + r) 60); [lia|].
        destruct (Z.ltb_spec (60 * 0 + m) 60); [|lia].
        now replace (60 * 0 + m) with m by lia.
    + destruct (Z.ltb_spec (3600 * h + 60 * m + r) 60); [lia|].
      destruct (Z.ltb_spec (60 * h + m) 60); [lia|]. reflexivity.
  - intros n Hn. unfold format_time_duration, plural.
    destruct (Z.ltb_spec n 60); [|lia].
    destruct (Z.eqb_spec n 1); [lia | reflexivity].
Qed.

Lemma format_time_duration_units_witness :
  format_time_duration (3600 * 1 + 60 * 1 + 59) = "1 hour and 1 minute"%string.
Proof.
  destruct (format_time_duration_units 1 1 59) as [H _]; [lia | lia | lia |].
  rewrite H. reflexivity.
Defined.

(** X2.  From one minute on, [format_time_duration] depends on the whole
    minutes only: the seconds beyond them are dropped, not rounded. *)
Theorem format_time_duration_drops_seconds (seconds : Z) :
  60 <= seconds ->
  format_time_duration seconds = format_time_duration (60 * (seconds / 60)).
Proof.
  intros H. unfold format_time_duration.
  assert (M : 1 <= seconds / 60)
    by (apply Z.div_le_lower_bound; lia).
  destruct (Z.ltb_spec seconds 60); [lia|].
  destruct (Z.ltb_spec (60 * (seconds / 60)) 60); [lia|].
  replace (60 * (seconds / 60) / 60) with (seconds / 60); [reflexivity|].
  symmetry. rewrite Z.mul_comm. apply Z.div_mul. lia.
Qed.

Lemma format_time_duration_drops_seconds_witness :
  format_time_duration 119 = "1 minute"%string.
Proof.
  rewrite (format_time_duration_drops_seconds 119); [reflexivity | lia].
Defined.

End Durations.

Section Phrasing.

Variable w : world.

Lemma choice_among_five (l : list string) st :
  length l = 5 ->
  exists i, i < 5 /\
    choice w l st = (Ret (nth i l EmptyString), set_draws (S (draws st)) st).
Proof.
  intros L. exists (pick w (draws st) mod 5). split.
  - apply Nat.mod_upper_bound. discriminate.
  - unfold choice. cbv [bind get modify ret]. now rewrite L.
Qed.

Lemma append_empty_r (s : string) : s ++ "" = s.
Proof. induction s as [|c s IH]; cbn; [reflexivity | now rewrite IH]. Qed.

Ltac five_cases i Hi :=
  destruct i as [|[|[|[|[|i]]]]]; [| | | | |exfalso; lia].

(** X3.  [generate_success_response] and [generate_clarification_response]
    never fail: they use one random draw, leave the rest of the state
    alone, and return one of five sentences that carry the action text
    unchanged, the clarification always ending in the action and a
    question mark. *)
Theorem success_and_clarification_sentences
    (action : string) (st : assistant) :
  (exists r,
      generate_success_response w action st
      = (Ret (Some r), set_draws (S (draws st)) st) /\
      In r [ "Done! " ++ action ++ ".";
             "I've " ++ action ++ " for you.";
             "Task complete. " ++ action ++ ".";
             "That's done. " ++ action ++ ".";
             "All set. " ++ action ++ "." ]) /\
  (exists r,
      generate_clarification_response w action st
      = (Ret (Some r), set_draws (S (draws st)) st) /\
      In r [ "I'm not sure I understood. Did you want to " ++ action ++ "?";
             "Could you clarify if you want me to " ++ action ++ "?";
             "I didn't quite catch that. Do you want me to " ++ action ++ "?";
             "I need more information. Are you asking me to " ++ action ++ "?";
             "To confirm, would you like me to " ++ action ++ "?" ] /\
      exists before, r = before ++ action ++ "?").
Proof.
  split.
  - unfold generate_success_response, bind.
    destruct (choice_among_five success_templates st eq_refl)
      as (i & Hi & ->).
    five_cases i Hi; (eexists; split; [reflexivity|]); cbn; tauto.
  - unfold generate_clarification_response, bind.
    destruct (choice_among_five clarification_templates st eq_refl)
      as (i & Hi & ->).
    five_cases i Hi; (eexists; split; [reflexivity|]);
      (split; [cbn; tauto|]).
    + now exists "I'm not sure I understood. Did you want to ".
    + now exists "Could you clarify if you want me to ".
    + now exists "I didn't quite catch that. Do you want me to ".
    + now exists "I need more information. Are you asking me to ".
    + now exists "To confirm, would you like me to ".
Qed.

(** X4.  [generate_error_response] never fails and returns one of five
    sentences, each ending in the reason given; the last two do not
    mention the action. *)
Theorem error_sentence_ends_with_reason
    (action reason : string) (st : assistant) :
  exists r,
    generate_error_response w action reason st
    = (Ret (Some r), set_draws (S (draws st)) st) /\
    In r [ "I'm sorry, I couldn't " ++ action ++ ". " ++ reason;
           "I encountered an issue while trying to " ++ action ++ ". "
             ++ reason;
           "I wasn't able to " ++ action ++ ". " ++ reason;
           "There was a problem: " ++ reason;
           "I couldn't complete that task. " ++ reason ] /\
    exists before, r = before ++ reason.
Proof.
  unfold generate_error_response, bind.
  destruct (choice_among_five error_templates st eq_refl)
    as (i & Hi & ->).
  five_cases i Hi;
    (eexists; split;
     [cbn [nth error_templates]; unfold format; cbn;
      rewrite append_empty_r; reflexivity|]);
    (split; [cbn; tauto|]).
  - exists ("I'm sorry, I couldn't " ++ action ++ ". ").
    cbn. now rewrite !append_assoc.
  - exists ("I encountered an issue while trying to " ++ action ++ ". ").
    cbn. now rewrite !append_assoc.
  - exists ("I wasn't able to " ++ action ++ ". ").
    cbn. now rewrite !append_assoc.
  - now exists "There was a problem: ".
  - now exists "I couldn't complete that task. ".
Qed.

(** [format] on a template that names an argument it is not given
    fails, as does a template with a brace left alone. *)
Lemma format_missing_name :
  format "I couldn't {action}. {reason}" [("action", "open it")] = None /\
  format "50% {done" [("done", "x")] = None /\
  format "a } b" [] = None /\
  format "{{literal}}" [] = Some "{literal}".
Proof. repeat split. Qed.

End Phrasing.

(* ================================================================== *)
(** * More on the voice recognizer *)
(* ================================================================== *)

Section StripFacts.

Lemma isspace_lower_char (c : ascii) : isspace (lower_char c) = isspace c.
Proof. destruct c as [[] [] [] [] [] [] [] []]; reflexivity. Qed.

Lemma lstrip_no_leading_space s : no_leading_space (lstrip s).
Proof.
  unfold lstrip. induction s as [|c s IH]; cbn; [exact I|].
  destruct (isspace c) eqn:E; [exact IH | exact E].
Qed.

Lemma lstrip_fixed s : no_leading_space s -> lstrip s = s.
Proof. destruct s as [|c s]; cbn; [reflexivity | now intros ->]. Qed.

Lemma rstrip_no_leading_space s :
  no_leading_space s -> no_leading_space (rstrip s).
Proof.
  destruct s as [|c s]; cbn; [exact id|]. intros E.
  rewrite E, andb_false_r. exact E.
Qed.

Lemma rstrip_idem s : rstrip (rstrip s) = rstrip s.
Proof.
  induction s as [|c s IH]; [reflexivity|]. cbn.
  destruct (is_empty (rstrip s) && isspace c) eqn:E; [reflexivity|].
  cbn. now rewrite IH, E.
Qed.

Lemma strip_idem s : strip (strip s) = strip s.
Proof.
  unfold strip.
  rewrite (lstrip_fixed (rstrip (lstrip s))).
  - apply rstrip_idem.
  - apply rstrip_no_leading_space, lstrip_no_leading_space.
Qed.

Lemma lower_drop n s : lower (drop n s) = drop n (lower s).
Proof.
  revert s. induction n as [|n IH]; intros [|c s]; cbn; auto.
Qed.

Lemma lower_strip s : lower (strip s) = strip (lower s).
Proof.
  unfold strip, lstrip.
  assert (L : forall t, lower (drop_while isspace t)
                        = drop_while isspace (lower t)).
  { induction t as [|c t IH]; cbn; [reflexivity|].
    rewrite isspace_lower_char. destruct (isspace c); [exact IH|reflexivity]. }
  assert (R : forall t, lower (rstrip t) = rstrip (lower t)).
  { induction t as [|c t IH]; cbn; [reflexivity|].
    rewrite isspace_lower_char, <- IH.
    replace (is_empty (lower (rstrip t))) with (is_empty (rstrip t))
      by (destruct (rstrip t); reflexivity).
    destruct (is_empty (rstrip t) && isspace c); reflexivity. }
  now rewrite R, L.
Qed.

Lemma startswith_contains s p : startswith s p = true -> contains p s = true.
Proof. intros H. destruct s; cbn; now rewrite H. Qed.

Lemma contains_tail c s p : contains p s = true -> contains p (String c s) = true.
Proof. intros H. cbn [contains]. rewrite H. apply orb_true_r. Qed.

Lemma contains_drop n s p : contains p (drop n s) = true -> contains p s = true.
Proof.
  revert s. induction n as [|n IH]; intros s H; [exact H|].
  destruct s as [|c s]; [exact H|]. apply contains_tail, IH, H.
Qed.

Lemma startswith_app_split s p q :
  startswith s (p ++ q) = true ->
  startswith s p = true /\ startswith (drop (String.length p) s) q = true.
Proof.
  revert s. induction p as [|a p IH]; intros s H; [now split|].
  destruct s as [|b s]; [discriminate|]. cbn in H.
  apply andb_true_iff in H as [E H]. apply IH in H as [H1 H2].
  cbn. now rewrite E, H1.
Qed.

(** A text that contains [p ++ q] contains [q]. *)
Lemma contains_right_part s p q :
  contains (p ++ q) s = true -> contains q s = true.
Proof.
  induction s as [|c s IH]; cbn [contains]; intros H.
  - rewrite orb_false_r in H. apply startswith_app_split in H as [_ H].
    destruct p; cbn in H; now rewrite H.
  - apply orb_true_iff in H as [H|H].
    + apply startswith_app_split in H as [_ H].
      apply startswith_contains in H.
      now apply (contains_drop (String.length p) (String c s)).
    + fold (contains q (String c s)). now apply contains_tail, IH.
Qed.

End StripFacts.

Section RecognizerRuns.

Variable w : world.

Ltac run :=
  cbv [bind ret raise get modify emit try_except try_finally is_set
       set_is_listening set_is_processing set_is_speaking
       set_wake_word_detected set_stop_listening set_command_queue
       set_consecutive_errors set_captures set_draws set_events];
  cbn [fst snd is_listening is_processing is_speaking wake_word_detected
       stop_listening thread_alive command_queue consecutive_errors
       captures draws events].

Ltac news :=
  unfold new_events;
  cbn [fst snd events];
  rewrite <- ?app_assoc, ?skipn_app, ?skipn_all, ?Nat.sub_diag;
  cbn [skipn List.app].

Lemma any_alternate_in (s : string) :
  contains "nova" s || any_in alternative_wake_words s = wake_word_in s.
Proof.
  unfold wake_word_in, any_in, alternative_wake_words. cbn [existsb].
  destruct (contains "nova" s) eqn:N; [reflexivity|]. cbn [orb].
  assert (F : forall p, contains (p ++ "nova") s = false).
  { intros p. destruct (contains (p ++ "nova") s) eqn:E; [|reflexivity].
    apply contains_right_part in E. congruence. }
  rewrite (F "hey " : contains "hey nova" s = false),
    (F "hi " : contains "hi nova" s = false),
    (F "hello " : contains "hello nova" s = false). cbn [orb].
  now rewrite orb_false_r.
Qed.

(** X5.  [detect_wake_word] answers whether the wake word [nova] occurs
    anywhere in the lower-cased utterance, be it inside a word, or one
    of the alternate phrases [hey nowa] and [hi nowa] does; the other
    three alternates, [hey nova], [hi nova] and [hello nova], hold the
    wake word and add nothing.  Without recognized speech it answers
    no, and it raises only when the microphone cannot be opened. *)
Theorem detect_wake_word_anywhere (timeout : option nat) (st : assistant) :
  fst (detect_wake_word w timeout st) =
  match hears w (captures st) with
  | MicUnavailable => Raise MicrophoneError
  | Recognized text =>
      Ret (contains "nova" (lower text) || contains "hey nowa" (lower text)
           || contains "hi nowa" (lower text))
  | _ => Ret false
  end.
Proof.
  change (fst (detect_wake_word w timeout st) =
          match hears w (captures st) with
          | MicUnavailable => Raise MicrophoneError
          | Recognized text => Ret (wake_word_in (lower text))
          | _ => Ret false
          end).
  unfold detect_wake_word, bind at 1.
  destruct (listen_for_audio w timeout st) as [r1 st1] eqn:E1.
  apply listen_for_audio_run in E1 as (_ & -> & _).
  destruct (hears w (captures st)) eqn:Hh; cbn [audio_of];
    try reflexivity;
    unfold bind at 1;
    destruct (recognize_speech w _ st1) as [r2 st2] eqn:E2;
    apply recognize_speech_run in E2 as (-> & _);
    cbn [recognized]; rewrite Hh; try reflexivity.
  cbn [truthy text_of]. rewrite lower_idem.
  destruct (is_empty (lower text)) eqn:Em; cbn [negb].
  - apply is_empty_true in Em. now rewrite Em.
  - rewrite <- any_alternate_in.
    destruct (contains wake_word (lower text)) eqn:C;
      unfold wake_word in C; rewrite C; reflexivity.
Qed.

(** X6.  One capture and its recognition, through [detect_wake_word]: the
    ambient noise is adjusted for exactly when more than three errors
    in a row are counted and the microphone opens; a recognition resets
    the count, a failure of [listen] or of the service adds one, and a
    timeout or unintelligible speech leaves it. *)
Theorem capture_error_count (timeout : option nat) (st : assistant) :
  consecutive_errors (snd (detect_wake_word w timeout st))
  = errors_after (hears w (captures st)) (consecutive_errors st) /\
  new_events st (snd (detect_wake_word w timeout st))
  = capture_events (hears w (captures st)) (consecutive_errors st) timeout.
Proof.
  unfold detect_wake_word, listen_for_audio, recognize_speech,
    errors_after, errors_base, capture_events.
  run.
  destruct (hears w (captures st)) eqn:Hh; run;
    destruct (max_consecutive_errors <? consecutive_errors st); run;
    rewrite ?Hh; run;
    try (split; [reflexivity | news; reflexivity]);
    (destruct (negb (truthy _)); [|destruct (contains _ _)]); run;
    (split; [reflexivity | news; reflexivity]).
Qed.

End RecognizerRuns.

Section ExtractedCommand.

Lemma command_after_some phrase t c :
  command_after phrase t = Some c ->
  startswith t phrase = true /\
  c = strip (drop (String.length phrase) t) /\ c <> EmptyString.
Proof.
  unfold command_after. destruct (startswith t phrase); [|discriminate].
  destruct (is_empty _) eqn:E; [discriminate|].
  intros [= <-]. apply is_empty_false in E. auto.
Qed.

Lemma command_in_utterance_some text c :
  command_in_utterance text = Some c ->
  exists phrase,
    In phrase (wake_word :: alternative_wake_words) /\
    startswith (lower text) phrase = true /\
    c = strip (drop (String.length phrase) (lower text)) /\
    c <> EmptyString.
Proof.
  unfold command_in_utterance.
  destruct (command_after wake_word (lower text)) as [c0|] eqn:E0.
  - intros [= <-]. exists wake_word. split; [now left|].
    now apply command_after_some.
  - unfold alternative_wake_words. cbn [command_after_phrases].
    repeat match goal with
           | |- context [command_after ?p (lower text)] =>
               let E := fresh "E" in
               destruct (command_after p (lower text)) eqn:E;
               [ intros [= <-]; exists p;
                 split; [cbn; tauto | now apply command_after_some]
               | ]
           end.
    discriminate.
Qed.

(** X7.  A command that [detect_wake_word_and_command] extracts is never
    empty, is trimmed and lower-case, is what follows a candidate
    phrase at the start of the utterance, and comes from an utterance in
    which [detect_wake_word] finds the wake word too. *)
Theorem extracted_command_normal_form
    (w : world) (timeout : option nat) (st : assistant) (c : string) :
  fst (detect_wake_word_and_command w timeout st) = Ret (Some c) ->
  exists text phrase,
    hears w (captures st) = Recognized text /\
    In phrase (wake_word :: alternative_wake_words) /\
    startswith (lower text) phrase = true /\
    c = strip (drop (String.length phrase) (lower text)) /\
    c <> EmptyString /\ strip c = c /\ lower c = c /\
    wake_word_in (lower text) = true.
Proof.
  intros H.
  destruct (detect_wake_word_and_command w timeout st) as [r st'] eqn:E.
  apply detect_wake_word_and_command_run in E as (_ & E).
  cbn [fst] in H. subst r.
  destruct (hears w (captures st)) as [| | | | |text]; try discriminate.
  injection E as E. symmetry in E.
  apply command_in_utterance_some in E
    as (phrase & Hin & Hs & Hc & Hne).
  rewrite lower_idem in Hs, Hc.
  exists text, phrase. repeat (split; [assumption || reflexivity|]).
  split; [subst c; apply strip_idem|]. split.
  - subst c. now rewrite lower_strip, lower_drop, lower_idem.
  - unfold wake_word_in.
    apply startswith_contains in Hs.
    unfold wake_word, alternative_wake_words in Hin. cbn [In] in Hin.
    destruct Hin as [<-|[<-|[<-|[<-|[<-|[<-|[]]]]]]].
    + now rewrite Hs.
    + apply (contains_right_part _ "hey " "nova") in Hs. now rewrite Hs.
    + apply (contains_right_part _ "hi " "nova") in Hs. now rewrite Hs.
    + apply (contains_right_part _ "hello " "nova") in Hs. now rewrite Hs.
    + rewrite Hs. now rewrite orb_true_r.
    + rewrite Hs. now rewrite !orb_true_r.
Qed.

Lemma extracted_command_normal_form_witness :
  exists text phrase,
    hears (scripted [Recognized "Hey Nova,  Open Chrome "] [] (Ret "ok"))
      (captures new_assistant) = Recognized text /\
    In phrase (wake_word :: alternative_wake_words) /\
    startswith (lower text) phrase = true /\
    ",  open chrome" = strip (drop (String.length phrase) (lower text)) /\
    ",  open chrome" <> EmptyString /\
    strip ",  open chrome" = ",  open chrome" /\
    lower ",  open chrome" = ",  open chrome" /\
    wake_word_in (lower text) = true.
Proof.
  apply (extracted_command_normal_form
           (scripted [Recognized "Hey Nova,  Open Chrome "] [] (Ret "ok"))
           None new_assistant ",  open chrome").
  reflexivity.
Defined.

End ExtractedCommand.

(* ================================================================== *)
(** * The command that follows a wake phrase *)
(* ================================================================== *)

Section WakeAndCommand.

Lemma lstrip_split s :
  exists before, s = before ++ lstrip s /\ all_space before = true.
Proof.
  unfold lstrip. induction s as [|c s (before & IH & Hb)]; cbn.
  - now exists "".
  - destruct (isspace c) eqn:E.
    + exists (String c before). cbn. rewrite E, Hb. now rewrite <- IH.
    + now exists "".
Qed.

Lemma rstrip_split s :
  exists after, s = rstrip s ++ after /\ all_space after = true.
Proof.
  induction s as [|c s (after & IH & Ha)]; cbn.
  - now exists "".
  - destruct (is_empty (rstrip s)) eqn:E; cbn [andb].
    + destruct (isspace c) eqn:Ec.
      * apply is_empty_true in E. rewrite E in IH. cbn in IH. subst s.
        exists (String c after). cbn. now rewrite Ec, Ha.
      * exists after. cbn. now rewrite <- IH.
    + exists after. cbn. now rewrite <- IH.
Qed.

Lemma rstrip_no_trailing_space s : no_trailing_space (rstrip s).
Proof.
  induction s as [|c s IH]; cbn; [exact I|].
  destruct (is_empty (rstrip s)) eqn:E; cbn [andb].
  - apply is_empty_true in E. rewrite E.
    destruct (isspace c) eqn:Ec; cbn; [exact I | exact Ec].
  - destruct (rstrip s) as [|d u]; [discriminate|]. exact IH.
Qed.

Lemma rstrip_fixed s : no_trailing_space s -> rstrip s = s.
Proof.
  induction s as [|c s IH]; [reflexivity|].
  destruct s as [|d u].
  - cbn. now intros ->.
  - intros H. change (no_trailing_space (String d u)) in H.
    cbn [rstrip]. cbn [rstrip] in IH. rewrite (IH H). reflexivity.
Qed.

(** [strip] takes away white space at the two ends, all of it and
    nothing else. *)
Lemma strip_trims s :
  exists before after,
    s = before ++ strip s ++ after /\
    all_space before = true /\ all_space after = true /\
    no_leading_space (strip s) /\ no_trailing_space (strip s).
Proof.
  destruct (lstrip_split s) as (before & Hs & Hb).
  destruct (rstrip_split (lstrip s)) as (after & Hl & Ha).
  exists before, after. unfold strip. repeat split; auto.
  - now rewrite <- Hl.
  - apply rstrip_no_leading_space, lstrip_no_leading_space.
  - apply rstrip_no_trailing_space.
Qed.

Lemma strip_fixed s :
  no_leading_space s -> no_trailing_space s -> strip s = s.
Proof.
  intros Hl Ht. unfold strip. rewrite (lstrip_fixed _ Hl).
  now apply rstrip_fixed.
Qed.

(** A text starts with one candidate phrase at most. *)
Lemma candidates_exclusive text p q :
  In p (wake_word :: alternative_wake_words) ->
  In q (wake_word :: alternative_wake_words) ->
  startswith text p = true -> startswith text q = true -> p = q.
Proof.
  intros Hp Hq Sp Sq.
  destruct (startswith_both text p q Sp Sq) as [H|H]; revert H;
    clear Sp Sq;
    unfold wake_word, alternative_wake_words in Hp, Hq;
    cbn [In] in Hp, Hq;
    repeat (destruct Hp as [<-|Hp]); try (destruct Hp);
    repeat (destruct Hq as [<-|Hq]); try (destruct Hq);
    intros H; try reflexivity; discriminate H.
Qed.

(** The command comes from the candidate phrase the utterance starts
    with. *)
Lemma command_in_utterance_iff text command :
  command_in_utterance text = Some command <->
  exists phrase,
    In phrase (wake_word :: alternative_wake_words) /\
    startswith (lower text) phrase = true /\
    command = strip (drop (String.length phrase) (lower text)) /\
    command <> EmptyString.
Proof.
  split; [apply command_in_utterance_some|].
  intros (phrase & Hin & Hs & -> & Hne).
  apply is_empty_false in Hne.
  unfold command_in_utterance, alternative_wake_words, wake_word,
    command_after_phrases, command_after.
  revert Hs Hne. generalize (lower text) as t. intros t Hs Hne.
  unfold wake_word, alternative_wake_words in Hin. cbn [In] in Hin.
  destruct Hin as [<-|[<-|[<-|[<-|[<-|[<-|[]]]]]]];
    rewrite ?Hs;
    repeat match goal with
           | |- context [startswith t ?q] =>
               rewrite (startswith_excl t _ q Hs) by reflexivity
           end;
    cbv zeta; now rewrite Hne.
Qed.

(** C1.  On an utterance that the recognizer hears as an alternate wake
    phrase [W], a space and a command text [C],
    [detect_wake_word_and_command] returns [C] in lower case and without
    the white space at its two ends, or no command when nothing is
    left; so it returns exactly [C] if and only if [C] is not empty, is
    in lower case and neither starts nor ends with white space.  No
    text starts with two candidate phrases: there is never a choice
    between prefixes, and on every utterance the command is what is
    left after the one candidate phrase the utterance starts with
    (the code tries the wake word, then the alternates in list order;
    the longest-prefix rule gives the same). *)
Theorem detect_wake_word_and_command_strips_phrase
    (w : world) (timeout : option nat) (st : assistant) (W C : string) :
  In W alternative_wake_words ->
  hears w (captures st) = Recognized (W ++ " " ++ C) ->
  (exists before command after,
      lower C = before ++ command ++ after /\
      all_space before = true /\ all_space after = true /\
      no_leading_space command /\ no_trailing_space command /\
      fst (detect_wake_word_and_command w timeout st)
      = Ret (if is_empty command then None else Some command)) /\
  (fst (detect_wake_word_and_command w timeout st) = Ret (Some C) <->
   C <> EmptyString /\ lower C = C /\
   no_leading_space C /\ no_trailing_space C) /\
  (forall text p q,
      In p (wake_word :: alternative_wake_words) ->
      In q (wake_word :: alternative_wake_words) ->
      startswith text p = true -> startswith text q = true -> p = q) /\
  (forall text st0 command,
      hears w (captures st0) = Recognized text ->
      (fst (detect_wake_word_and_command w timeout st0)
       = Ret (Some command) <->
       exists phrase,
         In phrase (wake_word :: alternative_wake_words) /\
         startswith (lower text) phrase = true /\
         command = strip (drop (String.length phrase) (lower text)) /\
         command <> EmptyString)) /\
  (forall text st0,
      hears w (captures st0) = Recognized text ->
      fst (detect_wake_word_and_command w timeout st0)
      = Ret (strip_longest_wake_phrase text)).
Proof.
  intros HW Hh.
  assert (V : fst (detect_wake_word_and_command w timeout st)
              = Ret (if is_empty (strip (lower C)) then None
                     else Some (strip (lower C)))).
  { rewrite (detect_wake_word_and_command_value _ _ _ _ Hh).
    rewrite <- command_in_utterance_longest.
    now rewrite command_in_utterance_alt. }
  destruct (strip_trims (lower C))
    as (before & after & Hs & Hb & Ha & Hl & Ht).
  split; [|split; [|split; [|split]]].
  - exists before, (strip (lower C)), after. auto 7.
  - rewrite V. split.
    + destruct (is_empty (strip (lower C))) eqn:E; [discriminate|].
      intros [= H]. rewrite H in Hl, Ht, E.
      apply is_empty_false in E.
      repeat split; auto.
      rewrite <- H at 1. now rewrite lower_strip, lower_idem.
    + intros (Hne & Hlow & Hl' & Ht').
      rewrite Hlow, (strip_fixed _ Hl' Ht').
      apply is_empty_false in Hne. now rewrite Hne.
  - apply candidates_exclusive.
  - intros text st0 command Hh0.
    rewrite (detect_wake_word_and_command_value _ _ _ _ Hh0).
    rewrite <- command_in_utterance_longest.
    rewrite <- command_in_utterance_iff. split; congruence.
  - intros text st0. apply detect_wake_word_and_command_value.
Qed.

Lemma detect_wake_word_and_command_strips_phrase_witness :
  exists before command after,
    lower " Open  Chrome " = before ++ command ++ after /\
    all_space before = true /\ all_space after = true /\
    no_leading_space command /\ no_trailing_space command /\
    fst (detect_wake_word_and_command
           (scripted [Recognized ("hey nova" ++ " " ++ " Open  Chrome ")] []
              (Ret "ok"))
           None new_assistant)
    = Ret (if is_empty command then None else Some command).
Proof.
  apply (detect_wake_word_and_command_strips_phrase
           (scripted [Recognized ("hey nova" ++ " " ++ " Open  Chrome ")] []
              (Ret "ok"))
           None new_assistant "hey nova" " Open  Chrome ");
    [simpl; tauto | reflexivity].
Defined.

(** C1, counterexample.  The utterance [W + " " + C] does not always
    give [C] back: a command text with capitals comes back in lower
    case, one with white space around it comes back without, and one
    of white space only gives no command. *)
Lemma detect_wake_word_and_command_not_exact :
  In "hey nova" alternative_wake_words /\
  "Open Chrome" <> EmptyString /\
  fst (detect_wake_word_and_command
         (scripted [Recognized ("hey nova" ++ " " ++ "Open Chrome")] []
            (Ret "ok"))
         None new_assistant)
  = Ret (Some "open chrome") /\
  Ret (Some "open chrome") <> Ret (Some "Open Chrome") /\
  fst (detect_wake_word_and_command
         (scripted [Recognized ("hey nova" ++ " " ++ "open chrome ")] []
            (Ret "ok"))
         None new_assistant)
  = Ret (Some "open chrome") /\
  " " <> EmptyString /\
  fst (detect_wake_word_and_command
         (scripted [Recognized ("hey nova" ++ " " ++ " ")] [] (Ret "ok"))
         None new_assistant)
  = Ret None.
Proof.
  split; [simpl; tauto|].
  repeat (split; [first [reflexivity | discriminate]|]). reflexivity.
Qed.

End WakeAndCommand.

Section FalseAcknowledgment.

Variable w : world.

Ltac run :=
  cbv [bind ret raise get modify emit try_except try_finally is_set
       set_is_listening set_is_processing set_is_speaking
       set_wake_word_detected set_stop_listening set_command_queue
       set_consecutive_errors set_captures set_draws set_events];
  cbn [fst snd is_listening is_processing is_speaking wake_word_detected
       stop_listening thread_alive command_queue consecutive_errors
       captures draws events].

Ltac news :=
  unfold new_events;
  cbn [fst snd events];
  rewrite <- ?app_assoc, ?skipn_app, ?skipn_all, ?Nat.sub_diag;
  cbn [skipn List.app].





End FalseAcknowledgment.


(* ================================================================== *)
(** * More on the assistant and the command processor *)
(* ================================================================== *)

Section ProcessingRuns.

Variable w : world.

Ltac run :=
  cbv [bind ret raise get modify emit try_except try_finally is_set
       set_is_listening set_is_processing set_is_speaking
       set_wake_word_detected set_stop_listening set_command_queue
       set_consecutive_errors set_captures set_draws set_events];
  cbn [fst snd is_listening is_processing is_speaking wake_word_detected
       stop_listening thread_alive command_queue consecutive_errors
       captures draws events].

Ltac news :=
  unfold new_events;
  cbn [fst snd events];
  rewrite <- ?app_assoc, ?skipn_app, ?skipn_all, ?Nat.sub_diag;
  cbn [skipn List.app].

Lemma new_events_delta st st' d :
  events st' = (events st ++ d)%list -> new_events st st' = d.
Proof.
  intros E. unfold new_events.
  now rewrite E, skipn_app, skipn_all, Nat.sub_diag.
Qed.

Ltac delta Ev :=
  apply new_events_delta; cbn [events]; rewrite Ev, <- !app_assoc;
  reflexivity.

(** What [process] leaves alone, and what it may log. *)
Lemma process_frame me text st r st' :
  process w me text st = (r, st') ->
  command_queue st' = command_queue st /\
  is_processing st' = is_processing st /\
  is_speaking st' = is_speaking st /\
  captures st' = captures st /\
  exists calls,
    events st' = (events st ++ calls)%list /\
    (calls = [] \/ exists c t m, calls = [EvHandler c t m]).
Proof.
  rewrite process_route.
  destruct (route text) as [|key h c|c t m|t].
  - run. intros [= <- <-]. repeat (split; [reflexivity|]).
    exists []. now rewrite app_nil_r; auto.
  - destruct h; cbn [run_builtin];
      unfold get_random_greeting, choice, stop; run;
      try (destruct (thread_alive st); [destruct me|]; run);
      intros [= <- <-]; repeat (split; [reflexivity|]);
      exists []; now rewrite app_nil_r; auto.
  - unfold call_handler. run. destruct (handler w c t m); run;
      intros [= <- <-]; repeat (split; [reflexivity|]);
      exists [EvHandler c t m]; split; eauto.
  - run. intros [= <- <-]. repeat (split; [reflexivity|]).
    exists []. now rewrite app_nil_r; auto.
Qed.

(** X9.  Whatever the command is, and whether the handler it reaches
    returns or raises, [process_command] returns normally, adds the
    command to the queue (which nothing takes from), ends with
    [is_processing] reset, announces its start first and its end last,
    calls one category handler at most in between and captures no
    audio. *)
Theorem process_command_brackets
    (me : thread) (text : string) (st : assistant) :
  exists st' between,
    process_command w me text st = (Ret tt, st') /\
    new_events st st'
    = ([EvProcessingStarted] ++ between ++ [EvProcessingStopped])%list /\
    length (handler_calls between) <= 1 /\
    command_queue st' = (command_queue st ++ [text])%list /\
    is_processing st' = false /\
    captures st' = captures st.
Proof.
  assert (N : forall calls spoken,
             calls = [] \/ (exists c t m, calls = [EvHandler c t m]) ->
             length (handler_calls
                       (calls ++ map EvSpeakingStarted spoken)) <= 1).
  { intros calls spoken Hc. rewrite handler_calls_app.
    assert (Z : handler_calls (map EvSpeakingStarted spoken) = [])
      by (induction spoken; auto).
    rewrite Z, app_nil_r.
    destruct Hc as [->|(c & t & m & ->)]; cbn; lia. }
  unfold process_command. run.
  match goal with
  | |- context [process w me text ?s] =>
      destruct (process w me text s) as [[response|e] st1] eqn:E;
      apply process_frame in E
        as (Q & _ & _ & C & calls & Ev & Hcalls)
  end; cbn [command_queue captures events] in Q, C, Ev.
  - unfold speak. destruct (is_empty response); run.
    + eexists; exists (calls ++ map EvSpeakingStarted [])%list.
      split; [reflexivity|].
      split; [cbn [map]; rewrite app_nil_r; delta Ev|]. auto.
    + eexists; exists (calls ++ map EvSpeakingStarted [response])%list.
      split; [reflexivity|].
      split; [cbn [map]; delta Ev|]. auto.
  - unfold speak, apology. run.
    eexists; exists (calls ++ map EvSpeakingStarted [apology])%list.
    split; [reflexivity|].
    split; [cbn [map]; delta Ev|]. auto.
Qed.

(** X10.  [process] raises only when the category handler it calls raises,
    with that exception, or when the exit or stop-listening command
    runs on the listening thread while that thread is alive. *)
Theorem process_raises_only
    (me : thread) (text : string) (st : assistant) (e : exn) :
  fst (process w me text st) = Raise e ->
  (exists c t m, route text = ToHandler c t m /\ handler w c t m = Raise e)
  \/
  (me = ListeningThread /\ thread_alive st = true /\ e = RuntimeError /\
   exists key h,
     route text = ToBuiltin key h (_remove_wake_word text) /\
     (h = handle_exit \/ h = handle_stop_listening)).
Proof.
  rewrite process_route.
  destruct (route text) as [|key h c|c t m|t] eqn:R.
  - discriminate.
  - assert (c = _remove_wake_word text) as ->.
    { unfold route in R. destruct (is_empty text); [discriminate|].
      destruct (find_builtin _ _) as [[k0 h0]|]; [now injection R|].
      destruct (_categorize_command _) as [[c0 m0]|]; [discriminate|].
      repeat (destruct (any_in _ _); [discriminate|]). discriminate. }
    destruct h; cbn [run_builtin];
      unfold get_random_greeting, choice, stop; run; try discriminate.
    all: destruct (thread_alive st) eqn:A; [destruct me|]; run;
      try discriminate.
    all: intros [= <-]; right; repeat (split; [reflexivity|]);
      exists key; eexists; split; [reflexivity | auto].
  - unfold call_handler. run.
    destruct (handler w c t m) as [x|e0] eqn:H; run; [discriminate|].
    intros [= <-]. left. eauto.
  - discriminate.
Qed.

End ProcessingRuns.

Lemma process_raises_only_witness :
  (exists c t m,
      route "open chrome" = ToHandler c t m /\
      handler (scripted [] [] (Raise HandlerError)) c t m
      = Raise HandlerError)
  \/
  (OtherThread = ListeningThread /\ thread_alive new_assistant = true /\
   HandlerError = RuntimeError /\
   exists key h,
     route "open chrome"
     = ToBuiltin key h (_remove_wake_word "open chrome") /\
     (h = handle_exit \/ h = handle_stop_listening)).
Proof.
  apply (process_raises_only (scripted [] [] (Raise HandlerError))
           OtherThread "open chrome" new_assistant HandlerError).
  reflexivity.
Defined.

Section LoopRuns.

Variable w : world.

Ltac run :=
  cbv [bind ret raise get modify emit try_except try_finally is_set
       set_is_listening set_is_processing set_is_speaking
       set_wake_word_detected set_stop_listening set_command_queue
       set_consecutive_errors set_captures set_draws set_events];
  cbn [fst snd is_listening is_processing is_speaking wake_word_detected
       stop_listening thread_alive command_queue consecutive_errors
       captures draws events].

(** X11.  The exit and the stop-listening commands set the stop flag when the
    listening thread is alive, and only then.  Typed in (run on another
    thread) they are answered with the farewell; spoken (run on the
    listening thread while it is alive) they are answered with the
    apology, because [stop()] then joins the thread it runs on. *)
Theorem exit_command_answer
    (me : thread) (text : string) (st : assistant)
    (key : string) (h : builtin_handler) :
  route text = ToBuiltin key h (_remove_wake_word text) ->
  h = handle_exit \/ h = handle_stop_listening ->
  exists st',
    process_command w me text st = (Ret tt, st') /\
    stop_listening st' = thread_alive st || stop_listening st /\
    new_events st st'
    = [EvProcessingStarted;
       EvSpeakingStarted
         (match me with
          | ListeningThread =>
              if thread_alive st then apology else farewell h
          | OtherThread => farewell h
          end);
       EvProcessingStopped].
Proof.
  intros R H. unfold process_command. run.
  rewrite process_route, R.
  destruct H as [-> | ->]; cbn [run_builtin farewell]; unfold stop; run;
    destruct (thread_alive st); destruct me; run;
    unfold speak, apology; cbn [is_empty]; run;
    (eexists; split; [reflexivity|]);
    (split; [cbn; now rewrite ?orb_true_r|]);
    apply new_events_delta; cbn [events];
    now rewrite <- !app_assoc.
Qed.

(** One turn in which both captures are quiet. *)
Lemma quiet_turn st :
  quiet_capture (hears w (captures st)) ->
  quiet_capture (hears w (S (captures st))) ->
  stop_during w (captures st) = false ->
  stop_during w (S (captures st)) = false ->
  consecutive_errors st <= max_consecutive_errors ->
  exists st1,
    guarded_iteration w st = (Ret tt, st1) /\
    events st1 = (events st ++ [EvListen None; EvListen None])%list /\
    captures st1 = captures st + 2 /\
    stop_listening st1 = stop_listening st /\
    consecutive_errors st1 = consecutive_errors st.
Proof.
  intros Q1 Q2 S1 S2 He.
  apply Nat.ltb_ge in He.
  unfold guarded_iteration, iteration, detect_wake_word_and_command,
    detect_wake_word, listen_for_audio, recognize_speech, and_not_stopped.
  run.
  destruct Q1 as [E1|E1], Q2 as [E2|E2];
    do 8 (run; cbn [truthy text_of negb]; rewrite ?E1, ?E2, ?He);
    (eexists; split; [reflexivity|]); cbn;
    rewrite ?S1, ?S2, ?orb_false_r, <- ?app_assoc;
    (repeat split; auto; lia).
Qed.

Lemma listen_continuously_extends n : forall st r st',
  listen_continuously w n st = (r, st') ->
  exists d, events st' = (events st ++ d)%list.
Proof.
  induction n as [|n IHn]; intros st r st' EL.
  - cbn in EL. injection EL as _ <-. exists []. now rewrite app_nil_r.
  - destruct (stop_listening st) eqn:Hs.
    + rewrite (listen_continuously_stopped _ _ _ Hs) in EL.
      injection EL as _ <-. eexists. reflexivity.
    + destruct (listen_continuously_turn w n st Hs) as (s1 & G & T).
      rewrite T in EL. apply IHn in EL as [d Hd].
      apply guarded_iteration_run in G as (_ & d0 & k & (G & _) & _).
      cbn [events set_events] in G.
      exists ([EvPollStop] ++ d0 ++ d)%list.
      now rewrite Hd, G, <- !app_assoc.
Qed.

(** X12.  While nothing is recognized the loop listens again at once: each
    turn is the poll of the stop flag and two captures without timeout;
    nothing is acknowledged or processed and there is no pause. *)
Theorem loop_relistens_without_pause (n : nat) : forall st,
  (forall k, quiet_capture (hears w k)) ->
  (forall k, stop_during w k = false) ->
  stop_listening st = false ->
  consecutive_errors st <= max_consecutive_errors ->
  exists st',
    listen_continuously w n st = (Ret StillRunning, st') /\
    new_events st st'
    = concat (repeat [EvPollStop; EvListen None; EvListen None] n) /\
    captures st' = captures st + 2 * n.
Proof.
  induction n as [|n IH]; intros st Hq Hs Hstop He.
  - exists st. split; [reflexivity|]. split; [|lia].
    apply new_events_delta. now rewrite app_nil_r.
  - destruct (listen_continuously_turn w n st Hstop) as (st1 & E & ->).
    destruct (quiet_turn (set_events (events st ++ [EvPollStop]) st))
      as (st1' & E' & Ev & C & S1 & Er); auto.
    rewrite E in E'. injection E' as <-.
    cbn [events captures stop_listening consecutive_errors set_events]
      in Ev, C, S1, Er.
    destruct (IH st1) as (st' & L & N & C'); auto; try congruence.
    exists st'. split; [assumption|]. split; [|lia].
    apply new_events_delta.
    unfold new_events in N.
    destruct (listen_continuously_extends _ _ _ _ L) as [d Hd].
    rewrite Hd in N.
    rewrite skipn_app, skipn_all, Nat.sub_diag in N. cbn in N. subst d.
    rewrite Hd, Ev, <- !app_assoc. reflexivity.
Qed.

(** X13.  A turn whose first capture hears the wake word and a command in one
    utterance, with no [stop()] arriving, is that capture, one poll of
    the flag and the processing of the extracted command: there is no
    wake acknowledgment and no further capture. *)
Theorem combined_utterance_processed_directly
    (st : assistant) (text c : string) :
  hears w (captures st) = Recognized text ->
  command_in_utterance (lower text) = Some c ->
  stop_listening st = false ->
  stop_during w (captures st) = false ->
  exists st1,
    iteration w st = process_command w ListeningThread c st1 /\
    new_events st st1
    = (capture_events (Recognized text) (consecutive_errors st) None
       ++ [EvPollStop])%list /\
    captures st1 = S (captures st) /\
    wake_word_detected st1 = wake_word_detected st /\
    stop_listening st1 = false.
Proof.
  intros Hh Hc Hs Hd.
  assert (Hne : is_empty (lower text) = false).
  { destruct (lower text) eqn:E; [|reflexivity]. discriminate Hc. }
  unfold iteration, detect_wake_word_and_command, listen_for_audio,
    recognize_speech, and_not_stopped, capture_events.
  run. rewrite ?Hh. run.
  destruct (max_consecutive_errors <? consecutive_errors st); run;
    rewrite ?Hh; run; cbn [truthy text_of]; rewrite Hne; cbn [negb];
    rewrite Hc; run; cbn [truthy text_of];
    assert (Hc' : is_empty c = false)
      by (apply command_in_utterance_some in Hc
            as (_ & _ & _ & _ & Hc); now apply is_empty_false);
    rewrite Hc'; cbn [negb]; run; rewrite Hs, Hd; cbn [orb negb];
    (eexists; split; [reflexivity|]);
    (split; [apply new_events_delta; cbn [events];
             now rewrite <- !app_assoc|]);
    cbn; auto.
Qed.

End LoopRuns.

Lemma exit_command_answer_witness :
  exists st',
    process_command (scripted [] [] (Ret "ok")) ListeningThread "exit"
      new_assistant = (Ret tt, st') /\
    stop_listening st'
    = thread_alive new_assistant || stop_listening new_assistant /\
    new_events new_assistant st'
    = [EvProcessingStarted;
       EvSpeakingStarted
         (if thread_alive new_assistant then apology
          else farewell handle_exit);
       EvProcessingStopped].
Proof.
  apply (exit_command_answer (scripted [] [] (Ret "ok")) ListeningThread
           "exit" new_assistant "exit" handle_exit);
    [reflexivity | now left].
Defined.

Lemma loop_relistens_without_pause_witness :
  exists st',
    listen_continuously (scripted [] [] (Ret "ok")) 3 new_assistant
    = (Ret StillRunning, st') /\
    new_events new_assistant st'
    = concat (repeat [EvPollStop; EvListen None; EvListen None] 3) /\
    captures st' = captures new_assistant + 2 * 3.
Proof.
  apply (loop_relistens_without_pause (scripted [] [] (Ret "ok")) 3
           new_assistant).
  - intros k. left. destruct k; reflexivity.
  - intros k. destruct k; reflexivity.
  - reflexivity.
  - cbn. lia.
Defined.

Lemma combined_utterance_processed_directly_witness :
  exists st1,
    iteration (scripted [Recognized "nova open chrome"] [] (Ret "ok"))
      new_assistant
    = process_command (scripted [Recognized "nova open chrome"] [] (Ret "ok"))
        ListeningThread "open chrome" st1 /\
    new_events new_assistant st1
    = (capture_events (Recognized "nova open chrome")
         (consecutive_errors new_assistant) None ++ [EvPollStop])%list /\
    captures st1 = S (captures new_assistant) /\
    wake_word_detected st1 = wake_word_detected new_assistant /\
    stop_listening st1 = false.
Proof.
  apply (combined_utterance_processed_directly
           (scripted [Recognized "nova open chrome"] [] (Ret "ok"))
           new_assistant "nova open chrome" "open chrome");
    reflexivity.
Defined.

(* ================================================================== *)
(** * More on the pattern table *)
(* ================================================================== *)

Section PatternFacts.

Lemma mt_Lit word : forall s pos cs k,
  mt (Lit word) s pos cs k =
  if ci_startswith s word
  then k (drop (String.length word) s) (pos + String.length word) cs
  else None.
Proof.
  induction word as [|c word IH]; intros s pos cs k.
  - cbn. now rewrite Nat.add_0_r.
  - cbn [Lit mt ci_startswith]. destruct s as [|x s]; [reflexivity|].
    destruct (Ascii.eqb (lower_char x) (lower_char c)); [|reflexivity].
    rewrite IH. cbn [andb drop String.length].
    now rewrite Nat.add_succ_r.
Qed.

Lemma mt_Cat r1 r2 s pos cs k :
  mt (Cat r1 r2) s pos cs k
  = mt r1 s pos cs (fun s' p' c' => mt r2 s' p' c' k).
Proof. reflexivity. Qed.

Lemma mt_Spc_cons c rest pos cs k :
  mt Spc (String c rest) pos cs k
  = if isspace c then k rest (S pos) cs else None.
Proof. reflexivity. Qed.

Lemma mt_Group n name r s pos cs k :
  mt (Group n name r) s pos cs k
  = mt r s pos cs (fun s' p' c' => k s' p' (set_group n name pos p' c')).
Proof. reflexivity. Qed.

Lemma mt_Alt r1 r2 s pos cs k :
  mt (Alt r1 r2) s pos cs k
  = match mt r1 s pos cs k with
    | Some m => Some m
    | None => mt r2 s pos cs k
    end.
Proof. reflexivity. Qed.

Lemma mt_Plus_Spc r s pos cs k :
  mt (Cat (Plus Spc) r) s pos cs k <> None ->
  exists c rest, s = String c rest /\ isspace c = true.
Proof.
  unfold Plus. rewrite !mt_Cat. destruct s as [|c rest]; [now cbn|].
  rewrite mt_Spc_cons. destruct (isspace c) eqn:E; [eauto | congruence].
Qed.

Lemma mt_Star_total r : forall k,
  (forall s pos cs, k s pos cs <> None) ->
  forall s pos cs, mt (Star r) s pos cs k <> None.
Proof.
  intros k Hk s pos cs. cbn [mt].
  generalize (String.length s) as fuel. intros fuel.
  revert s pos cs. induction fuel as [|fuel IH]; intros s pos cs.
  - apply Hk.
  - destruct (mt r s pos cs _); [discriminate | apply Hk].
Qed.

(** After a word and white space, anything is an application name. *)
Lemma launch_pattern_matches word name t pos c rest :
  ci_startswith t word = true ->
  drop (String.length word) t = String c rest -> isspace c = true ->
  mt (Cat (Lit word) (Cat (Plus Spc) (Group 1 name (Star Dot))))
     t pos [] accept <> None.
Proof.
  intros Hw Hd Hc. rewrite mt_Cat, mt_Lit, Hw, Hd.
  unfold Plus. rewrite !mt_Cat, mt_Spc_cons, Hc.
  apply mt_Star_total. intros s p cs.
  rewrite mt_Group. apply mt_Star_total. intros; discriminate.
Qed.

Lemma search_from_found r whole : forall s pos m,
  search_from r whole s pos = Some m ->
  exists before t,
    s = before ++ t /\
    mt r t (pos + String.length before) [] accept <> None.
Proof.
  induction s as [|x s IH]; intros pos m; cbn [search_from].
  - fold accept. destruct (mt r "" pos [] accept) as [[e cs]|] eqn:E;
      [|discriminate].
    intros _. exists "", "". cbn. rewrite Nat.add_0_r. split; congruence.
  - fold accept.
    destruct (mt r (String x s) pos [] accept) as [[e cs]|] eqn:E.
    + intros _. exists "", (String x s). cbn. rewrite Nat.add_0_r.
      split; congruence.
    + intros H. apply IH in H as (before & t & -> & H).
      exists (String x before), t. cbn.
      now rewrite Nat.add_succ_r.
Qed.

Lemma search_from_hit r whole : forall before t pos,
  mt r t (pos + String.length before) [] accept <> None ->
  search_from r whole (before ++ t) pos <> None.
Proof.
  induction before as [|x before IH]; intros t pos H.
  - cbn in H. rewrite Nat.add_0_r in H. cbn.
    destruct t; cbn [search_from]; fold accept;
      destruct (mt r _ pos [] accept) as [[e cs]|]; congruence.
  - cbn [append search_from]. fold accept.
    destruct (mt r _ pos [] accept) as [[e cs]|]; [discriminate|].
    apply IH. cbn in H. now rewrite Nat.add_succ_r in H.
Qed.

Lemma first_pattern_hit r patterns s :
  In r patterns -> search r s <> None -> first_pattern patterns s <> None.
Proof.
  induction patterns as [|p patterns IH]; intros Hin Hs; [destruct Hin|].
  cbn. destruct (search p s) eqn:E; [discriminate|].
  destruct Hin as [->|Hin]; [congruence | now apply IH].
Qed.

Lemma append_assoc' (a b c : string) : (a ++ b) ++ c = a ++ b ++ c.
Proof. induction a as [|x a IH]; cbn; [reflexivity | now rewrite IH]. Qed.

Lemma shadowed_patterns_scan (s : string) :
  search (nth 1 (patterns_of system) Eps) s <> None \/
  search (nth 0 (patterns_of utility) Eps) s <> None ->
  exists m, scan command_patterns s = Some (app, m).
Proof.
  intros H.
  assert (A : first_pattern (patterns_of app) s <> None).
  { destruct H as [H|H].
    - destruct (search _ s) as [m|] eqn:E; [clear H|congruence].
      apply search_from_found in E as (before & t & -> & E).
      change (nth 1 (patterns_of system) Eps)
        with (Cat (Lit "restart") (Cat (Plus Spc) (machine 1))) in E.
      rewrite mt_Cat, mt_Lit in E.
      destruct (ci_startswith t "restart") eqn:W; [|congruence].
      apply (mt_Plus_Spc (machine 1)) in E as (c & rest & D & Hc).
      destruct t as [|a [|b t2]]; try discriminate.
      cbn [ci_startswith] in W.
      apply andb_true_iff in W as [_ W]. apply andb_true_iff in W as [_ W].
      apply (first_pattern_hit
               (Cat (Lit "start")
                  (Cat (Plus Spc) (Group 1 (Some "app_name") (Star Dot)))));
        [cbn; tauto|].
      unfold search.
      replace (before ++ String a (String b t2))
        with ((before ++ String a (String b "")) ++ t2)
        by (now rewrite append_assoc').
      apply search_from_hit.
      now apply (launch_pattern_matches "start" _ t2 _ c rest).
    - destruct (search _ s) as [m|] eqn:E; [clear H|congruence].
      apply search_from_found in E as (before & t & -> & E).
      change (nth 0 (patterns_of utility) Eps)
        with (Cat (Lit "open")
                (Cat (Plus Spc)
                   (alt 1 ["control panel"; "task manager";
                           "file explorer"]))) in E.
      rewrite mt_Cat, mt_Lit in E.
      destruct (ci_startswith t "open") eqn:W; [|congruence].
      apply (mt_Plus_Spc _) in E as (c & rest & D & Hc).
      apply (first_pattern_hit
               (Cat (Lit "open")
                  (Cat (Plus Spc) (Group 1 (Some "app_name") (Star Dot)))));
        [cbn; tauto|].
      unfold search. apply search_from_hit.
      now apply (launch_pattern_matches "open" _ t _ c rest). }
  unfold command_patterns. cbn [scan].
  change (first_pattern (patterns_of app) s <> None) in A.
  unfold patterns_of, command_patterns in A. cbn [find fst snd] in A.
  destruct (first_pattern _ s) as [m|]; [eauto | congruence].
Qed.

(** X14.  The patterns [restart\s+(computer|pc|system)] of the system
    category and [open\s+(control panel|task manager|file explorer)] of
    the utility category never decide the category: wherever one of
    them is found, the application pattern on [start] or on [open] is
    found too, and the application category comes first. *)
Theorem shadowed_patterns_go_to_applications
    (w : world) (me : thread) (st : assistant) (text : string) :
  is_empty text = false ->
  (forall key h, In (key, h) builtin_commands ->
                 contains key (lower (_remove_wake_word text)) = false) ->
  search (nth 1 (patterns_of system) Eps) (lower (_remove_wake_word text))
  <> None \/
  search (nth 0 (patterns_of utility) Eps) (lower (_remove_wake_word text))
  <> None ->
  exists m,
    _categorize_command (_remove_wake_word text) = Some (app, m) /\
    route text = ToHandler app (_remove_wake_word text) (Some m) /\
    handler_calls (new_events st (snd (process w me text st))) = [app].
Proof.
  intros Hne Hnone H.
  destruct (shadowed_patterns_scan _ H) as [m Hm].
  exists m. split; [exact Hm|].
  assert (R : route text = ToHandler app (_remove_wake_word text) (Some m))
    by (apply route_pattern; auto using find_builtin_none).
  split; [exact R|]. rewrite process_route, R.
  destruct (call_handler w app (_remove_wake_word text) (Some m) st)
    as [r st'] eqn:E.
  apply call_handler_run in E as (_ & _ & E).
  cbn [snd]. now rewrite (new_events_evolves _ _ _ _ E).
Qed.

Lemma no_builtin_key_in_restart_computer key h :
  In (key, h) builtin_commands ->
  contains key (lower (_remove_wake_word "restart computer")) = false.
Proof.
  cbn [builtin_commands In]. intros H.
  repeat (destruct H as [[= <- <-]|H]; [reflexivity|]). destruct H.
Qed.

Lemma shadowed_patterns_go_to_applications_witness :
  exists m,
    _categorize_command (_remove_wake_word "restart computer")
    = Some (app, m) /\
    route "restart computer"
    = ToHandler app (_remove_wake_word "restart computer") (Some m) /\
    handler_calls
      (new_events new_assistant
         (snd (process (scripted [] [] (Ret "ok")) OtherThread
                 "restart computer" new_assistant))) = [app].
Proof.
  apply (shadowed_patterns_go_to_applications
           (scripted [] [] (Ret "ok")) OtherThread new_assistant
           "restart computer" eq_refl no_builtin_key_in_restart_computer).
  left. discriminate.
Defined.

End PatternFacts.

Section Unrecognized.

Lemma lower_head_fixed c s : lower (String c s) = String c s ->
  lower_char c = c /\ lower s = s.
Proof. cbn. now intros [= -> ->]. Qed.

Lemma ci_startswith_lower : forall word t,
  lower t = t -> lower word = word ->
  ci_startswith t word = startswith t word.
Proof.
  induction word as [|c word IH]; intros t Ht Hw; [reflexivity|].
  destruct t as [|x t]; [reflexivity|].
  apply lower_head_fixed in Ht as [Hx Ht], Hw as [Hc Hw].
  cbn. rewrite Hx, Hc, (IH t Ht Hw). f_equal. apply Ascii.eqb_sym.
Qed.

Lemma any_in_false words s word :
  any_in words s = false -> In word words -> contains word s = false.
Proof.
  unfold any_in. intros H Hin.
  destruct (contains word s) eqn:E; [|reflexivity].
  rewrite <- H. symmetry. apply existsb_exists. eauto.
Qed.

Ltac no_head H :=
  repeat match goal with
         | |- context [ci_startswith ?t ?word] =>
             rewrite (H word) by (cbn; tauto)
         end.

(** A pattern of the table matches only from one of the head words. *)
Lemma pattern_needs_head pattern t pos cs k :
  In pattern (flat_map snd command_patterns) ->
  (forall word, In word pattern_heads -> ci_startswith t word = false) ->
  mt pattern t pos cs k = None.
Proof.
  intros Hin H. unfold command_patterns in Hin.
  cbn [flat_map snd List.app In] in Hin.
  repeat (destruct Hin as [<-|Hin];
          [ unfold alt, machine; cbn [fold_left];
            rewrite ?mt_Cat, ?mt_Group, ?mt_Alt, ?mt_Lit;
            no_head H; reflexivity | ]).
  destruct Hin.
Qed.

Lemma search_from_needs_head pattern whole : forall s pos,
  In pattern (flat_map snd command_patterns) ->
  lower s = s -> any_in pattern_heads s = false ->
  search_from pattern whole s pos = None.
Proof.
  assert (P : forall s, lower s = s -> any_in pattern_heads s = false ->
              forall word, In word pattern_heads ->
              ci_startswith s word = false).
  { intros s Hl Hs word Hin.
    rewrite ci_startswith_lower; auto.
    - destruct (startswith s word) eqn:E; [|reflexivity].
      apply startswith_contains in E.
      now rewrite (any_in_false _ _ _ Hs Hin) in E.
    - unfold pattern_heads in Hin. cbn [In] in Hin.
      repeat (destruct Hin as [<-|Hin]; [reflexivity|]). destruct Hin. }
  induction s as [|x s IH]; intros pos Hin Hl Hs; cbn [search_from].
  - now rewrite (pattern_needs_head _ _ _ _ _ Hin (P _ Hl Hs)).
  - rewrite (pattern_needs_head _ _ _ _ _ Hin (P _ Hl Hs)).
    apply IH; auto.
    + now apply lower_head_fixed in Hl.
    + unfold any_in in *. apply Bool.not_true_is_false. intros T.
      apply existsb_exists in T as (word & Hw & T).
      apply (contains_tail x) in T.
      apply Bool.not_true_iff_false in Hs. apply Hs.
      apply existsb_exists. eauto.
Qed.

Lemma scan_needs_head s :
  lower s = s -> any_in pattern_heads s = false ->
  scan command_patterns s = None.
Proof.
  intros Hl Hs.
  assert (F : forall patterns,
             incl patterns (flat_map snd command_patterns) ->
             first_pattern patterns s = None).
  { induction patterns as [|p patterns IH]; intros Hi; [reflexivity|].
    cbn. unfold search.
    rewrite search_from_needs_head; auto.
    - apply IH. intros q Hq. apply Hi. now right.
    - apply Hi. now left. }
  unfold command_patterns at 1. cbn [scan].
  rewrite !F; [reflexivity| | | |];
    intros q Hq; unfold command_patterns; cbn [flat_map snd];
    rewrite !in_app_iff; tauto.
Qed.

(** X15.  A text of code points below 256 that, lower-cased and stripped
    of the wake word, contains no builtin key, none of the words the
    patterns start with and no fallback keyword reaches no handler:
    [process] answers that it is not sure how to handle it, quoting
    the stripped text.  (With U+017F or U+0131 in the text a pattern
    can match under [re.IGNORECASE] where no such word is contained.) *)
Theorem unrecognized_text_is_echoed
    (w : world) (me : thread) (st : assistant) (text : string) :
  is_empty text = false ->
  any_in (map fst builtin_commands) (lower (_remove_wake_word text))
  = false ->
  any_in pattern_heads (lower (_remove_wake_word text)) = false ->
  any_in fallback_keywords (lower (_remove_wake_word text)) = false ->
  route text = ToNotSure (_remove_wake_word text) /\
  process w me text st
  = (Ret ("I'm not sure how to handle '" ++ _remove_wake_word text
          ++ "'. Try asking for help to see what I can do."), st).
Proof.
  intros Hne Hb Hp Hk.
  assert (R : route text = ToNotSure (_remove_wake_word text)).
  { unfold route. rewrite Hne.
    rewrite find_builtin_none.
    2:{ intros key h Hin. apply (any_in_false _ _ _ Hb).
        apply (in_map fst) in Hin. exact Hin. }
    unfold _categorize_command.
    rewrite (scan_needs_head _ (lower_idem _) Hp).
    assert (K : forall words, incl words fallback_keywords ->
                any_in words (lower (_remove_wake_word text)) = false).
    { intros words Hi. apply Bool.not_true_is_false. intros T.
      apply existsb_exists in T as (word & Hw & T).
      now rewrite (any_in_false _ _ _ Hk (Hi _ Hw)) in T. }
    rewrite !K; [reflexivity| | | |];
      intros q Hq; unfold fallback_keywords; cbn [In] in *; tauto. }
  split; [exact R|]. now rewrite process_route, R.
Qed.

Lemma unrecognized_text_is_echoed_witness :
  route "nova, xyzzy foobar" = ToNotSure (_remove_wake_word "nova, xyzzy foobar")
  /\
  process (scripted [] [] (Ret "ok")) OtherThread "nova, xyzzy foobar"
    new_assistant
  = (Ret ("I'm not sure how to handle '"
          ++ _remove_wake_word "nova, xyzzy foobar"
          ++ "'. Try asking for help to see what I can do."),
     new_assistant).
Proof.
  apply (unrecognized_text_is_echoed (scripted [] [] (Ret "ok"))
           OtherThread new_assistant "nova, xyzzy foobar");
    reflexivity.
Defined.

End Unrecognized.

Section CaseAndCommand.





Variable w : world.

Ltac run :=
  cbv [bind ret raise get modify emit try_except try_finally is_set
       set_is_listening set_is_processing set_is_speaking
       set_wake_word_detected set_stop_listening set_command_queue
       set_consecutive_errors set_captures set_draws set_events];
  cbn [fst snd is_listening is_processing is_speaking wake_word_detected
       stop_listening thread_alive command_queue consecutive_errors
       captures draws events].


End CaseAndCommand.
(* ================================================================== *)
(** * The processor and SystemCommands together *)
(* ================================================================== *)

Section SystemDispatch.

(** Where [search] finds its match, and what the match object holds. *)
Lemma search_from_span r whole : forall s pos m,
  search_from r whole s pos = Some m ->
  exists before t e cs,
    s = before ++ t /\
    mt r t (pos + String.length before) [] accept = Some (e, cs) /\
    m = mkMatch whole (pos + String.length before) e cs.
Proof.
  induction s as [|x s IH]; intros pos m; cbn [search_from]; fold accept.
  - destruct (mt r "" pos [] accept) as [[e cs]|] eqn:E; [|discriminate].
    intros [= <-]. exists "", "", e, cs. cbn. rewrite Nat.add_0_r. auto.
  - destruct (mt r (String x s) pos [] accept) as [[e cs]|] eqn:E.
    + intros [= <-]. exists "", (String x s), e, cs. cbn.
      rewrite Nat.add_0_r. auto.
    + intros H. apply IH in H as (before & t & e & cs & -> & H & ->).
      exists (String x before), t, e, cs. cbn [append String.length].
      rewrite Nat.add_succ_r. auto.
Qed.

Lemma substring_skip before t n :
  substring (String.length before) n (before ++ t) = substring 0 n t.
Proof. induction before as [|c before IH]; cbn; auto. Qed.

Lemma substring_prefix n : forall t, exists d, t = substring 0 n t ++ d.
Proof.
  induction n as [|n IH]; intros t.
  - exists t. now destruct t.
  - destruct t as [|c t]; [now exists ""|].
    destruct (IH t) as [d Hd]. exists d. cbn. now rewrite <- Hd.
Qed.

Lemma ci_startswith_app d word : forall g,
  ci_startswith g word = true -> ci_startswith (g ++ d) word = true.
Proof.
  induction word as [|c word IH]; intros g H; [reflexivity|].
  destruct g as [|x g]; [discriminate|]. cbn in *.
  apply andb_true_iff in H as [-> H]. now apply IH.
Qed.

Lemma drop_app_cons d c rest : forall k g,
  drop k g = String c rest -> drop k (g ++ d) = String c (rest ++ d).
Proof.
  induction k as [|k IH]; intros g H.
  - cbn in *. now subst g.
  - destruct g as [|x g]; [discriminate|]. cbn in *. now apply IH.
Qed.

(** A text in which [restart] and white space are read has [start] and
    white space in it, which an application pattern finds. *)
Lemma restart_has_start before t c rest :
  ci_startswith t "restart" = true ->
  drop 7 t = String c rest -> isspace c = true ->
  first_pattern (patterns_of app) (before ++ t) <> None.
Proof.
  intros W D Hc.
  destruct t as [|a [|b t2]]; try discriminate.
  cbn [ci_startswith] in W.
  apply andb_true_iff in W as [_ W]. apply andb_true_iff in W as [_ W].
  apply (first_pattern_hit
           (Cat (Lit "start")
              (Cat (Plus Spc) (Group 1 (Some "app_name") (Star Dot)))));
    [cbn; tauto|].
  unfold search.
  replace (before ++ String a (String b t2))
    with ((before ++ String a (String b "")) ++ t2)
    by (now rewrite append_assoc').
  apply search_from_hit.
  now apply (launch_pattern_matches "start" _ t2 _ c rest).
Qed.

Lemma restart_pattern_reads r t pos :
  mt (Cat (Lit "restart") (Cat (Plus Spc) (machine 1))) t pos [] accept
  = Some r ->
  ci_startswith t "restart" = true /\
  exists c rest, drop 7 t = String c rest /\ isspace c = true.
Proof.
  rewrite mt_Cat, mt_Lit.
  destruct (ci_startswith t "restart"); [|discriminate].
  intros E. split; [reflexivity|].
  cbn [String.length] in E.
  apply (mt_Plus_Spc (machine 1) _ (pos + 7) [] accept). now rewrite E.
Qed.

Lemma first_pattern_in patterns s m :
  first_pattern patterns s = Some m ->
  exists p, In p patterns /\ search p s = Some m.
Proof.
  induction patterns as [|p patterns IH]; cbn; [discriminate|].
  destruct (search p s) as [m'|] eqn:E.
  - intros [= <-]. eauto.
  - intros H. destruct (IH H) as (q & Hq & Hs). eauto.
Qed.

Lemma first_pattern_none patterns s p :
  first_pattern patterns s = None -> In p patterns -> search p s = None.
Proof.
  induction patterns as [|q patterns IH]; cbn; [tauto|].
  destruct (search q s) eqn:E; [discriminate|].
  intros H [<-|Hin]; auto.
Qed.

Lemma by_match_in {H : Type} (table : list (regex * H)) g h :
  by_match table g = Some h ->
  exists p, In (p, h) table /\ re_match p g = true.
Proof.
  induction table as [|[p h'] table IH]; cbn; [discriminate|].
  destruct (re_match p g) eqn:E.
  - intros [= <-]. eauto.
  - intros Hm. destruct (IH Hm) as (q & Hq & Hq'). eauto.
Qed.

Lemma by_search_in {H : Type} (table : list (regex * H)) s h m :
  by_search table s = Some (h, m) ->
  exists p, In (p, h) table /\ search p s = Some m.
Proof.
  induction table as [|[p h'] table IH]; cbn; [discriminate|].
  destruct (search p s) eqn:E.
  - intros [= <- <-]. eauto.
  - intros Hm. destruct (IH Hm) as (q & Hq & Hq'). eauto.
Qed.

Lemma by_search_hit {H : Type} (table : list (regex * H)) s p h :
  In (p, h) table -> search p s <> None -> by_search table s <> None.
Proof.
  induction table as [|[q h'] table IH]; cbn; [tauto|].
  intros Hin Hs. destruct (search q s) eqn:E; [discriminate|].
  destruct Hin as [[= -> ->]|Hin]; [congruence | now apply IH].
Qed.

Lemma by_search_none {H : Type} (table : list (regex * H)) s :
  (forall p h, In (p, h) table -> search p s = None) ->
  by_search table s = None.
Proof.
  induction table as [|[q h'] table IH]; intros Hn; cbn; [reflexivity|].
  rewrite (Hn q h') by now left.
  apply IH. intros p h Hin. apply (Hn p h). now right.
Qed.

(** The two tables hold the same patterns, in different orders. *)
Lemma system_patterns_agree p :
  In p (patterns_of system) <->
  exists h, In (p, h) SystemCommands.command_patterns.
Proof.
  unfold patterns_of, command_patterns, SystemCommands.command_patterns.
  cbn [find fst snd In]. split.
  - intros H.
    repeat (destruct H as [<-|H]; [eexists; tauto|]). destruct H.
  - intros [h H].
    repeat (destruct H as [[= <- <-]|H]; [tauto|]). destruct H.
Qed.

Lemma restart_entry p :
  In (p, SystemCommands._restart) SystemCommands.command_patterns ->
  p = Cat (Lit "restart") (Cat (Plus Spc) (machine 1)).
Proof.
  unfold SystemCommands.command_patterns. cbn [In]. intros H.
  repeat (destruct H as [H|H]; [inversion H; subst; reflexivity|]).
  destruct H.
Qed.

(** Inside a text that no application pattern is found in, the restart
    pattern is found nowhere, and in no part of it either. *)
Lemma no_restart_without_start s :
  first_pattern (patterns_of app) s = None ->
  search (Cat (Lit "restart") (Cat (Plus Spc) (machine 1))) s = None /\
  forall m p, search p s = Some m ->
    re_match
      (Cat (Lit "restart") (Cat (Plus Spc) (machine 1))) (group0 m) = false.
Proof.
  intros A. split.
  - destruct (search _ s) as [m|] eqn:E; [|reflexivity].
    apply search_from_span in E as (before & t & e & cs & -> & E & _).
    apply restart_pattern_reads in E as (W & c & rest & D & Hc).
    now destruct (restart_has_start before t c rest W D Hc).
  - intros m p E.
    apply search_from_span in E as (before & t & e & cs & -> & _ & ->).
    unfold group0, slice. cbn [m_start m_end m_string Nat.add].
    rewrite substring_skip.
    destruct (substring_prefix (e - String.length before) t) as [d Hd].
    unfold re_match.
    destruct (mt _ (substring 0 _ t) 0 [] accept) as [r|] eqn:E;
      [|reflexivity].
    apply restart_pattern_reads in E as (W & c & rest & D & Hc).
    destruct (restart_has_start before t c (rest ++ d)); auto.
    + rewrite Hd. now apply ci_startswith_app.
    + rewrite Hd. now apply drop_app_cons.
Qed.

(** X18.  The restart method of [SystemCommands] is never run through
    [CommandProcessor.process]: whatever text the processor hands to the
    system category, with a match or through the keyword test,
    [SystemCommands.process] runs one of its methods on it (it never
    answers that no system command was recognized), and that method is
    not [_restart].  Where [restart] and white space are read, the
    application pattern on [start] is found first; and the keyword
    [restart] is looked for only in a text without [start]. *)
Theorem restart_is_never_run (text command_text : string)
    (m : option rmatch) :
  route text = ToHandler system command_text m ->
  exists h,
    SystemCommands.process command_text m = Some h /\
    h <> SystemCommands._restart.
Proof.
  unfold route. destruct (is_empty text); [discriminate|].
  set (t := _remove_wake_word text).
  destruct (find_builtin builtin_commands (lower t)) as [[key h]|];
    [discriminate|].
  unfold _categorize_command. set (s := lower t).
  destruct (scan command_patterns s) as [[c mm]|] eqn:C.
  - intros [= -> <- <-].
    assert (A : first_pattern (patterns_of app) s = None
                /\ first_pattern (patterns_of system) s = Some mm).
    { unfold patterns_of. cbn [command_patterns find fst snd].
      unfold command_patterns in C. cbn [scan] in C.
      destruct (first_pattern _ s) as [m1|]; [discriminate|].
      destruct (first_pattern _ s) as [m2|]; [split; congruence|].
      destruct (first_pattern _ s) as [m3|]; [discriminate|].
      destruct (first_pattern _ s) as [m4|]; discriminate. }
    destruct A as [A S].
    destruct (no_restart_without_start s A) as [N1 N2].
    apply first_pattern_in in S as (p & Hp & S).
    apply system_patterns_agree in Hp as [hp Hp].
    unfold SystemCommands.process. fold t s.
    destruct (by_match _ (group0 mm)) as [h|] eqn:B1.
    { exists h. split; [reflexivity|]. intros ->.
      apply by_match_in in B1 as (q & Hq & B1).
      apply restart_entry in Hq as ->.
      rewrite (N2 mm p S) in B1. discriminate. }
    destruct (by_search _ s) as [[h m']|] eqn:B2.
    { exists h. split; [reflexivity|]. intros ->.
      apply by_search_in in B2 as (q & Hq & B2).
      apply restart_entry in Hq as ->. congruence. }
    exfalso. apply (by_search_hit _ s p hp Hp); congruence.
  - destruct (any_in ["open"; "launch"; "start"; "run"] s) eqn:K1;
      [discriminate|].
    destruct (any_in ["shutdown"; "restart"; "lock"; "sleep"; "hibernate";
                      "log out"] s) eqn:K2.
    2:{ destruct (any_in ["wifi"; "wireless"; "bluetooth"; "ip address";
                          "network"] s); [discriminate|].
        destruct (any_in ["control panel"; "task manager"; "file explorer";
                          "processes"; "volume"] s); discriminate. }
    intros [= <- <-].
    unfold SystemCommands.process. fold t s.
    rewrite by_search_none.
    2:{ intros p h Hin.
        assert (Hp : In p (patterns_of system))
          by (apply system_patterns_agree; eauto).
        unfold command_patterns in C. cbn [scan] in C.
        destruct (first_pattern _ s) as [m1|]; [discriminate|].
        destruct (first_pattern _ s) as [m2|] eqn:S; [discriminate|].
        now apply (first_pattern_none _ _ _ S). }
    assert (R : contains "restart" s = false).
    { destruct (contains "restart" s) eqn:E; [|reflexivity].
      apply (contains_right_part s "re" "start") in E.
      rewrite (any_in_false _ s "start" K1) in E by (cbn; tauto).
      discriminate. }
    unfold any_in in K2. cbn [existsb] in K2. rewrite R in K2.
    unfold SystemCommands.by_keyword. rewrite R.
    destruct (contains "shutdown" s); [eexists; split; [reflexivity|discriminate]|].
    destruct (contains "turn off" s); [eexists; split; [reflexivity|discriminate]|].
    destruct (contains "logout" s); [eexists; split; [reflexivity|discriminate]|].
    destruct (contains "log out" s); [eexists; split; [reflexivity|discriminate]|].
    destruct (contains "lock" s); [eexists; split; [reflexivity|discriminate]|].
    destruct (contains "sleep" s); [eexists; split; [reflexivity|discriminate]|].
    destruct (contains "hibernate" s); [eexists; split; [reflexivity|discriminate]|].
    discriminate.
Qed.

Lemma restart_is_never_run_witness :
  exists h,
    SystemCommands.process "lock PC"
      (Some (mkMatch "lock pc" 0 7 [mkCapture 1 None 5 7])) = Some h /\
    h <> SystemCommands._restart.
Proof.
  apply (restart_is_never_run "Nova, lock PC" "lock PC"). reflexivity.
Defined.

End SystemDispatch.
(* ================================================================== *)
(** * Matching again on the text of a match *)
(* ================================================================== *)

Section Rematch.

Lemma mt_Star r s pos cs k :
  mt (Star r) s pos cs k = star_loop (mt r) k (String.length s) s pos cs.
Proof. reflexivity. Qed.

Lemma star_loop_S step k fuel s pos cs :
  star_loop step k (S fuel) s pos cs
  = match step s pos cs
            (fun s' p' c' =>
               if p' =? pos then None else star_loop step k fuel s' p' c')
    with
    | Some m => Some m
    | None => k s pos cs
    end.
Proof. reflexivity. Qed.

Lemma drop_drop j2 : forall j1 s, drop j2 (drop j1 s) = drop (j1 + j2) s.
Proof.
  induction j1 as [|j1 IH]; intros s; [reflexivity|].
  destruct s as [|c s]; cbn [drop Nat.add]; [now destruct j2 | apply IH].
Qed.

Lemma length_take : forall n s,
  String.length (substring 0 n s) = Nat.min n (String.length s).
Proof.
  induction n as [|n IH]; intros [|c s]; cbn; auto.
Qed.

Lemma take_cons n c s :
  substring 0 (S n) (String c s) = String c (substring 0 n s).
Proof. reflexivity. Qed.

(** A successful match went through its continuation, some way into
    the text. *)
Lemma star_loop_calls step k res :
  (forall s pos cs k0,
      step s pos cs k0 = Some res ->
      exists j c', j <= String.length s /\
                   k0 (drop j s) (pos + j) c' = Some res) ->
  forall fuel s pos cs,
    star_loop step k fuel s pos cs = Some res ->
    exists j c', j <= String.length s /\
                 k (drop j s) (pos + j) c' = Some res.
Proof.
  intros Hstep.
  assert (Z : forall s pos cs, k s pos cs = Some res ->
              exists j c', j <= String.length s /\
                           k (drop j s) (pos + j) c' = Some res).
  { intros s pos cs H. exists 0, cs. cbn [drop].
    rewrite Nat.add_0_r. split; [lia | exact H]. }
  induction fuel as [|fuel IH]; intros s pos cs; [apply Z|].
  rewrite star_loop_S.
  destruct (step s pos cs _) as [m|] eqn:E; [|apply Z].
  intros [= ->]. apply Hstep in E as (j & c' & Hj & E).
  destruct (pos + j =? pos); [discriminate|].
  apply IH in E as (j2 & c2 & Hj2 & E).
  rewrite drop_drop, <- Nat.add_assoc in E. rewrite length_drop in Hj2.
  exists (j + j2), c2. split; [lia | exact E].
Qed.

Lemma mt_calls res : forall r s pos cs k,
  mt r s pos cs k = Some res ->
  exists j c', j <= String.length s /\ k (drop j s) (pos + j) c' = Some res.
Proof.
  assert (Z : forall s pos cs
                (k : string -> nat -> list capture
                     -> option (nat * list capture)),
             k s pos cs = Some res ->
             exists j c', j <= String.length s /\
                          k (drop j s) (pos + j) c' = Some res).
  { intros s pos cs k H. exists 0, cs. cbn [drop].
    rewrite Nat.add_0_r. split; [lia | exact H]. }
  assert (O : forall x s pos cs
                (k : string -> nat -> list capture
                     -> option (nat * list capture)),
             k s (S pos) cs = Some res ->
             exists j c', j <= String.length (String x s) /\
                          k (drop j (String x s)) (pos + j) c' = Some res).
  { intros x s pos cs k H. exists 1, cs. cbn [drop String.length].
    rewrite Nat.add_1_r. split; [lia | exact H]. }
  induction r as [|c| | |r1 IH1 r2 IH2|r1 IH1 r2 IH2|r IH|n name r IH];
    intros s pos cs k.
  - apply Z.
  - cbn [mt]. destruct s as [|x s]; [discriminate|].
    destruct (Ascii.eqb _ _); [apply O | discriminate].
  - cbn [mt]. destruct s as [|x s]; [discriminate|].
    destruct (isspace x); [apply O | discriminate].
  - cbn [mt]. destruct s as [|x s]; [discriminate|].
    destruct (Ascii.eqb _ _); [discriminate | apply O].
  - rewrite mt_Cat. intros H.
    apply IH1 in H as (j & c' & Hj & H).
    apply IH2 in H as (j2 & c2 & Hj2 & H).
    rewrite drop_drop, <- Nat.add_assoc in H. rewrite length_drop in Hj2.
    exists (j + j2), c2. split; [lia | exact H].
  - rewrite mt_Alt. destruct (mt r1 s pos cs k) as [m|] eqn:E.
    + intros [= ->]. now apply IH1 in E.
    + apply IH2.
  - rewrite mt_Star. apply star_loop_calls. intros s0 pos0 cs0 k0.
    apply IH.
  - rewrite mt_Group. intros H. apply IH in H as (j & c' & Hj & H). eauto.
Qed.

(** What a continuation has to do on the text cut after [n]
    characters, for a match that succeeded on the whole text with
    result [res] to succeed there too, read from position [pos']. *)
Lemma star_loop_truncate step k k' res :
  (forall s pos cs k0,
      step s pos cs k0 = Some res ->
      exists j c', j <= String.length s /\
                   k0 (drop j s) (pos + j) c' = Some res) ->
  (forall s pos cs k0,
      step s pos cs k0 = Some res ->
      forall k0' n pos' cs',
        (forall j c', j <= String.length s ->
                      k0 (drop j s) (pos + j) c' = Some res ->
                      j <= n /\
                      forall c'', k0' (substring 0 (n - j) (drop j s))
                                    (pos' + j) c'' <> None) ->
        step (substring 0 n s) pos' cs' k0' <> None) ->
  forall fuel s pos cs,
    star_loop step k fuel s pos cs = Some res ->
    forall fuel' n pos' cs',
      String.length (substring 0 n s) <= fuel' ->
      (forall j c', j <= String.length s ->
                    k (drop j s) (pos + j) c' = Some res ->
                    j <= n /\
                    forall c'', k' (substring 0 (n - j) (drop j s))
                                  (pos' + j) c'' <> None) ->
      star_loop step k' fuel' (substring 0 n s) pos' cs' <> None.
Proof.
  intros Hcalls Htrunc.
  assert (Z : forall s pos cs, k s pos cs = Some res ->
              forall fuel' n pos' cs',
                (forall j c', j <= String.length s ->
                              k (drop j s) (pos + j) c' = Some res ->
                              j <= n /\
                              forall c'', k' (substring 0 (n - j) (drop j s))
                                            (pos' + j) c'' <> None) ->
                star_loop step k' fuel' (substring 0 n s) pos' cs' <> None).
  { intros s pos cs H fuel' n pos' cs' Hk.
    destruct (Hk 0 cs) as [_ K0]; [lia | now rewrite Nat.add_0_r|].
    cbn [drop] in K0. rewrite Nat.sub_0_r, Nat.add_0_r in K0.
    destruct fuel' as [|fuel']; [apply K0|].
    rewrite star_loop_S. destruct (step _ pos' cs' _); [discriminate|].
    apply K0. }
  induction fuel as [|fuel IH]; intros s pos cs.
  - intros H fuel' n pos' cs' _. now apply (Z s pos cs).
  - rewrite star_loop_S.
    destruct (step s pos cs _) as [m|] eqn:E.
    2:{ intros H fuel' n pos' cs' _. now apply (Z s pos cs). }
    intros [= ->] fuel' n pos' cs' Hfuel Hk.
    assert (B : forall j c',
               j <= String.length s ->
               (if pos + j =? pos then None
                else star_loop step k fuel (drop j s) (pos + j) c')
               = Some res ->
               1 <= j <= n /\
               star_loop step k fuel (drop j s) (pos + j) c' = Some res).
    { intros j c' Hj H.
      destruct (pos + j =? pos) eqn:Q; [discriminate|].
      apply Nat.eqb_neq in Q. split; [|exact H].
      apply (star_loop_calls _ _ _ Hcalls) in H as (j2 & c2 & Hj2 & H).
      rewrite drop_drop, <- Nat.add_assoc in H. rewrite length_drop in Hj2.
      destruct (Hk (j + j2) c2) as [L _]; [lia | exact H | lia]. }
    destruct (Hcalls _ _ _ _ E) as (j & c' & Hj & H).
    destruct (B j c' Hj H) as [Hjn _].
    rewrite length_take in Hfuel.
    destruct fuel' as [|fuel']; [lia|].
    rewrite star_loop_S.
    destruct (step (substring 0 n s) pos' cs' _) as [m|] eqn:E';
      [discriminate|].
    exfalso. revert E'. apply (Htrunc _ _ _ _ E).
    intros j0 c0 Hj0 H0.
    destruct (B j0 c0 Hj0 H0) as [Hj0n L0]. split; [lia|].
    intros c''.
    replace (pos' + j0 =? pos') with false
      by (symmetry; apply Nat.eqb_neq; lia).
    apply (IH _ _ _ L0).
    + rewrite length_take, length_drop. lia.
    + intros j3 c3 Hj3 H3. rewrite length_drop in Hj3.
      rewrite drop_drop, <- Nat.add_assoc in H3.
      destruct (Hk (j0 + j3) c3) as [L3 K3]; [lia | exact H3|].
      split; [lia|]. intros c4.
      rewrite drop_drop, <- Nat.add_assoc.
      replace (n - j0 - j3) with (n - (j0 + j3)) by lia. apply K3.
Qed.

Lemma mt_truncate res : forall r s pos cs k,
  mt r s pos cs k = Some res ->
  forall k' n pos' cs',
    (forall j c', j <= String.length s ->
                  k (drop j s) (pos + j) c' = Some res ->
                  j <= n /\
                  forall c'', k' (substring 0 (n - j) (drop j s))
                                (pos' + j) c'' <> None) ->
    mt r (substring 0 n s) pos' cs' k' <> None.
Proof.
  assert (O : forall x s pos cs
                (k k' : string -> nat -> list capture
                        -> option (nat * list capture)) n pos',
             k s (S pos) cs = Some res ->
             (forall j c', j <= String.length (String x s) ->
                           k (drop j (String x s)) (pos + j) c' = Some res ->
                           j <= n /\
                           forall c'',
                             k' (substring 0 (n - j) (drop j (String x s)))
                                (pos' + j) c'' <> None) ->
             exists n', n = S n' /\
                        forall c'', k' (substring 0 n' s) (S pos') c''
                                    <> None).
  { intros x s pos cs k k' n pos' H Hk.
    destruct (Hk 1 cs) as [L K1];
      [cbn; lia | now rewrite Nat.add_1_r|].
    destruct n as [|n']; [lia|]. exists n'. split; [reflexivity|].
    intros c''. specialize (K1 c''). cbn [drop] in K1.
    now rewrite Nat.add_1_r, Nat.sub_succ, Nat.sub_0_r in K1. }
  induction r as [|c| | |r1 IH1 r2 IH2|r1 IH1 r2 IH2|r IH|g name r IH];
    intros s pos cs k.
  - cbn [mt]. intros H k' n pos' cs' Hk.
    destruct (Hk 0 cs) as [_ K0]; [lia | now rewrite Nat.add_0_r|].
    cbn [drop] in K0. rewrite Nat.sub_0_r, Nat.add_0_r in K0. apply K0.
  - cbn [mt]. destruct s as [|x s]; [discriminate|].
    destruct (Ascii.eqb _ _) eqn:Q; [|discriminate].
    intros H k' n pos' cs' Hk.
    destruct (O _ _ _ _ _ _ _ _ H Hk) as (n' & -> & K).
    rewrite take_cons, Q. apply K.
  - cbn [mt]. destruct s as [|x s]; [discriminate|].
    destruct (isspace x) eqn:Q; [|discriminate].
    intros H k' n pos' cs' Hk.
    destruct (O _ _ _ _ _ _ _ _ H Hk) as (n' & -> & K).
    rewrite take_cons, Q. apply K.
  - cbn [mt]. destruct s as [|x s]; [discriminate|].
    destruct (Ascii.eqb _ _) eqn:Q; [discriminate|].
    intros H k' n pos' cs' Hk.
    destruct (O _ _ _ _ _ _ _ _ H Hk) as (n' & -> & K).
    rewrite take_cons, Q. apply K.
  - rewrite mt_Cat. intros H k' n pos' cs' Hk. rewrite mt_Cat.
    apply (IH1 _ _ _ _ H). intros j c' Hj H2.
    assert (L : j <= n).
    { apply mt_calls in H2 as (j2 & c2 & Hj2 & H2).
      rewrite drop_drop, <- Nat.add_assoc in H2.
      rewrite length_drop in Hj2.
      destruct (Hk (j + j2) c2) as [L _]; [lia | exact H2 | lia]. }
    split; [exact L|]. intros c''.
    apply (IH2 _ _ _ _ H2). intros j3 c3 Hj3 H3.
    rewrite length_drop in Hj3.
    rewrite drop_drop, <- Nat.add_assoc in H3.
    destruct (Hk (j + j3) c3) as [L3 K3]; [lia | exact H3|].
    split; [lia|]. intros c4.
    rewrite drop_drop, <- Nat.add_assoc.
    replace (n - j - j3) with (n - (j + j3)) by lia. apply K3.
  - rewrite mt_Alt. intros H k' n pos' cs' Hk. rewrite mt_Alt.
    destruct (mt r1 s pos cs k) as [m|] eqn:E.
    + injection H as ->.
      destruct (mt r1 (substring 0 n s) pos' cs' k') eqn:E';
        [discriminate|].
      exfalso. revert E'. now apply (IH1 _ _ _ _ E).
    + destruct (mt r1 (substring 0 n s) pos' cs' k'); [discriminate|].
      now apply (IH2 _ _ _ _ H).
  - rewrite mt_Star. intros H k' n pos' cs' Hk. rewrite mt_Star.
    apply (star_loop_truncate (mt r) k k' res) with (3 := H).
    + intros s0 pos0 cs0 k0. apply mt_calls.
    + intros s0 pos0 cs0 k0. apply IH.
    + lia.
    + exact Hk.
  - rewrite mt_Group. intros H k' n pos' cs' Hk. rewrite mt_Group.
    apply (IH _ _ _ _ H). intros j c' Hj H2.
    destruct (Hk j _ Hj H2) as [L K]. split; [exact L|].
    intros c''. apply K.
Qed.

(** [re.match(pattern, m.group(0), re.IGNORECASE)] succeeds for a match
    [m] that [re.search] found with the same pattern. *)
Lemma re_match_group0 pattern s m :
  search pattern s = Some m ->
  re_match pattern (group0 m) = true.
Proof.
  unfold search. intros H.
  apply search_from_span in H as (before & t & e & cs & -> & H & ->).
  unfold group0, slice. cbn [m_start m_end m_string Nat.add].
  rewrite substring_skip. unfold re_match.
  destruct (mt pattern (substring 0 _ t) 0 [] accept) eqn:E;
    [reflexivity|].
  exfalso. revert E. apply (mt_truncate _ _ _ _ _ _ H).
  intros j c' Hj [= <- <-]. split; [lia | discriminate].
Qed.

Lemma by_match_hit {H : Type} (table : list (regex * H)) g p h :
  In (p, h) table -> re_match p g = true -> by_match table g <> None.
Proof.
  induction table as [|[q h'] table IH]; cbn; [tauto|].
  intros Hin Hm. destruct (re_match q g) eqn:E; [discriminate|].
  destruct Hin as [[= -> ->]|Hin]; [congruence | now apply IH].
Qed.

(** Two words that one text starts with: one starts with the other. *)
Lemma ci_startswith_comparable : forall w1 w2 g,
  ci_startswith g w1 = true -> ci_startswith g w2 = true ->
  ci_startswith w1 w2 = true \/ ci_startswith w2 w1 = true.
Proof.
  induction w1 as [|c1 w1 IH]; intros w2 g H1 H2; [now right|].
  destruct w2 as [|c2 w2]; [now left|].
  destruct g as [|x g]; [discriminate|]. cbn in *.
  apply andb_true_iff in H1 as [E1 H1], H2 as [E2 H2].
  apply Ascii.eqb_eq in E1, E2.
  rewrite <- E1, <- E2, Ascii.eqb_refl. cbn [andb]. eauto.
Qed.

(** The word that the text read by a pattern of [SystemCommands]
    starts with, and the method that goes with it. *)
Lemma system_pattern_head p h g :
  In (p, h) SystemCommands.command_patterns ->
  re_match p g = true ->
  exists word,
    ci_startswith g word = true /\
    In (word, h)
       [ ("shutdown", SystemCommands._shutdown);
         ("turn off", SystemCommands._shutdown);
         ("restart", SystemCommands._restart);
         ("log", SystemCommands._logout);
         ("lock", SystemCommands._lock);
         ("sleep", SystemCommands._sleep);
         ("hibernate", SystemCommands._hibernate) ].
Proof.
  enough (G : forall entry,
             In entry SystemCommands.command_patterns ->
             re_match (fst entry) g = true ->
             exists word,
               ci_startswith g word = true /\
               In (word, snd entry)
                  [ ("shutdown", SystemCommands._shutdown);
                    ("turn off", SystemCommands._shutdown);
                    ("restart", SystemCommands._restart);
                    ("log", SystemCommands._logout);
                    ("lock", SystemCommands._lock);
                    ("sleep", SystemCommands._sleep);
                    ("hibernate", SystemCommands._hibernate) ])
    by (apply (G (p, h))).
  clear p h. intros entry.
  unfold SystemCommands.command_patterns, re_match.
  cbn [In]. intros Hin.
  repeat (destruct Hin as [<-|Hin];
          [ cbn [fst snd]; unfold alt; cbn [fold_left];
            rewrite mt_Cat, ?mt_Group, ?mt_Alt, ?mt_Lit;
            repeat match goal with
                   | |- context [ci_startswith g ?word] =>
                       let E := fresh "E" in
                       destruct (ci_startswith g word) eqn:E;
                       [ intros _; exists word; split;
                         [exact E
                         | repeat (first [left; reflexivity | right]) ] | ]
                   end;
            discriminate | ]).
  destruct Hin.
Qed.

Lemma system_heads_differ g w1 w2 h1 h2 :
  let heads :=
    [ ("shutdown", SystemCommands._shutdown);
      ("turn off", SystemCommands._shutdown);
      ("restart", SystemCommands._restart);
      ("log", SystemCommands._logout);
      ("lock", SystemCommands._lock);
      ("sleep", SystemCommands._sleep);
      ("hibernate", SystemCommands._hibernate) ] in
  In (w1, h1) heads -> In (w2, h2) heads ->
  ci_startswith g w1 = true -> ci_startswith g w2 = true -> h1 = h2.
Proof.
  intros heads H1 H2 G1 G2.
  destruct (ci_startswith_comparable _ _ _ G1 G2) as [C|C];
    revert C; clear G1 G2; subst heads; cbn [In] in H1, H2;
    repeat (destruct H1 as [[= <- <-]|H1]);
    try (destruct H1);
    repeat (destruct H2 as [[= <- <-]|H2]);
    try (destruct H2);
    intros C; try reflexivity; discriminate C.
Qed.

(** X19.  A system command that the processor recognizes by a pattern
    is carried out by the method that [SystemCommands] gives to that
    very pattern: the match object decides, whatever else the text
    has in it and although the two tables list the patterns in
    different orders. *)
Theorem system_method_follows_match (text command_text : string)
    (m : rmatch) :
  route text = ToHandler system command_text (Some m) ->
  exists pattern h,
    In pattern (patterns_of system) /\
    search pattern (lower command_text) = Some m /\
    In (pattern, h) SystemCommands.command_patterns /\
    SystemCommands.process command_text (Some m) = Some h.
Proof.
  unfold route. destruct (is_empty text); [discriminate|].
  set (t := _remove_wake_word text).
  destruct (find_builtin builtin_commands (lower t)) as [[key h]|];
    [discriminate|].
  unfold _categorize_command. set (s := lower t).
  destruct (scan command_patterns s) as [[c mm]|] eqn:C.
  2:{ destruct (any_in _ s); [discriminate|].
      destruct (any_in ["shutdown"; "restart"; "lock"; "sleep"; "hibernate";
                        "log out"] s); [discriminate|].
      destruct (any_in ["wifi"; "wireless"; "bluetooth"; "ip address";
                        "network"] s); [discriminate|].
      destruct (any_in ["control panel"; "task manager"; "file explorer";
                        "processes"; "volume"] s); discriminate. }
  intros [= -> <- ->].
  assert (S : first_pattern (patterns_of system) s = Some m).
  { unfold patterns_of. cbn [command_patterns find fst snd].
    unfold command_patterns in C. cbn [scan] in C.
    destruct (first_pattern _ s) as [m1|]; [discriminate|].
    destruct (first_pattern _ s) as [m2|]; [congruence|].
    destruct (first_pattern _ s) as [m3|]; [discriminate|].
    destruct (first_pattern _ s) as [m4|]; discriminate. }
  apply first_pattern_in in S as (p & Hp & S).
  destruct (proj1 (system_patterns_agree p) Hp) as [hp Hin].
  pose proof (re_match_group0 _ _ _ S) as M.
  exists p, hp. repeat split; auto.
  unfold SystemCommands.process.
  destruct (by_match _ (group0 m)) as [h|] eqn:B.
  2:{ now destruct (by_match_hit _ _ _ _ Hin M). }
  apply by_match_in in B as (q & Hq & B).
  destruct (system_pattern_head _ _ _ Hin M) as (w1 & G1 & H1).
  destruct (system_pattern_head _ _ _ Hq B) as (w2 & G2 & H2).
  now rewrite (system_heads_differ _ _ _ _ _ H1 H2 G1 G2).
Qed.

Lemma system_method_follows_match_witness :
  exists pattern h,
    In pattern (patterns_of system) /\
    search pattern (lower "lock PC, then log out")
    = Some (mkMatch "lock pc, then log out" 0 7 [mkCapture 1 None 5 7]) /\
    In (pattern, h) SystemCommands.command_patterns /\
    SystemCommands.process "lock PC, then log out"
      (Some (mkMatch "lock pc, then log out" 0 7 [mkCapture 1 None 5 7]))
    = Some h.
Proof.
  apply (system_method_follows_match "Nova, lock PC, then log out").
  reflexivity.
Defined.

End Rematch.
(* ================================================================== *)
(** * The processor and UtilityCommands together *)
(* ================================================================== *)

Section UtilityDispatch.

(** What follows the first part of a pattern is read somewhere in the
    text. *)
Lemma mt_Cat_tail r1 r2 t pos cs res :
  mt (Cat r1 r2) t pos cs accept = Some res ->
  exists j c', mt r2 (drop j t) (pos + j) c' accept = Some res.
Proof.
  rewrite mt_Cat. intros H.
  apply mt_calls in H as (j & c' & _ & H). eauto.
Qed.

Lemma startswith_app_l p q s :
  startswith s (p ++ q) = true -> startswith s p = true.
Proof. intros H. now apply startswith_app_split in H. Qed.

Lemma contains_left_part s p q :
  contains (p ++ q) s = true -> contains p s = true.
Proof.
  induction s as [|c s IH]; cbn [contains]; intros H.
  - rewrite orb_false_r in H. apply startswith_app_l in H. now rewrite H.
  - apply orb_true_iff in H as [H|H].
    + apply startswith_app_l in H. now rewrite H.
    + rewrite (IH H). apply orb_true_r.
Qed.

(** A word read, whatever the case, in a part of a lower-case text is
    in the text. *)
Lemma ci_startswith_contains s word j :
  lower s = s -> lower word = word ->
  ci_startswith (drop j s) word = true -> contains word s = true.
Proof.
  intros Hs Hw H. apply (contains_drop j), startswith_contains.
  rewrite <- ci_startswith_lower; auto.
  now rewrite lower_drop, Hs.
Qed.

Lemma search_reads pattern s m :
  search pattern s = Some m ->
  exists j res, mt pattern (drop j s) j [] accept = Some res.
Proof.
  unfold search. intros H.
  apply search_from_span in H as (before & t & e & cs & -> & H & _).
  exists (String.length before), (e, cs). now rewrite drop_app.
Qed.

(** A text in which a utility pattern of the processor is found holds
    the words the pattern ends in. *)
Lemma utility_pattern_words p s :
  In p (patterns_of utility) -> lower s = s -> search p s <> None ->
  contains "control panel" s = true \/ contains "task manager" s = true \/
  contains "file explorer" s = true \/
  contains "running processes" s = true \/
  contains "cpu usage" s = true \/ contains "memory usage" s = true \/
  contains "volume" s = true.
Proof.
  intros Hin Hs Hf.
  destruct (search p s) as [m|] eqn:E; [clear Hf|congruence].
  apply search_reads in E as (j & res & E).
  assert (W : forall word k, lower word = word ->
              ci_startswith (drop k s) word = true ->
              contains word s = true)
    by (intros word k Hw; now apply ci_startswith_contains).
  unfold patterns_of in Hin. cbn [command_patterns find fst snd In] in Hin.
  destruct Hin as [<-|[<-|[<-|[]]]];
    apply mt_Cat_tail in E as (j1 & c1 & E);
    apply mt_Cat_tail in E as (j2 & c2 & E);
    rewrite !drop_drop in E.
  - unfold alt in E. cbn [fold_left] in E.
    rewrite mt_Group, !mt_Alt, !mt_Lit in E.
    destruct (ci_startswith _ "control panel") eqn:E1;
      [apply W in E1; auto|].
    destruct (ci_startswith _ "task manager") eqn:E2;
      [apply W in E2; auto|].
    destruct (ci_startswith _ "file explorer") eqn:E3;
      [apply W in E3; auto | discriminate].
  - unfold alt in E. cbn [fold_left] in E.
    rewrite mt_Group, !mt_Alt, !mt_Lit in E.
    destruct (ci_startswith _ "running processes") eqn:E1;
      [apply W in E1; auto 6|].
    destruct (ci_startswith _ "cpu usage") eqn:E2;
      [apply W in E2; auto 6|].
    destruct (ci_startswith _ "memory usage") eqn:E3;
      [apply W in E3; auto 7 | discriminate].
  - rewrite mt_Cat, mt_Lit in E.
    destruct (ci_startswith _ "volume") eqn:E1;
      [apply W in E1; auto 8 | discriminate].
Qed.

Lemma utility_keyword_hit s :
  contains "control panel" s = true \/ contains "task manager" s = true \/
  contains "file explorer" s = true \/
  contains "running processes" s = true \/
  contains "cpu usage" s = true \/ contains "memory usage" s = true \/
  contains "volume" s = true ->
  UtilityCommands.by_keyword s <> UtilityCommands.NotSure.
Proof.
  intros H.
  assert (P : contains "running processes" s = true ->
              contains "processes" s = true)
    by apply (contains_right_part s "running " "processes").
  assert (C1 : contains "cpu usage" s = true -> contains "cpu" s = true)
    by apply (contains_left_part s "cpu" " usage").
  assert (C2 : contains "cpu usage" s = true -> contains "usage" s = true)
    by apply (contains_right_part s "cpu " "usage").
  assert (M1 : contains "memory usage" s = true ->
               contains "memory" s = true)
    by apply (contains_left_part s "memory" " usage").
  assert (M2 : contains "memory usage" s = true ->
               contains "usage" s = true)
    by apply (contains_right_part s "memory " "usage").
  unfold UtilityCommands.by_keyword.
  destruct (contains "control panel" s); [discriminate|].
  destruct (contains "task manager" s); [discriminate|].
  destruct (contains "file explorer" s); [discriminate|].
  destruct (contains "processes" s); [discriminate|].
  destruct (contains "volume" s).
  { repeat match goal with
           | |- context [if ?b then _ else _] => destruct b
           end; discriminate. }
  destruct H as [H|[H|[H|[H|[H|[H|H]]]]]]; try discriminate H.
  - now apply P in H.
  - rewrite (C1 H), (C2 H). discriminate.
  - rewrite (M1 H), (M2 H). cbn. now destruct (contains "cpu" s).
Qed.

Lemma by_mapping_opens mappings s call :
  UtilityCommands.by_mapping mappings s = Some call ->
  call <> UtilityCommands.NotSure.
Proof.
  induction mappings as [|[name [command description]] mappings IH];
    cbn; [discriminate|].
  destruct (_ && _); [|exact IH]. intros [= <-]. discriminate.
Qed.

(** X20.  On texts of code points below 256, [UtilityCommands.process]
    never has to answer that no utility command was recognized when
    the text comes through [CommandProcessor.process]: whatever such
    text the processor hands to the utility category, with a match or
    through the keyword test, a method is run on it or a utility is
    opened.  (With U+017F in the text the processor's pattern can match
    under [re.IGNORECASE] where the keywords are not contained.) *)
Theorem utility_command_carried_out (text command_text : string)
    (m : option rmatch) :
  route text = ToHandler utility command_text m ->
  UtilityCommands.process command_text m <> UtilityCommands.NotSure.
Proof.
  unfold route. destruct (is_empty text); [discriminate|].
  set (t := _remove_wake_word text).
  destruct (find_builtin builtin_commands (lower t)) as [[key h]|];
    [discriminate|].
  unfold _categorize_command. set (s := lower t).
  assert (K : contains "control panel" s = true \/
              contains "task manager" s = true \/
              contains "file explorer" s = true \/
              contains "running processes" s = true \/
              contains "cpu usage" s = true \/
              contains "memory usage" s = true \/
              contains "volume" s = true ->
              forall m, UtilityCommands.process t m
                        <> UtilityCommands.NotSure).
  { intros K m0. unfold UtilityCommands.process. fold s.
    destruct (match m0 with Some _ => _ | None => _ end);
      [discriminate|].
    destruct (by_search _ s) as [[h m']|]; [discriminate|].
    destruct (UtilityCommands.by_mapping _ s) as [call|] eqn:B.
    - now apply by_mapping_opens in B.
    - now apply utility_keyword_hit. }
  destruct (scan command_patterns s) as [[c mm]|] eqn:C.
  - intros [= -> <- <-]. apply K.
    assert (S : first_pattern (patterns_of utility) s = Some mm).
    { unfold patterns_of. cbn [command_patterns find fst snd].
      unfold command_patterns in C. cbn [scan] in C.
      destruct (first_pattern _ s) as [m1|]; [discriminate|].
      destruct (first_pattern _ s) as [m2|]; [discriminate|].
      destruct (first_pattern _ s) as [m3|]; [discriminate|].
      destruct (first_pattern _ s) as [m4|]; congruence. }
    apply first_pattern_in in S as (p & Hp & S).
    apply (utility_pattern_words p); auto.
    + apply lower_idem.
    + congruence.
  - destruct (any_in ["open"; "launch"; "start"; "run"] s);
      [discriminate|].
    destruct (any_in ["shutdown"; "restart"; "lock"; "sleep"; "hibernate";
                      "log out"] s); [discriminate|].
    destruct (any_in ["wifi"; "wireless"; "bluetooth"; "ip address";
                      "network"] s); [discriminate|].
    destruct (any_in ["control panel"; "task manager"; "file explorer";
                      "processes"; "volume"] s) eqn:U; [|discriminate].
    intros [= <- <-].
    unfold UtilityCommands.process. fold s.
    destruct (by_search _ s) as [[h m']|]; [discriminate|].
    destruct (UtilityCommands.by_mapping _ s) as [call|] eqn:B;
      [now apply by_mapping_opens in B|].
    unfold any_in in U. cbn [existsb] in U.
    unfold UtilityCommands.by_keyword.
    destruct (contains "control panel" s); [discriminate|].
    destruct (contains "task manager" s); [discriminate|].
    destruct (contains "file explorer" s); [discriminate|].
    destruct (contains "processes" s); [discriminate|].
    destruct (contains "volume" s); [|discriminate].
    repeat match goal with
           | |- context [if ?b then _ else _] => destruct b
           end; discriminate.
Qed.

Lemma utility_command_carried_out_witness :
  UtilityCommands.process "list CPU usage"
    (Some (mkMatch "list cpu usage" 0 14
             [mkCapture 2 None 5 14; mkCapture 1 None 0 4]))
  <> UtilityCommands.NotSure.
Proof.
  apply (utility_command_carried_out "Nova, list CPU usage").
  reflexivity.
Defined.

End UtilityDispatch.
(* ================================================================== *)
(** * The processor and NetworkCommands together *)
(* ================================================================== *)

Section NetworkDispatch.

Lemma heads_absent s :
  lower s = s -> any_in pattern_heads s = false ->
  forall word, In word pattern_heads -> ci_startswith s word = false.
Proof.
  intros Hl Hs word Hin.
  rewrite ci_startswith_lower; auto.
  - destruct (startswith s word) eqn:E; [|reflexivity].
    apply startswith_contains in E.
    now rewrite (any_in_false _ _ _ Hs Hin) in E.
  - unfold pattern_heads in Hin. cbn [In] in Hin.
    repeat (destruct Hin as [<-|Hin]; [reflexivity|]). destruct Hin.
Qed.

Lemma any_in_tail words x s :
  any_in words (String x s) = false -> any_in words s = false.
Proof.
  unfold any_in. intros H. apply Bool.not_true_is_false. intros T.
  apply existsb_exists in T as (word & Hw & T).
  apply (contains_tail x) in T.
  apply Bool.not_true_iff_false in H. apply H.
  apply existsb_exists. eauto.
Qed.

(** A pattern that can only be read from a head word is found nowhere
    in a text without head words. *)
Lemma search_needs_heads pattern s :
  (forall t pos cs k,
      (forall word, In word pattern_heads -> ci_startswith t word = false) ->
      mt pattern t pos cs k = None) ->
  lower s = s -> any_in pattern_heads s = false ->
  search pattern s = None.
Proof.
  intros Hp.
  enough (G : forall whole t pos,
             lower t = t -> any_in pattern_heads t = false ->
             search_from pattern whole t pos = None)
    by (apply G).
  intros whole t. induction t as [|x t IH]; intros pos Hl Hs;
    cbn [search_from].
  - now rewrite (Hp _ _ _ _ (heads_absent _ Hl Hs)).
  - rewrite (Hp _ _ _ _ (heads_absent _ Hl Hs)).
    apply IH.
    + now apply lower_head_fixed in Hl.
    + now apply any_in_tail in Hs.
Qed.

Ltac absent H :=
  repeat match goal with
         | |- context [ci_startswith ?t ?word] =>
             rewrite (H word) by (cbn; tauto)
         end.

Lemma network_pattern_needs_head entry t pos cs k :
  In entry NetworkCommands.command_patterns ->
  (forall word, In word pattern_heads -> ci_startswith t word = false) ->
  mt (fst entry) t pos cs k = None.
Proof.
  intros Hin H. unfold NetworkCommands.command_patterns in Hin.
  cbn [In] in Hin.
  repeat (destruct Hin as [<-|Hin];
          [ cbn [fst]; unfold alt; cbn [fold_left];
            rewrite mt_Cat, ?mt_Group, ?mt_Alt, ?mt_Lit;
            absent H; reflexivity | ]).
  destruct Hin.
Qed.

(** X21.  The keyword [network] leads nowhere: a text of code points
    below 256 that has it, but no builtin key, none of the words the
    patterns start with and neither [wifi], [wireless], [bluetooth]
    nor [ip], is handed to the network category by
    [CommandProcessor.process], and [NetworkCommands.process] answers
    that it is not sure which network command is meant.  (With U+017F
    or U+0131 in the text a pattern can match under [re.IGNORECASE]
    where none of these words is contained.) *)
Theorem network_keyword_not_recognized (text : string) :
  is_empty text = false ->
  any_in (map fst builtin_commands) (lower (_remove_wake_word text))
  = false ->
  any_in pattern_heads (lower (_remove_wake_word text)) = false ->
  any_in ["wifi"; "wireless"; "bluetooth"; "ip"]
    (lower (_remove_wake_word text)) = false ->
  contains "network" (lower (_remove_wake_word text)) = true ->
  route text = ToHandler network (_remove_wake_word text) None /\
  NetworkCommands.process (_remove_wake_word text) None
  = NetworkCommands.Reply NetworkCommands.not_recognized.
Proof.
  set (t := _remove_wake_word text). set (s := lower t).
  intros Hne Hb Hp Hk Hn.
  assert (Hl : lower s = s) by apply lower_idem.
  assert (Hd : forall word, In word pattern_heads ->
                            contains word s = false)
    by (intros word; apply any_in_false, Hp).
  assert (Hw : forall word, In word ["wifi"; "wireless"; "bluetooth"; "ip"]
                            -> contains word s = false)
    by (intros word; apply any_in_false, Hk).
  assert (Hlog : contains "log out" s = false).
  { destruct (contains "log out" s) eqn:E; [|reflexivity].
    apply (contains_left_part s "log" " out") in E.
    rewrite Hd in E by (cbn; tauto). discriminate. }
  assert (Hip : contains "ip address" s = false).
  { destruct (contains "ip address" s) eqn:E; [|reflexivity].
    apply (contains_left_part s "ip" " address") in E.
    rewrite Hw in E by (cbn; tauto). discriminate. }
  split.
  - unfold route. rewrite Hne. fold t s.
    rewrite find_builtin_none.
    2:{ intros key h Hin. apply (any_in_false _ _ _ Hb).
        apply (in_map fst) in Hin. exact Hin. }
    unfold _categorize_command. fold s.
    rewrite (scan_needs_head _ Hl Hp).
    unfold any_in. cbn [existsb].
    rewrite !Hd by (cbn; tauto). rewrite Hlog, Hn.
    rewrite !Hw by (cbn; tauto). rewrite Hip. reflexivity.
  - unfold NetworkCommands.process. fold s.
    rewrite by_search_none.
    2:{ intros p h Hin. apply search_needs_heads; auto.
        intros t0 pos cs k.
        apply (network_pattern_needs_head (p, h)), Hin. }
    unfold NetworkCommands.by_keyword.
    rewrite !Hw by (cbn; tauto). rewrite Hip.
    rewrite !Hd by (cbn; tauto). reflexivity.
Qed.

Lemma network_keyword_not_recognized_witness :
  route "Nova, network status"
  = ToHandler network (_remove_wake_word "Nova, network status") None /\
  NetworkCommands.process (_remove_wake_word "Nova, network status") None
  = NetworkCommands.Reply NetworkCommands.not_recognized.
Proof.
  apply (network_keyword_not_recognized "Nova, network status");
    reflexivity.
Defined.

End NetworkDispatch.
